(** * Gesture-controlled drawing surface: model and verified properties

    The development embeds the frame loop of [App] (hand classification,
    zoom, drawing, dissolve, particle simulation), the geometry helpers of
    [utils/geometry.ts] and the dwell-selection effect of [SciFiMenu].

    A TypeScript [number] is an IEEE 754 binary64 value.  The program is
    written once, over a structure [JsNumber] of the arithmetic and
    comparison operators the source uses, and read at two structures:
    - [float], the kernel's binary64 numbers: the program as it runs;
    - [R], the real numbers: the same program in exact arithmetic.
    Properties of control flow and data hold for every structure; numeric
    properties are proved where arithmetic laws are needed and evaluated on
    [float] wherever a run decides them. *)

From Stdlib Require Import ZArith String List Bool Lia.
From Stdlib Require Import Floats.
From Stdlib Require Import Reals Lra.
Import ListNotations.

Set Implicit Arguments.

(** ** Numbers *)

Declare Scope js_scope.
Delimit Scope js_scope with js.

Class JsNumber (num : Type) : Type := {
  of_Z : Z -> num;                (* an integer literal *)
  add : num -> num -> num;
  sub : num -> num -> num;
  mul : num -> num -> num;
  div : num -> num -> num;
  Math_sqrt : num -> num;
  Math_max : num -> num -> num;
  Math_min : num -> num -> num;
  ltb : num -> num -> bool;       (* [a < b]; [a > b] is [ltb b a] *)
  leb : num -> num -> bool        (* [a <= b]; [a >= b] is [leb b a] *)
}.

Infix "+" := add : js_scope.
Infix "-" := sub : js_scope.
Infix "*" := mul : js_scope.
Infix "/" := div : js_scope.
Infix "<?" := ltb : js_scope.
Infix "<=?" := leb : js_scope.
Notation "a >? b" := (ltb b a) (at level 70, no associativity) : js_scope.
Notation "a >=? b" := (leb b a) (at level 70, no associativity) : js_scope.

(** A decimal literal [n/d] with [d] a power of ten.  On binary64 the
    quotient of two exactly represented integers is rounded once, to the
    double nearest to the decimal value, which is what the parser yields. *)
Definition lit {num} `{JsNumber num} (n d : Z) : num :=
  (of_Z n / of_Z d)%js.

(** [Math.pow(v, 2)], the square of [v]; on binary64 the product [v * v]
    rounded once. *)
Definition Math_pow2 {num} `{JsNumber num} (v : num) : num := (v * v)%js.

(** *** Binary64 *)

Definition float_of_Z (z : Z) : float :=
  SF2Prim (binary_normalize prec emax z 0 false).

Definition float_is_nan (a : float) : bool := negb (PrimFloat.eqb a a).

Definition float_is_neg_zero (a : float) : bool :=
  match PrimFloat.classify a with NZero => true | _ => false end.

(** [Math.max]: NaN if either argument is NaN, and [+0] is larger than [-0]. *)
Definition float_max (a b : float) : float :=
  if float_is_nan a || float_is_nan b then PrimFloat.nan
  else if PrimFloat.ltb a b then b
  else if PrimFloat.ltb b a then a
  else if float_is_neg_zero a then b else a.

(** [Math.min]: NaN if either argument is NaN, and [-0] is smaller than [+0]. *)
Definition float_min (a b : float) : float :=
  if float_is_nan a || float_is_nan b then PrimFloat.nan
  else if PrimFloat.ltb a b then a
  else if PrimFloat.ltb b a then b
  else if float_is_neg_zero a then a else b.

#[export] Instance float_number : JsNumber float := {
  of_Z := float_of_Z;
  add := PrimFloat.add;
  sub := PrimFloat.sub;
  mul := PrimFloat.mul;
  div := PrimFloat.div;
  Math_sqrt := PrimFloat.sqrt;
  Math_max := float_max;
  Math_min := float_min;
  ltb := PrimFloat.ltb;
  leb := PrimFloat.leb
}.

(** *** Exact arithmetic *)

Definition Rltb (a b : R) : bool := if Rlt_dec a b then true else false.
Definition Rleb (a b : R) : bool := if Rle_dec a b then true else false.

#[export] Instance real_number : JsNumber R := {
  of_Z := IZR;
  add := Rplus;
  sub := Rminus;
  mul := Rmult;
  div := Rdiv;
  Math_sqrt := R_sqrt.sqrt;
  Math_max := Rmax;
  Math_min := Rmin;
  ltb := Rltb;
  leb := Rleb
}.

(** ** [types.ts] *)

Record Point (num : Type) : Type := mkPoint { x : num; y : num }.

Inductive Tool : Type := pen | eraser.

Record Stroke (num : Type) : Type := mkStroke {
  points : list (Point num);
  color : string;
  size : num;
  type : Tool
}.

Record DrawingSettings (num : Type) : Type := mkSettings {
  s_color : string;
  s_size : num;
  s_tool : Tool
}.

Record Particle (num : Type) : Type := mkParticle {
  p_x : num;
  p_y : num;
  vx : num;
  vy : num;
  p_color : string;
  p_size : num;
  life : num;
  maxLife : num
}.

Inductive HandGesture : Type :=
  | UNKNOWN
  | OPEN_PALM
  | PINCH
  | V_SIGN
  | CLOSED_FIST
  | TWO_FINGER_POINT.

(** ** [utils/geometry.ts] *)

Section Geometry.
Context {num : Type} `{JsNumber num}.
Local Open Scope js_scope.

Definition distance (p1 p2 : Point num) : num :=
  Math_sqrt (Math_pow2 (x p2 - x p1) + Math_pow2 (y p2 - y p1)).

Definition lerp (start end_ t : num) : num :=
  start * (of_Z 1 - t) + end_ * t.

(** Normalized coordinates to screen coordinates, mirrored in x. *)
Definition toScreen (nx ny width height : num) : Point num :=
  {| x := (of_Z 1 - nx) * width; y := ny * height |}.

Definition midPoint (p1 p2 : Point num) : Point num :=
  {| x := (x p1 + x p2) / of_Z 2; y := (y p1 + y p2) / of_Z 2 |}.

End Geometry.

(** ** [App]: state held in React state and refs *)

Record Transform (num : Type) : Type := mkTransform {
  scale : num;
  offsetX : num;
  offsetY : num
}.

(** A landmark set: the landmarks of one hand by index.  The detector
    returns 21 of them per hand; the program reads the wrist (0) and the
    thumb, index, middle, ring and pinky tips (4, 8, 12, 16, 20). *)
Definition Hand (num : Type) : Type := nat -> Point num.

Record AppState (num : Type) : Type := mkApp {
  isMenuOpen : bool;
  menuCursor : option (Point num);
  currentGesture : HandGesture;
  linesRef : list (Stroke num);
  currentLineRef : list (Point num);
  particlesRef : list (Particle num);
  settingsRef : DrawingSettings num;
  transformRef : Transform num;
  prevPinchDistanceRef : option num
}.

(** What one run of [detect] reads from outside: the detector's result,
    the video dimensions, and the successive results of [Math.random()]
    ([random k] is the [k]-th draw of the frame). *)
Record FrameInput (num : Type) : Type := mkFrame {
  landmarks : list (Hand num);
  width : num;
  height : num;
  random : nat -> num
}.

(** [Partial<DrawingSettings>] *)
Record PartialSettings (num : Type) : Type := mkPartial {
  u_color : option string;
  u_size : option num;
  u_tool : option Tool
}.

Section App.
Context {num : Type} `{JsNumber num}.
Local Open Scope js_scope.

Definition set_isMenuOpen (v : bool) (st : AppState num) : AppState num :=
  mkApp v (menuCursor st) (currentGesture st) (linesRef st)
    (currentLineRef st) (particlesRef st) (settingsRef st) (transformRef st)
    (prevPinchDistanceRef st).

Definition set_menuCursor (v : option (Point num)) (st : AppState num) : AppState num :=
  mkApp (isMenuOpen st) v (currentGesture st) (linesRef st)
    (currentLineRef st) (particlesRef st) (settingsRef st) (transformRef st)
    (prevPinchDistanceRef st).

Definition set_currentGesture (v : HandGesture) (st : AppState num) : AppState num :=
  mkApp (isMenuOpen st) (menuCursor st) v (linesRef st)
    (currentLineRef st) (particlesRef st) (settingsRef st) (transformRef st)
    (prevPinchDistanceRef st).

Definition set_linesRef (v : list (Stroke num)) (st : AppState num) : AppState num :=
  mkApp (isMenuOpen st) (menuCursor st) (currentGesture st) v
    (currentLineRef st) (particlesRef st) (settingsRef st) (transformRef st)
    (prevPinchDistanceRef st).

Definition set_currentLineRef (v : list (Point num)) (st : AppState num) : AppState num :=
  mkApp (isMenuOpen st) (menuCursor st) (currentGesture st) (linesRef st)
    v (particlesRef st) (settingsRef st) (transformRef st)
    (prevPinchDistanceRef st).

Definition set_particlesRef (v : list (Particle num)) (st : AppState num) : AppState num :=
  mkApp (isMenuOpen st) (menuCursor st) (currentGesture st) (linesRef st)
    (currentLineRef st) v (settingsRef st) (transformRef st)
    (prevPinchDistanceRef st).

Definition set_settingsRef (v : DrawingSettings num) (st : AppState num) : AppState num :=
  mkApp (isMenuOpen st) (menuCursor st) (currentGesture st) (linesRef st)
    (currentLineRef st) (particlesRef st) v (transformRef st)
    (prevPinchDistanceRef st).

Definition set_scale (v : num) (st : AppState num) : AppState num :=
  mkApp (isMenuOpen st) (menuCursor st) (currentGesture st) (linesRef st)
    (currentLineRef st) (particlesRef st) (settingsRef st)
    (mkTransform v (offsetX (transformRef st)) (offsetY (transformRef st)))
    (prevPinchDistanceRef st).

Definition set_prevPinchDistanceRef (v : option num) (st : AppState num) : AppState num :=
  mkApp (isMenuOpen st) (menuCursor st) (currentGesture st) (linesRef st)
    (currentLineRef st) (particlesRef st) (settingsRef st) (transformRef st)
    v.

(** The values of [useState] and [useRef] at mount. *)
Definition initialState : AppState num :=
  {| isMenuOpen := false;
     menuCursor := None;
     currentGesture := UNKNOWN;
     linesRef := [];
     currentLineRef := [];
     particlesRef := [];
     settingsRef := mkSettings "#00FFFF" (of_Z 6) pen;
     transformRef := mkTransform (of_Z 1) (of_Z 0) (of_Z 0);
     prevPinchDistanceRef := None |}.

(** *** Conversions between screen space and world space *)

(** [worldPoint] of the drawing branch:
    [(p - offset) / scale], per coordinate. *)
Definition worldPoint (tr : Transform num) (p : Point num) : Point num :=
  {| x := (x p - offsetX tr) / scale tr;
     y := (y p - offsetY tr) / scale tr |}.

(** [screenX], [screenY] of [dissolveDrawing] and of the pinch indicator:
    [p * scale + offset], per coordinate. *)
Definition screenPoint (tr : Transform num) (p : Point num) : Point num :=
  {| x := x p * scale tr + offsetX tr;
     y := y p * scale tr + offsetY tr |}.

(** *** [dissolveDrawing] *)

(** [addParticlesFromPoints]: [points.forEach((p, i) => ...)] from index [i]
    on, [k] draws of [Math.random()] having been made; returns the particles
    pushed and the count of draws. *)
Fixpoint addParticlesFromPoints (tr : Transform num) (rnd : nat -> num)
    (i : nat) (pts : list (Point num)) (c : string) (sz : num) (k : nat)
    : list (Particle num) * nat :=
  match pts with
  | [] => ([], k)
  | p :: rest =>
      if Nat.eqb (Nat.modulo i 2) 0 then
        let q := {| p_x := x p * scale tr + offsetX tr;
                    p_y := y p * scale tr + offsetY tr;
                    vx := (rnd k - lit 5 10) * of_Z 2;
                    vy := rnd (S k) * of_Z 2 + of_Z 1;
                    p_color := c;
                    p_size := rnd (S (S k)) * sz + of_Z 1;
                    life := of_Z 1;
                    maxLife := of_Z 1 |} in
        let '(qs, k') := addParticlesFromPoints tr rnd (S i) rest c sz (3 + k) in
        (q :: qs, k')
      else addParticlesFromPoints tr rnd (S i) rest c sz k
  end.

(** [linesRef.current.forEach(line => addParticlesFromPoints(...))] *)
Fixpoint addParticlesFromLines (tr : Transform num) (rnd : nat -> num)
    (lines : list (Stroke num)) (k : nat) : list (Particle num) * nat :=
  match lines with
  | [] => ([], k)
  | line :: rest =>
      let '(qs, k1) :=
        addParticlesFromPoints tr rnd 0 (points line) (color line) (size line) k in
      let '(rs, k2) := addParticlesFromLines tr rnd rest k1 in
      (qs ++ rs, k2)
  end.

(** The array [newParticles] built by one call of [dissolveDrawing]. *)
Definition newParticles (rnd : nat -> num) (st : AppState num) : list (Particle num) :=
  let tr := transformRef st in
  let '(qs, k1) := addParticlesFromLines tr rnd (linesRef st) 0 in
  let '(rs, _) :=
    addParticlesFromPoints tr rnd 0 (currentLineRef st)
      (s_color (settingsRef st)) (s_size (settingsRef st)) k1 in
  qs ++ rs.

Definition dissolveDrawing (rnd : nat -> num) (st : AppState num) : AppState num :=
  match linesRef st, currentLineRef st with
  | [], [] => st
  | _, _ =>
      set_currentLineRef []
        (set_linesRef []
           (set_particlesRef (particlesRef st ++ newParticles rnd st) st))
  end.

(** *** [processHands] *)

(** The single-hand measurements. *)
Record HandMetrics : Type := mkMetrics {
  thumbTip : Point num;
  indexTip : Point num;
  pinchDist : num;
  middleExtended : bool;
  ringExtended : bool;
  pinkyExtended : bool;
  wristToIndex : num;
  indexToMiddle : num
}.

Definition handMetrics (hand : Hand num) (w h : num) : HandMetrics :=
  let thumbTip := toScreen (x (hand 4%nat)) (y (hand 4%nat)) w h in
  let indexTip := toScreen (x (hand 8%nat)) (y (hand 8%nat)) w h in
  let middleTip := toScreen (x (hand 12%nat)) (y (hand 12%nat)) w h in
  let ringTip := toScreen (x (hand 16%nat)) (y (hand 16%nat)) w h in
  let pinkyTip := toScreen (x (hand 20%nat)) (y (hand 20%nat)) w h in
  let wrist := toScreen (x (hand 0%nat)) (y (hand 0%nat)) w h in
  {| thumbTip := thumbTip;
     indexTip := indexTip;
     pinchDist := distance thumbTip indexTip;
     middleExtended := distance wrist middleTip >? distance wrist indexTip * lit 8 10;
     ringExtended := distance wrist ringTip >? distance wrist indexTip * lit 8 10;
     pinkyExtended := distance wrist pinkyTip >? distance wrist indexTip * lit 8 10;
     wristToIndex := distance wrist indexTip;
     indexToMiddle := distance indexTip middleTip |}.

(** Gesture classification of a single hand: the first matching rule wins. *)
Definition classify (m : HandMetrics) : HandGesture :=
  if (pinchDist m <? of_Z 40) && negb (middleExtended m) then PINCH
  else if middleExtended m && ringExtended m && pinkyExtended m
          && (wristToIndex m >? of_Z 100) then OPEN_PALM
  else if (indexToMiddle m >? of_Z 40) && negb (ringExtended m)
          && negb (pinkyExtended m) then V_SIGN
  else UNKNOWN.

(** The zoom branch, for two hands. *)
Definition zoomHands (st : AppState num) (h1 h2 : Hand num) (w h : num) : AppState num :=
  let hand1Index := toScreen (x (h1 8%nat)) (y (h1 8%nat)) w h in
  let hand2Index := toScreen (x (h2 8%nat)) (y (h2 8%nat)) w h in
  let dist := distance hand1Index hand2Index in
  let st1 :=
    match prevPinchDistanceRef st with
    | Some prev =>
        let delta := dist - prev in
        let zoomSpeed := lit 5 1000 in
        let newScale :=
          Math_max (lit 5 10)
            (Math_min (of_Z 3) (scale (transformRef st) + delta * zoomSpeed)) in
        set_scale newScale st
    | None => st
    end in
  set_prevPinchDistanceRef (Some dist) st1.

(** The drawing branch, taken when the menu is closed. *)
Definition drawOrFinish (g : HandGesture) (m : HandMetrics) (st : AppState num) : AppState num :=
  match g with
  | PINCH =>
      let wp := worldPoint (transformRef st) (midPoint (thumbTip m) (indexTip m)) in
      set_currentLineRef (currentLineRef st ++ [wp]) st
  | _ =>
      match currentLineRef st with
      | [] => st
      | _ :: _ =>
          set_currentLineRef []
            (set_linesRef
               (linesRef st ++
                  [ {| points := currentLineRef st;
                       color := s_color (settingsRef st);
                       size := s_size (settingsRef st);
                       type := s_tool (settingsRef st) |} ]) st)
      end
  end.

(** The single-hand branch.  [menuOpen] is the value of [isMenuOpen] that
    the running closure captured, that is, the state at the frame's start;
    [setIsMenuOpen] shows in the next frame. *)
Definition singleHand (menuOpen : bool) (rnd : nat -> num) (st : AppState num)
    (hand : Hand num) (w h : num) : AppState num * HandGesture :=
  let st := set_prevPinchDistanceRef None st in
  let m := handMetrics hand w h in
  let detectedGesture := classify m in
  let st := set_currentGesture detectedGesture st in
  let st :=
    match detectedGesture with
    | OPEN_PALM => if negb menuOpen then set_isMenuOpen true st else st
    | _ => st
    end in
  let st :=
    if menuOpen then set_menuCursor (Some (indexTip m)) st
    else drawOrFinish detectedGesture m st in
  let st :=
    match detectedGesture with
    | V_SIGN => dissolveDrawing rnd st
    | _ => st
    end in
  (st, detectedGesture).

(** [processHands], returning the new state with the local [detectedGesture]. *)
Definition processHands (st : AppState num) (f : FrameInput num)
    : AppState num * HandGesture :=
  let menuOpen := isMenuOpen st in
  let st := set_menuCursor None st in
  match landmarks f with
  | [] => (st, UNKNOWN)
  | [h1; h2] => (zoomHands st h1 h2 (width f) (height f), TWO_FINGER_POINT)
  | hand :: _ => singleHand menuOpen (random f) st hand (width f) (height f)
  end.

(** *** [renderCanvas]: the particle simulation *)

Definition tickParticle (p : Particle num) : Particle num :=
  {| p_x := p_x p + vx p;
     p_y := p_y p + vy p;
     vx := vx p;
     vy := vy p + lit 5 100;
     p_color := p_color p;
     p_size := p_size p;
     life := life p - lit 1 100;
     maxLife := maxLife p |}.

(** One pass over the particles: move each, then drop the dead ones. *)
Definition tickParticles (ps : list (Particle num)) : list (Particle num) :=
  filter (fun p => life p >? of_Z 0) (map tickParticle ps).

Definition renderCanvas (st : AppState num) : AppState num :=
  match particlesRef st with
  | [] => st
  | _ :: _ => set_particlesRef (tickParticles (particlesRef st)) st
  end.

(** The pinch indicator that [renderCanvas] draws on the UI canvas, if any.
    [closureGesture] is the [currentGesture] that the running closure of
    [renderCanvas] holds: the React state at the render that created the
    loop, which is not the gesture of the frame being processed.  Under
    [if (currentGesture === HandGesture.PINCH)] the indicator is drawn over
    the last point of the line in progress, taken back to the screen;
    otherwise, and without such a point, nothing is drawn. *)
Definition pinchIndicator (closureGesture : HandGesture) (st : AppState num)
    : option (Point num) :=
  match closureGesture with
  | PINCH =>
      match rev (currentLineRef st) with
      | lastPt :: _ => Some (screenPoint (transformRef st) lastPt)
      | [] => None
      end
  | _ => None
  end.

(** *** The frame loop and the menu's callbacks *)

(** One run of [detect]: the logic, then the rendering. *)
Definition detect (st : AppState num) (f : FrameInput num) : AppState num :=
  renderCanvas (fst (processHands st f)).

Definition handleMenuSelect (updates : PartialSettings num) (st : AppState num)
    : AppState num :=
  let s := settingsRef st in
  set_settingsRef
    {| s_color := match u_color updates with Some c => c | None => s_color s end;
       s_size := match u_size updates with Some v => v | None => s_size s end;
       s_tool := match u_tool updates with Some t => t | None => s_tool s end |}
    st.

(** [onClose] as passed to the menu. *)
Definition onClose (st : AppState num) : AppState num := set_isMenuOpen false st.

Inductive Event : Type :=
  | Frame (f : FrameInput num)
  | MenuSelect (updates : PartialSettings num)
  | MenuClose.

Definition step (st : AppState num) (ev : Event) : AppState num :=
  match ev with
  | Frame f => detect st f
  | MenuSelect u => handleMenuSelect u st
  | MenuClose => onClose st
  end.

Definition run (st : AppState num) (evs : list Event) : AppState num :=
  fold_left step evs st.

End App.

(** ** [SciFiMenu]: hit testing and the dwell timer *)

(** The result of [getBoundingClientRect]. *)
Record DOMRect (num : Type) : Type := mkRect {
  rect_left : num;
  rect_right : num;
  rect_top : num;
  rect_bottom : num
}.

(** An element carrying [data-menu-item], with its [data-type] and
    [data-value] attributes and its current bounds. *)
Record MenuItem (num : Type) : Type := mkItem {
  rect : DOMRect num;
  data_type : string;
  data_value : string
}.

(** The argument of one call of [onSelect]. *)
Inductive Selection : Type :=
  | SelectColor (value : string)   (* [{ color: value, tool: 'pen' }] *)
  | SelectSize (value : string)    (* [{ size: Number(value) }] *)
  | SelectTool (value : string).   (* [{ tool: value }] *)

(** A pending timeout: its handle, the time it is due (ms) and the element
    its callback closes over. *)
Record Timer (num : Type) : Type := mkTimer {
  handle : nat;
  due : Z;
  target : MenuItem num
}.

(** The refs of the component, the timeouts it has pending, the clock, and
    the calls of [onSelect] made so far, each with the time it was made.
    The pending timeouts are of two kinds: [timers] holds the dwell
    timeouts, set by the effect for 800 ms, and [pulseTimers] the pulse
    timeouts, set by a dwell callback for 200 ms to take the highlight off
    its element again. *)
Record MenuState (num : Type) : Type := mkMenu {
  hoveredElementRef : option string;
  hoverTimerRef : option nat;
  timers : list (Timer num);
  pulseTimers : list (Timer num);
  nextHandle : nat;
  now : Z;
  selected : list (Z * Selection)
}.

Section SciFiMenu.
Context {num : Type} `{JsNumber num}.
Local Open Scope js_scope.

Definition initialMenu : MenuState num :=
  {| hoveredElementRef := None;
     hoverTimerRef := None;
     timers := [];
     pulseTimers := [];
     nextHandle := 1;
     now := 0;
     selected := [] |}.

(** The dwell duration passed to [setTimeout]. *)
Definition dwell : Z := 800.

(** The duration of the pulse, passed to the [setTimeout] of the dwell
    callback. *)
Definition pulse : Z := 200.

Definition inside (c : Point num) (r : DOMRect num) : bool :=
  (x c >=? rect_left r) && (x c <=? rect_right r)
  && (y c >=? rect_top r) && (y c <=? rect_bottom r).

(** [`${type}-${value}`] *)
Definition itemId (el : MenuItem num) : string :=
  (data_type el ++ "-" ++ data_value el)%string.

Definition same_id (h : option string) (id : string) : bool :=
  match h with
  | Some s => String.eqb s id
  | None => false
  end.

(** [if (hoverTimerRef.current) clearTimeout(hoverTimerRef.current)]: the
    ref keeps the handle, the timeout with that handle is dropped if it is
    still pending. *)
Definition clearHoverTimer (ms : MenuState num) : MenuState num :=
  match hoverTimerRef ms with
  | Some h =>
      mkMenu (hoveredElementRef ms) (hoverTimerRef ms)
        (filter (fun t => negb (Nat.eqb (handle t) h)) (timers ms))
        (filter (fun t => negb (Nat.eqb (handle t) h)) (pulseTimers ms))
        (nextHandle ms) (now ms) (selected ms)
  | None => ms
  end.

(** [hoverTimerRef.current = setTimeout(callback, 800)] for element [el]. *)
Definition startHoverTimer (el : MenuItem num) (ms : MenuState num) : MenuState num :=
  mkMenu (hoveredElementRef ms) (Some (nextHandle ms))
    (timers ms ++ [mkTimer (nextHandle ms) (now ms + dwell) el])
    (pulseTimers ms)
    (S (nextHandle ms)) (now ms) (selected ms).

Definition set_hovered (v : option string) (ms : MenuState num) : MenuState num :=
  mkMenu v (hoverTimerRef ms) (timers ms) (pulseTimers ms) (nextHandle ms)
    (now ms) (selected ms).

(** The body of [elements.forEach], carrying [foundHover]. *)
Definition visit (c : Point num) (acc : MenuState num * bool) (el : MenuItem num)
    : MenuState num * bool :=
  let '(ms, foundHover) := acc in
  if inside c (rect el) then
    if same_id (hoveredElementRef ms) (itemId el) then (ms, true)
    else (startHoverTimer el (clearHoverTimer (set_hovered (Some (itemId el)) ms)), true)
  else (ms, foundHover).

(** The hit-testing effect, run after a render with these props over the
    item elements of the document.  [menuRef.current] is set exactly when
    the menu is rendered, that is, when [isOpen] holds. *)
Definition hitTest (isOpen : bool) (cursorPos : option (Point num))
    (elements : list (MenuItem num)) (ms : MenuState num) : MenuState num :=
  if negb isOpen then ms
  else match cursorPos with
       | None => ms
       | Some c =>
           let '(ms', foundHover) := fold_left (visit c) elements (ms, false) in
           if foundHover then ms'
           else clearHoverTimer (set_hovered None ms')
       end.

(** The calls of [onSelect] that the dwell callback makes: one test per
    attribute type. *)
Definition callback (el : MenuItem num) : list Selection :=
  (if String.eqb (data_type el) "color" then [SelectColor (data_value el)] else [])
  ++ (if String.eqb (data_type el) "size" then [SelectSize (data_value el)] else [])
  ++ (if String.eqb (data_type el) "tool" then [SelectTool (data_value el)] else []).

(** The pulse timeouts that the dwell callbacks of [ready] set, each at the
    time its dwell timeout is due and with the next free handle:
    [setTimeout(() => el.classList.remove('bg-white'), 200)]. *)
Fixpoint startPulses (h : nat) (ready : list (Timer num)) : list (Timer num) :=
  match ready with
  | [] => []
  | t :: rest => mkTimer h (due t + pulse) (target t) :: startPulses (S h) rest
  end.

(** Time passes: the clock advances by [dt] ms and every timeout due by
    then runs its callback, at the time it is due.  A dwell callback makes
    its calls of [onSelect] and sets a pulse timeout; the callback of a
    pulse timeout only takes a class off its element, which leaves the
    refs and the selections as they are. *)
Definition elapse (dt : Z) (ms : MenuState num) : MenuState num :=
  let t' := (now ms + dt)%Z in
  let ready := filter (fun t => (due t <=? t')%Z) (timers ms) in
  let rest := filter (fun t => negb (due t <=? t')%Z) (timers ms) in
  let pulses := pulseTimers ms ++ startPulses (nextHandle ms) ready in
  mkMenu (hoveredElementRef ms) (hoverTimerRef ms) rest
    (filter (fun t => negb (due t <=? t')%Z) pulses)
    (nextHandle ms + length ready) t'
    (selected ms ++ flat_map (fun t => map (pair (due t)) (callback (target t))) ready).

Inductive MenuEvent : Type :=
  | Render (isOpen : bool) (cursorPos : option (Point num))
           (elements : list (MenuItem num))
  | Elapse (dt : Z).

Definition menuStep (ms : MenuState num) (ev : MenuEvent) : MenuState num :=
  match ev with
  | Render isOpen cursorPos elements => hitTest isOpen cursorPos elements ms
  | Elapse dt => elapse dt ms
  end.

Definition menuRun (ms : MenuState num) (evs : list MenuEvent) : MenuState num :=
  fold_left menuStep evs ms.

End SciFiMenu.

(** ** Notions used in the statements *)

(** [Math.max(lo, Math.min(hi, v))] *)
Definition clamp {num} `{JsNumber num} (v lo hi : num) : num :=
  Math_max lo (Math_min hi v).

(** The index fingertip of a hand on the screen. *)
Definition indexOnScreen {num} `{JsNumber num} (hand : Hand num) (f : FrameInput num)
    : Point num :=
  toScreen (x (hand 8%nat)) (y (hand 8%nat)) (width f) (height f).

(** The distance on the screen from the wrist to landmark [i] of a hand. *)
Definition fromWrist {num} `{JsNumber num} (hand : Hand num) (i : nat) (w h : num) : num :=
  distance (toScreen (x (hand 0%nat)) (y (hand 0%nat)) w h)
           (toScreen (x (hand i)) (y (hand i)) w h).

(** The points of a list at the even indices, counted from [i]. *)
Fixpoint everySecond {A : Type} (i : nat) (pts : list A) : list A :=
  match pts with
  | [] => []
  | p :: rest =>
      if Nat.eqb (Nat.modulo i 2) 0 then p :: everySecond (S i) rest
      else everySecond (S i) rest
  end.

(** The pinch point of a hand on the screen: the midpoint of the thumb and
    index tips. *)
Definition pinchPoint {num} `{JsNumber num} (hand : Hand num) (f : FrameInput num)
    : Point num :=
  let m := handMetrics hand (width f) (height f) in
  midPoint (thumbTip m) (indexTip m).

(** The screen position of a particle. *)
Definition position {num} (q : Particle num) : Point num := mkPoint (p_x q) (p_y q).

(** A particle after [k] ticks, should it live that long. *)
Definition aged {num} `{JsNumber num} (k : nat) (p : Particle num) : Particle num :=
  Nat.iter k tickParticle p.

(** The test of the filter, [p.life > 0]. *)
Definition alive {num} `{JsNumber num} (p : Particle num) : bool :=
  (life p >? of_Z 0)%js.

(** The life of a particle [k] ticks after it was launched, on doubles. *)
Definition lifeAfter (k : nat) : float :=
  Nat.iter k (fun l => l - lit 1 100)%js (of_Z 1).

(** The scale stays within [[0.5, 3]]. *)
Definition scale_in_range (st : AppState R) : Prop :=
  (1 / 2 <= scale (transformRef st) <= 3)%R.

(** On doubles: the scale is within [[0.5, 3]], or it is NaN. *)
Definition float_scale_ok (st : AppState float) : Prop :=
  float_is_nan (scale (transformRef st)) = true \/
  PrimFloat.leb (lit 5 10) (scale (transformRef st))
  && PrimFloat.leb (scale (transformRef st)) (of_Z 3) = true.

(** A double that is neither NaN nor an infinity. *)
Definition SF_is_finite (a : spec_float) : bool :=
  match a with
  | S754_zero _ | S754_finite _ _ _ => true
  | _ => false
  end.

Definition float_is_finite (a : float) : bool := SF_is_finite (Prim2SF a).

(** The scale is within [[0.5, 3]], on doubles. *)
Definition float_scale_in_range (st : AppState float) : Prop :=
  PrimFloat.leb (lit 5 10) (scale (transformRef st))
  && PrimFloat.leb (scale (transformRef st)) (of_Z 3) = true.

(** The events after which the stored inter-hand distance is a finite
    number: a two-hand frame qualifies if the distance between its index
    fingertips on the screen is finite, every other event as it is. *)
Definition finiteZoom (ev : Event (num := float)) : Prop :=
  match ev with
  | Frame f =>
      match landmarks f with
      | [h1; h2] =>
          float_is_finite (distance (indexOnScreen h1 f) (indexOnScreen h2 f)) = true
      | _ => True
      end
  | _ => True
  end.

(** The elements under the cursor. *)
Definition hits {num} `{JsNumber num} (c : Point num) (elements : list (MenuItem num))
    : list (MenuItem num) :=
  filter (fun el => inside c (rect el)) elements.

(** Every pending dwell timeout is the one [hoverTimerRef] holds. *)
Definition tidy {num} (ms : MenuState num) : Prop :=
  forall t, In t (timers ms) -> hoverTimerRef ms = Some (handle t).

(** Events during which the hover on the region with identifier [id] goes
    on as far as the effect can tell: time passing, a render with the
    cursor on elements of that identifier only, and the renders at which
    the effect returns at once (menu closed, or no cursor). *)
Definition stays {num} `{JsNumber num} (id : string) (ev : MenuEvent (num := num)) : Prop :=
  match ev with
  | Elapse dt => (0 <= dt)%Z
  | Render isOpen cursorPos elements =>
      isOpen = false \/ cursorPos = None \/
      exists c, cursorPos = Some c /\ hits c elements <> [] /\
                Forall (fun el => itemId el = id) (hits c elements)
  end.

Section Notions.
Context {num : Type} `{JsNumber num}.
Local Open Scope js_scope.

(** The stroke that finishing the line pushes. *)
Definition finishedStroke (st : AppState num) : Stroke num :=
  {| points := currentLineRef st;
     color := s_color (settingsRef st);
     size := s_size (settingsRef st);
     type := s_tool (settingsRef st) |}.

(** The strokes on the canvas once a line in progress has been finished. *)
Definition linesAfterFinish (st : AppState num) : list (Stroke num) :=
  match currentLineRef st with
  | [] => linesRef st
  | _ :: _ => linesRef st ++ [finishedStroke st]
  end.

(** A particle as [dissolveDrawing] launches it from draws [k], [k+1] and
    [k+2] of [Math.random()]. *)
Definition launched (rnd : nat -> num) (q : Particle num) : Prop :=
  life q = of_Z 1 /\ maxLife q = of_Z 1 /\
  exists k, vx q = (rnd k - lit 5 10) * of_Z 2 /\
            vy q = rnd (S k) * of_Z 2 + of_Z 1.

(** The state of a hover on [el] that began at time [t0] with [sel0]
    selected so far: before the dwell time has passed its dwell timeout is
    the one pending, afterwards none is pending and the callback has run
    once, at [t0 + dwell]. *)
Definition dwelling (el : MenuItem num) (t0 : Z) (sel0 : list (Z * Selection))
    (ms : MenuState num) : Prop :=
  hoveredElementRef ms = Some (itemId el) /\ (t0 <= now ms)%Z /\
  ((now ms < t0 + dwell)%Z /\
   (exists h, timers ms = [mkTimer h (t0 + dwell)%Z el]) /\
   selected ms = sel0 \/
   (t0 + dwell <= now ms)%Z /\ timers ms = [] /\
   selected ms = sel0 ++ map (pair (t0 + dwell)%Z) (callback el)).

End Notions.

(** ** Sample inputs *)

Module Samples.
Section Samples.
Context {num : Type} `{JsNumber num}.

(** A hand given by the six landmarks the program reads. *)
Definition hand_of (wrist thumb index middle ring pinky : Point num) : Hand num :=
  fun i =>
    match i with
    | 4 => thumb
    | 8 => index
    | 12 => middle
    | 16 => ring
    | 20 => pinky
    | _ => wrist
    end%nat.

(** Normalized point [(1 - sx/1024, sy/1024)], shown at [(sx, sy)] on a
    1024 x 1024 frame. *)
Definition at_px (sx sy : Z) : Point num :=
  mkPoint (lit (1024 - sx) 1024) (lit sy 1024).

Definition frame_of (hands : list (Hand num)) : FrameInput num :=
  mkFrame hands (of_Z 1024) (of_Z 1024) (fun _ => lit 1 2).

(** Thumb and index tips 32 px apart around [(sx, sy)], middle finger
    folded; the index and middle tips are 128 px apart and ring and pinky
    are folded, so the conditions of the V sign hold as well. *)
Definition pinchHand (sx sy : Z) : Hand num :=
  hand_of (at_px sx (sy + 392)) (at_px sx (sy + 16)) (at_px sx (sy - 16))
    (at_px sx (sy + 112)) (at_px sx (sy + 240)) (at_px sx (sy + 240)).

(** All of middle, ring and pinky stretched, the thumb far from the index. *)
Definition palmHand : Hand num :=
  hand_of (at_px 512 896) (at_px 256 640) (at_px 512 512)
    (at_px 512 448) (at_px 512 480) (at_px 512 544).

(** Index and middle stretched and apart, ring and pinky folded. *)
Definition vSignHand : Hand num :=
  hand_of (at_px 512 896) (at_px 512 768) (at_px 512 512)
    (at_px 800 512) (at_px 512 768) (at_px 512 768).

(** A fist: no rule applies. *)
Definition fistHand : Hand num :=
  hand_of (at_px 512 896) (at_px 384 832) (at_px 512 768)
    (at_px 512 800) (at_px 512 832) (at_px 512 832).

(** A hand of which only the index tip matters, for two-hand frames. *)
Definition pointingHand (sx sy : Z) : Hand num :=
  hand_of (at_px sx sy) (at_px sx sy) (at_px sx sy)
    (at_px sx sy) (at_px sx sy) (at_px sx sy).

Definition twoHands (d : Z) : FrameInput num :=
  frame_of [pointingHand 256 512; pointingHand (256 + d) 512].

Definition noHands : FrameInput num := frame_of [].

End Samples.

Local Open Scope string_scope.

(** Two items of the menu, side by side. *)
Definition colorItem : MenuItem float :=
  mkItem (mkRect (of_Z 100) (of_Z 200) (of_Z 100) (of_Z 200)) "color" "#FF0055".

Definition eraserItem : MenuItem float :=
  mkItem (mkRect (of_Z 300) (of_Z 400) (of_Z 100) (of_Z 200)) "tool" "eraser".

Definition items : list (MenuItem float) := [colorItem; eraserItem].

Definition onColor : Point float := mkPoint (of_Z 150) (of_Z 150).
Definition onEraser : Point float := mkPoint (of_Z 350) (of_Z 150).
Definition offItems : Point float := mkPoint (of_Z 50) (of_Z 50).


(** A point drawn, the line finished by a fist, a second point drawn. *)
Definition twoShortLines : AppState float :=
  run initialState
    [Frame (frame_of [pinchHand 300 300]); Frame (frame_of [fistHand]);
     Frame (frame_of [pinchHand 400 400])].

(** Two hands moved apart from 100 px to 110 px: the scale is 1.05. *)
Definition zoomed : AppState float :=
  run initialState [Frame (twoHands 100); Frame (twoHands 110)].


(** A particle as a dissolve launches it. *)
Definition freshParticle : Particle float :=
  mkParticle (of_Z 300) (of_Z 300) (of_Z 0) (of_Z 2) "#00FFFF"
    (of_Z 4) (of_Z 1) (of_Z 1).

End Samples.

(** ** More notions *)

(** The hand that the single-hand branch of [processHands] reads, if the
    frame takes that branch: the first hand, unless the frame has no hand or
    exactly two. *)
Definition theHand {num} (f : FrameInput num) : option (Hand num) :=
  match landmarks f with
  | [] => None
  | [_; _] => None
  | hand :: _ => Some hand
  end.

(** The gesture that a frame shows, a function of the frame alone. *)
Definition gestureOf {num} `{JsNumber num} (f : FrameInput num) : HandGesture :=
  match landmarks f with
  | [] => UNKNOWN
  | [_; _] => TWO_FINGER_POINT
  | hand :: _ => classify (handMetrics hand (width f) (height f))
  end.

(** The events that do not dissolve the drawing: all but the frames that
    show a V sign. *)
Definition keepsDrawing {num} `{JsNumber num} (ev : Event (num := num)) : Prop :=
  match ev with
  | Frame f => gestureOf f <> V_SIGN
  | _ => True
  end.

(** The three tests of [classify], each on its own. *)
Definition pinchRule {num} `{JsNumber num} (m : HandMetrics) : bool :=
  (pinchDist m <? of_Z 40)%js && negb (middleExtended m).

Definition palmRule {num} `{JsNumber num} (m : HandMetrics) : bool :=
  middleExtended m && ringExtended m && pinkyExtended m
  && (wristToIndex m >? of_Z 100)%js.

Definition vSignRule {num} `{JsNumber num} (m : HandMetrics) : bool :=
  (indexToMiddle m >? of_Z 40)%js && negb (ringExtended m)
  && negb (pinkyExtended m).

(** A hand moved by [(dx, dy)] in normalized coordinates, and a hand
    mirrored left to right. *)
Definition shifted (dx dy : R) (hand : Hand R) : Hand R :=
  fun i => mkPoint (x (hand i) + dx)%R (y (hand i) + dy)%R.

Definition mirrored (hand : Hand R) : Hand R :=
  fun i => mkPoint (1 - x (hand i))%R (y (hand i)).

(** [{ ...u1, ...u2 }]: the fields of [u2] over those of [u1]. *)
Definition mergeUpdates {num} (u1 u2 : PartialSettings num) : PartialSettings num :=
  {| u_color := match u_color u2 with Some c => Some c | None => u_color u1 end;
     u_size := match u_size u2 with Some v => Some v | None => u_size u1 end;
     u_tool := match u_tool u2 with Some t => Some t | None => u_tool u1 end |}.

(** The settings after an update. *)
Definition updated {num} (u : PartialSettings num) (s : DrawingSettings num)
    : DrawingSettings num :=
  {| s_color := match u_color u with Some c => c | None => s_color s end;
     s_size := match u_size u with Some v => v | None => s_size s end;
     s_tool := match u_tool u with Some t => t | None => s_tool s end |}.

(** A particle of a running program on doubles that was launched at least
    [j] ticks ago and is still in the live set: its life is one of the
    values [lifeAfter k], [j <= k <= 99]. *)
Definition agedFrom (j : nat) (q : Particle float) : Prop :=
  exists k, (j <= k <= 99)%nat /\ life q = lifeAfter k.

(** ** [renderCanvas]: the calls made on the drawing context *)

(** The two values of [globalCompositeOperation] that the program uses. *)
Inductive Composite : Type := source_over | destination_out.

(** A method call or a property assignment on the 2D context of the
    drawing canvas, in the order made. *)
Inductive CanvasCall (num : Type) : Type :=
  | ClearRect (x0 y0 w h : num)
  | SetFillStyle (c : string)
  | SetGlobalAlpha (a : num)
  | BeginPath
  | Arc (cx cy r : num)            (* [arc(cx, cy, r, 0, Math.PI * 2)] *)
  | FillPath                       (* [fill()] *)
  | SaveState                      (* [save()] *)
  | Translate (dx dy : num)
  | ScaleBy (sx sy : num)          (* [scale(sx, sy)] *)
  | SetLineCap (v : string)
  | SetLineJoin (v : string)
  | SetLineWidth (w : num)
  | SetStrokeStyle (c : string)
  | SetGlobalCompositeOperation (op : Composite)
  | MoveTo (px py : num)
  | QuadraticCurveTo (cpx cpy px py : num)
  | StrokePath                     (* [stroke()] *)
  | RestoreState.                  (* [restore()] *)

Arguments BeginPath {num}.
Arguments FillPath {num}.
Arguments SaveState {num}.
Arguments SetFillStyle {num} c.
Arguments SetLineCap {num} v.
Arguments SetLineJoin {num} v.
Arguments SetStrokeStyle {num} c.
Arguments SetGlobalCompositeOperation {num} op.
Arguments StrokePath {num}.
Arguments RestoreState {num}.

Section Canvas.
Context {num : Type} `{JsNumber num}.
Local Open Scope js_scope.

(** The loop of [drawStroke] from index [i] on: [p1] is [points[i-1]] and
    [rest] holds [points[i]] and what follows. *)
Fixpoint curves (p1 : Point num) (rest : list (Point num)) : list (CanvasCall num) :=
  match rest with
  | [] => []
  | p2 :: rest' =>
      let mid := midPoint p1 p2 in
      QuadraticCurveTo (x p1) (y p1) (x mid) (y mid) :: curves p2 rest'
  end.

Definition drawStroke (pts : list (Point num)) (c : string) (sz : num) (t : Tool)
    : list (CanvasCall num) :=
  match pts with
  | p0 :: (_ :: _) as rest =>
      [BeginPath; SetLineCap "round"; SetLineJoin "round"; SetLineWidth sz;
       SetStrokeStyle (match t with eraser => "rgba(0,0,0,0.8)" | pen => c end)]
      ++ match t with
         | eraser => [SetGlobalCompositeOperation destination_out]
         | pen => []
         end
      ++ MoveTo (x p0) (y p0) :: curves p0 rest
      ++ [StrokePath; SetGlobalCompositeOperation source_over]
  | _ => []
  end.

(** The drawing of one particle, after it has been moved. *)
Definition drawParticle (p : Particle num) : list (CanvasCall num) :=
  [SetFillStyle (p_color p); SetGlobalAlpha (life p); BeginPath;
   Arc (p_x p) (p_y p) (p_size p); FillPath; SetGlobalAlpha (of_Z 1)].

(** The strokes, then the line in progress with the current settings. *)
Definition drawLines (st : AppState num) : list (CanvasCall num) :=
  flat_map (fun line => drawStroke (points line) (color line) (size line) (type line))
    (linesRef st)
  ++ match currentLineRef st with
     | [] => []
     | _ :: _ =>
         drawStroke (currentLineRef st) (s_color (settingsRef st))
           (s_size (settingsRef st)) (s_tool (settingsRef st))
     end.

(** The calls of one run of [renderCanvas] on the drawing context, from
    the state that [processHands] has left. *)
Definition canvasCalls (st : AppState num) (w h : num) : list (CanvasCall num) :=
  [ClearRect (of_Z 0) (of_Z 0) w h]
  ++ flat_map drawParticle (map tickParticle (particlesRef st))
  ++ [SaveState;
      Translate (offsetX (transformRef st)) (offsetY (transformRef st));
      ScaleBy (scale (transformRef st)) (scale (transformRef st))]
  ++ drawLines st
  ++ [RestoreState].

End Canvas.

(** The compositing mode in force at each [stroke()] of a sequence of
    calls, and the mode in force after it, from mode [m] with the modes
    [saved] on the stack of [save()]: an assignment sets the mode,
    [save()] pushes it and [restore()] pops it. *)
Fixpoint composite {num} (cs : list (CanvasCall num)) (m : Composite)
    (saved : list Composite) : list Composite * Composite :=
  match cs with
  | [] => ([], m)
  | SetGlobalCompositeOperation m' :: cs' => composite cs' m' saved
  | StrokePath :: cs' =>
      let '(ms, m') := composite cs' m saved in (m :: ms, m')
  | SaveState :: cs' => composite cs' m (m :: saved)
  | RestoreState :: cs' =>
      match saved with
      | m' :: saved' => composite cs' m' saved'
      | [] => composite cs' m []
      end
  | _ :: cs' => composite cs' m saved
  end.

(** Where the current path ends after a sequence of calls. *)
Fixpoint penAfter {num} (cs : list (CanvasCall num)) (at_ : option (Point num))
    : option (Point num) :=
  match cs with
  | [] => at_
  | MoveTo px py :: cs' => penAfter cs' (Some (mkPoint px py))
  | QuadraticCurveTo _ _ px py :: cs' => penAfter cs' (Some (mkPoint px py))
  | _ :: cs' => penAfter cs' at_
  end.

Definition isCurve {num} (c : CanvasCall num) : bool :=
  match c with QuadraticCurveTo _ _ _ _ => true | _ => false end.

(** The compositing mode that a stroke is to be drawn with. *)
Definition modeOf {num} (s : Stroke num) : Composite :=
  match type s with eraser => destination_out | pen => source_over end.

(** The strokes with at least two points. *)
Definition drawable {num} (s : Stroke num) : bool :=
  (2 <=? length (points s))%nat.

(** ** From the menu's selections to the settings *)

Section MenuToApp.
Context {num : Type} `{JsNumber num}.

(** [Number(value)], the conversion of an attribute string to a number. *)
Variable Number : string -> num.

(** The values of [DrawingSettings.tool] among the attribute strings. *)
Definition toolOf (v : string) : option Tool :=
  if String.eqb v "pen" then Some pen
  else if String.eqb v "eraser" then Some eraser
  else None.

(** The object literal passed to [onSelect] for a selection; a tool
    selection whose value is no tool has none in [DrawingSettings]. *)
Definition updatesOf (s : Selection) : option (PartialSettings num) :=
  match s with
  | SelectColor v => Some (mkPartial (Some v) None (Some pen))
  | SelectSize v => Some (mkPartial None (Some (Number v)) None)
  | SelectTool v => option_map (fun t => mkPartial None None (Some t)) (toolOf v)
  end.

(** [onSelect={handleMenuSelect}]: the selections of the menu, in the
    order made, applied to the state of the App. *)
Definition onSelect (st : AppState num) (s : Selection) : AppState num :=
  match updatesOf s with
  | Some u => handleMenuSelect u st
  | None => st
  end.

Definition applySelections (sels : list (Z * Selection)) (st : AppState num)
    : AppState num :=
  fold_left onSelect (map snd sels) st.

End MenuToApp.

(** An element was under the cursor at some render of [evs] with the menu
    open. *)
Definition hoveredIn {num} `{JsNumber num} (evs : list (MenuEvent (num := num)))
    (el : MenuItem num) : Prop :=
  exists c els, In (Render true (Some c) els) evs /\ In el els /\
                inside c (rect el) = true.

(** The clock does not run backwards. *)
Definition forward {num} `{JsNumber num} (ev : MenuEvent (num := num)) : Prop :=
  match ev with
  | Elapse dt => (0 <= dt)%Z
  | Render _ _ _ => True
  end.

(** At most one dwell timeout is pending, and it is the one of the hovered
    element, held by [hoverTimerRef]. *)
Definition single {num} `{JsNumber num} (ms : MenuState num) : Prop :=
  timers ms = [] \/
  exists t, timers ms = [t] /\ hoverTimerRef ms = Some (handle t) /\
            hoveredElementRef ms = Some (itemId (target t)).

(** Every pending dwell timeout and every selection made goes back to an
    element with property [P]. *)
Definition sourced {num} `{JsNumber num} (P : MenuItem num -> Prop)
    (ms : MenuState num) : Prop :=
  (forall t, In t (timers ms) -> P (target t)) /\
  (forall ts s, In (ts, s) (selected ms) -> exists el, P el /\ In s (callback el)).

(** No dwell timeout is due, and no selection was made, before the dwell time
    has passed once; no selection lies in the future. *)
Definition timely {num} `{JsNumber num} (ms : MenuState num) : Prop :=
  (0 <= now ms)%Z /\
  (forall t, In t (timers ms) -> (dwell <= due t)%Z) /\
  (forall ts s, In (ts, s) (selected ms) -> (dwell <= ts <= now ms)%Z).

(** Every timeout that is pending: the dwell timeouts and the pulse
    timeouts. *)
Definition pending {num} (ms : MenuState num) : list (Timer num) :=
  timers ms ++ pulseTimers ms.

(** With a clock that does not run backwards: each pending dwell timeout is
    due within 800 ms, each pending pulse timeout within 200 ms and at
    least 600 ms before any pending dwell timeout, and at most one pulse
    timeout is pending. *)
Definition paced {num} `{JsNumber num} (ms : MenuState num) : Prop :=
  (forall t, In t (timers ms) -> (now ms < due t <= now ms + dwell)%Z) /\
  (forall p, In p (pulseTimers ms) -> (now ms < due p <= now ms + pulse)%Z) /\
  (forall t p, In t (timers ms) -> In p (pulseTimers ms) ->
     (due p + (dwell - pulse) <= due t)%Z) /\
  (length (pulseTimers ms) <= 1)%nat.

(** ** More sample inputs *)

Module MoreSamples.
Import Samples.
Local Open Scope string_scope.

(** The initial state with an inter-hand distance of 100 px stored. *)
Definition zooming : AppState R :=
  set_prevPinchDistanceRef (Some 100%R) initialState.

(** A point drawn, then an open palm: the line is finished and the menu
    is open. *)
Definition menuOpened : AppState float :=
  run initialState
    [Frame (frame_of [pinchHand 300 300]); Frame (frame_of [palmHand])].

(** A line in progress of one point. *)
Definition drawingLine : AppState float :=
  detect initialState (frame_of [pinchHand 300 300]).

(** A point drawn and dissolved: one particle is in flight. *)
Definition dissolved : list (Event (num := float)) :=
  [Frame (frame_of [pinchHand 300 300]); Frame (frame_of [vSignHand])].

Definition inFlight : Particle float :=
  hd freshParticle (particlesRef (run initialState dissolved)).

(** The stroke that a pinch at (300, 300) and then a fist leave. *)
Definition dot : Stroke float :=
  mkStroke [mkPoint (of_Z 300) (of_Z 300)] "#00FFFF" (of_Z 6) pen.

(** The cursor enters the colour item and stays for 800 ms. *)
Definition hoverColor : list (MenuEvent (num := float)) :=
  [Render true (Some onColor) items; Elapse 800].

(** An item that overlaps the colour item, and a cursor inside both. *)
Definition wideItem : MenuItem float :=
  mkItem (mkRect (of_Z 150) (of_Z 250) (of_Z 100) (of_Z 200)) "size" "12".

Definition onBoth : Point float := mkPoint (of_Z 175) (of_Z 150).

(** The initial state with the eraser selected. *)
Definition erasing : AppState float :=
  handleMenuSelect (mkPartial None None (Some eraser)) initialState.

(** A hand whose landmarks are all NaN. *)
Definition nanHand : Hand float :=
  fun _ => mkPoint PrimFloat.nan PrimFloat.nan.

(** Two hands 100 px apart, then two hands of which one is NaN. *)
Definition nanZoom : list (Event (num := float)) :=
  [Frame (twoHands 100); Frame (frame_of [pointingHand 256 512; nanHand])].


(** A colour is selected after 800 ms, and 100 ms later the cursor is on
    the eraser item. *)
Definition selectThenMove : list (MenuEvent (num := float)) :=
  [Render true (Some onColor) items; Elapse 800; Elapse 100;
   Render true (Some onEraser) items].

End MoreSamples.

(** ** Properties of [processHands] that hold for every number structure *)

Section ProcessHands.
Context {num : Type} `{JsNumber num}.
Local Open Scope js_scope.

Lemma processHands_none (st : AppState num) (f : FrameInput num) :
  landmarks f = [] ->
  processHands st f = (set_menuCursor None st, UNKNOWN).
Proof. intros E. unfold processHands. rewrite E. reflexivity. Qed.

Lemma processHands_two (st : AppState num) (f : FrameInput num) (h1 h2 : Hand num) :
  landmarks f = [h1; h2] ->
  processHands st f =
    (zoomHands (set_menuCursor None st) h1 h2 (width f) (height f), TWO_FINGER_POINT).
Proof. intros E. unfold processHands. rewrite E. reflexivity. Qed.

Lemma processHands_one (st : AppState num) (f : FrameInput num) (hand : Hand num) :
  landmarks f = [hand] ->
  processHands st f =
    singleHand (isMenuOpen st) (random f) (set_menuCursor None st) hand
      (width f) (height f).
Proof. intros E. unfold processHands. rewrite E. reflexivity. Qed.

Lemma singleHand_gesture (b : bool) (rnd : nat -> num) (st : AppState num)
    (hand : Hand num) (w h : num) :
  snd (singleHand b rnd st hand w h) = classify (handMetrics hand w h).
Proof. reflexivity. Qed.

(** The zoom branch in terms of the state before the frame. *)
Lemma zoomHands_scale (st : AppState num) (h1 h2 : Hand num) (w h : num) :
  scale (transformRef (zoomHands st h1 h2 w h)) =
    match prevPinchDistanceRef st with
    | Some prev =>
        clamp (scale (transformRef st)
               + (distance (toScreen (x (h1 8%nat)) (y (h1 8%nat)) w h)
                           (toScreen (x (h2 8%nat)) (y (h2 8%nat)) w h) - prev)
                 * lit 5 1000) (lit 5 10) (of_Z 3)
    | None => scale (transformRef st)
    end.
Proof. unfold zoomHands. destruct (prevPinchDistanceRef st); reflexivity. Qed.

Lemma zoomHands_prev (st : AppState num) (h1 h2 : Hand num) (w h : num) :
  prevPinchDistanceRef (zoomHands st h1 h2 w h) =
    Some (distance (toScreen (x (h1 8%nat)) (y (h1 8%nat)) w h)
                   (toScreen (x (h2 8%nat)) (y (h2 8%nat)) w h)).
Proof. unfold zoomHands. destruct (prevPinchDistanceRef st); reflexivity. Qed.

(** The zoom branch leaves the drawing and the menu alone. *)
Lemma zoomHands_frame (st : AppState num) (h1 h2 : Hand num) (w h : num) :
  let st' := zoomHands st h1 h2 w h in
  isMenuOpen st' = isMenuOpen st /\ linesRef st' = linesRef st /\
  currentLineRef st' = currentLineRef st /\ particlesRef st' = particlesRef st /\
  settingsRef st' = settingsRef st /\
  offsetX (transformRef st') = offsetX (transformRef st) /\
  offsetY (transformRef st') = offsetY (transformRef st).
Proof. unfold zoomHands. destruct (prevPinchDistanceRef st); cbn; tauto. Qed.

(** C6. With exactly two hands in the frame the detected gesture is the
    two-hand gesture whatever the landmarks of either hand are; the new
    previous distance is [d], the distance between the two index
    fingertips on the screen; and if a previous distance was stored the
    scale becomes [clamp (scale + (d - previous) * 0.005) 0.5 3], while
    without one it is left as it was. *)
Theorem two_hands_zoom (st : AppState num) (f : FrameInput num) (h1 h2 : Hand num) :
  landmarks f = [h1; h2] ->
  let d := distance (indexOnScreen h1 f) (indexOnScreen h2 f) in
  let st' := fst (processHands st f) in
  snd (processHands st f) = TWO_FINGER_POINT /\
  prevPinchDistanceRef st' = Some d /\
  (forall previous, prevPinchDistanceRef st = Some previous ->
     scale (transformRef st') =
       clamp (scale (transformRef st) + (d - previous) * lit 5 1000)
         (lit 5 10) (of_Z 3)) /\
  (prevPinchDistanceRef st = None ->
     scale (transformRef st') = scale (transformRef st)).
Proof.
  intros E d st'. subst d st'. rewrite (processHands_two st f E). cbn [fst snd].
  split; [reflexivity|]. split; [apply zoomHands_prev|].
  split.
  - intros previous P. rewrite zoomHands_scale. cbn. rewrite P. reflexivity.
  - intros P. rewrite zoomHands_scale. cbn. rewrite P. reflexivity.
Qed.

(** C5. A single hand whose thumb and index tips are less than 40 px apart
    on the screen and whose middle finger is not extended (the test
    [distance wrist middleTip > distance wrist indexTip * 0.8] fails) is
    classified as a pinch; nothing is assumed about the other fingers, so
    the rules for the open palm and the V sign never override it. *)
Theorem pinch_has_precedence (st : AppState num) (f : FrameInput num) (hand : Hand num) :
  landmarks f = [hand] ->
  let m := handMetrics hand (width f) (height f) in
  (pinchDist m <? of_Z 40) = true ->
  middleExtended m = false ->
  classify m = PINCH /\ snd (processHands st f) = PINCH.
Proof.
  intros E m P M. rewrite (processHands_one st f E), singleHand_gesture.
  fold m. unfold classify. rewrite P, M. split; reflexivity.
Qed.

(** The rules in the order of the source, on the measurements. *)
Lemma classify_cases (m : HandMetrics) :
  classify m =
    if (pinchDist m <? of_Z 40) && negb (middleExtended m) then PINCH
    else if middleExtended m && ringExtended m && pinkyExtended m
            && (wristToIndex m >? of_Z 100) then OPEN_PALM
    else if (indexToMiddle m >? of_Z 40) && negb (ringExtended m)
            && negb (pinkyExtended m) then V_SIGN
    else UNKNOWN.
Proof. reflexivity. Qed.

(** The open palm wins over the V sign. *)
Lemma palm_before_v_sign (m : HandMetrics) :
  middleExtended m = true -> ringExtended m = true -> pinkyExtended m = true ->
  (wristToIndex m >? of_Z 100) = true ->
  classify m = OPEN_PALM.
Proof.
  intros M R P W. unfold classify. rewrite M, R, P, W.
  rewrite andb_false_r. reflexivity.
Qed.

Lemma classify_range (m : HandMetrics) :
  classify m = UNKNOWN \/ classify m = PINCH \/ classify m = OPEN_PALM
  \/ classify m = V_SIGN.
Proof.
  unfold classify.
  repeat match goal with |- context [if ?b then _ else _] => destruct b end; tauto.
Qed.

End ProcessHands.

(** ** The single-hand branch, step by step *)

Section SingleHand.
Context {num : Type} `{JsNumber num}.
Local Open Scope js_scope.

(** The new particles depend on the transform, the strokes, the line in
    progress and the settings only. *)
Lemma newParticles_ext (rnd : nat -> num) (st1 st2 : AppState num) :
  transformRef st1 = transformRef st2 -> linesRef st1 = linesRef st2 ->
  currentLineRef st1 = currentLineRef st2 -> settingsRef st1 = settingsRef st2 ->
  newParticles rnd st1 = newParticles rnd st2.
Proof. unfold newParticles. intros -> -> -> ->. reflexivity. Qed.

Lemma dissolveDrawing_lines (rnd : nat -> num) (st : AppState num) :
  linesRef (dissolveDrawing rnd st) = [] /\
  currentLineRef (dissolveDrawing rnd st) = [].
Proof.
  unfold dissolveDrawing.
  destruct (linesRef st) eqn:L, (currentLineRef st) eqn:C; cbn; auto.
Qed.

Lemma dissolveDrawing_particles (rnd : nat -> num) (st : AppState num) :
  particlesRef (dissolveDrawing rnd st) = particlesRef st ++ newParticles rnd st.
Proof.
  unfold dissolveDrawing, newParticles.
  destruct (linesRef st) eqn:L, (currentLineRef st) eqn:C; cbn; try reflexivity.
  now rewrite app_nil_r.
Qed.

Lemma dissolveDrawing_frame (rnd : nat -> num) (st : AppState num) :
  let st' := dissolveDrawing rnd st in
  isMenuOpen st' = isMenuOpen st /\ menuCursor st' = menuCursor st /\
  currentGesture st' = currentGesture st /\ settingsRef st' = settingsRef st /\
  transformRef st' = transformRef st /\
  prevPinchDistanceRef st' = prevPinchDistanceRef st.
Proof.
  unfold dissolveDrawing.
  destruct (linesRef st), (currentLineRef st); cbn; tauto.
Qed.

Lemma drawOrFinish_pinch (m : HandMetrics) (st : AppState num) :
  drawOrFinish PINCH m st =
    set_currentLineRef
      (currentLineRef st
       ++ [worldPoint (transformRef st) (midPoint (thumbTip m) (indexTip m))]) st.
Proof. reflexivity. Qed.

Lemma drawOrFinish_other (g : HandGesture) (m : HandMetrics) (st : AppState num) :
  g <> PINCH ->
  linesRef (drawOrFinish g m st) = linesAfterFinish st /\
  currentLineRef (drawOrFinish g m st) = [].
Proof.
  intros G. unfold linesAfterFinish, finishedStroke.
  destruct g; try congruence; cbn; destruct (currentLineRef st) eqn:C; cbn;
    rewrite ?C; auto.
Qed.

Lemma drawOrFinish_frame (g : HandGesture) (m : HandMetrics) (st : AppState num) :
  let st' := drawOrFinish g m st in
  isMenuOpen st' = isMenuOpen st /\ menuCursor st' = menuCursor st /\
  currentGesture st' = currentGesture st /\ particlesRef st' = particlesRef st /\
  settingsRef st' = settingsRef st /\ transformRef st' = transformRef st /\
  prevPinchDistanceRef st' = prevPinchDistanceRef st.
Proof.
  destruct g; cbn; try tauto; destruct (currentLineRef st); cbn; tauto.
Qed.

(** The menu flag after a single-hand frame: set by an open palm, and
    otherwise what it was. *)
Lemma singleHand_isMenuOpen (b : bool) (rnd : nat -> num) (st : AppState num)
    (hand : Hand num) (w h : num) :
  isMenuOpen (fst (singleHand b rnd st hand w h)) =
    match classify (handMetrics hand w h) with
    | OPEN_PALM => if b then isMenuOpen st else true
    | _ => isMenuOpen st
    end.
Proof.
  unfold singleHand. cbn [fst].
  destruct (classify (handMetrics hand w h)) eqn:G; destruct b; cbn;
    try reflexivity;
    try (destruct (currentLineRef st); reflexivity).
  - etransitivity; [apply dissolveDrawing_frame|reflexivity].
  - etransitivity; [apply dissolveDrawing_frame|].
    cbn. destruct (currentLineRef st); reflexivity.
Qed.

(** A single-hand frame clears the stored inter-hand distance and never
    writes the transform. *)
Lemma singleHand_transform (b : bool) (rnd : nat -> num) (st : AppState num)
    (hand : Hand num) (w h : num) :
  transformRef (fst (singleHand b rnd st hand w h)) = transformRef st /\
  prevPinchDistanceRef (fst (singleHand b rnd st hand w h)) = None.
Proof.
  unfold singleHand. cbn [fst].
  destruct (classify (handMetrics hand w h)) eqn:G; destruct b; cbn;
    try (split; reflexivity);
    try (destruct (currentLineRef st); split; reflexivity).
  - split; (etransitivity; [apply dissolveDrawing_frame|reflexivity]).
  - split; (etransitivity; [apply dissolveDrawing_frame|]);
      cbn; destruct (currentLineRef st); reflexivity.
Qed.

(** With the menu open a single hand only moves the menu cursor, except
    that a V sign still dissolves the drawing. *)
Lemma singleHand_menu_open (rnd : nat -> num) (st : AppState num)
    (hand : Hand num) (w h : num) :
  let m := handMetrics hand w h in
  let st' := fst (singleHand true rnd st hand w h) in
  menuCursor st' = Some (indexTip m) /\
  (classify m <> V_SIGN ->
     linesRef st' = linesRef st /\ currentLineRef st' = currentLineRef st /\
     particlesRef st' = particlesRef st).
Proof.
  unfold singleHand. cbn [fst].
  destruct (classify (handMetrics hand w h)) eqn:G; cbn;
    try (split; [reflexivity | intros _; repeat split; reflexivity]).
  split; [| congruence].
  etransitivity; [apply dissolveDrawing_frame|reflexivity].
Qed.

(** The single-hand branch with the menu closed, in full. *)
Lemma singleHand_closed (rnd : nat -> num) (st : AppState num)
    (hand : Hand num) (w h : num) :
  let m := handMetrics hand w h in
  let g := classify m in
  let st' := fst (singleHand false rnd st hand w h) in
  match g with
  | PINCH =>
      linesRef st' = linesRef st /\
      currentLineRef st' =
        currentLineRef st
        ++ [worldPoint (transformRef st) (midPoint (thumbTip m) (indexTip m))] /\
      particlesRef st' = particlesRef st
  | V_SIGN =>
      linesRef st' = [] /\ currentLineRef st' = [] /\
      particlesRef st' =
        particlesRef st
        ++ newParticles rnd (set_currentLineRef [] (set_linesRef (linesAfterFinish st) st))
  | _ =>
      linesRef st' = linesAfterFinish st /\ currentLineRef st' = [] /\
      particlesRef st' = particlesRef st
  end.
Proof.
  unfold singleHand, linesAfterFinish, finishedStroke. cbn [fst].
  destruct (classify (handMetrics hand w h)) eqn:G; cbn;
    try (destruct (currentLineRef st) eqn:C; cbn; rewrite ?C; repeat split; reflexivity).
  split; [apply dissolveDrawing_lines|]. split; [apply dissolveDrawing_lines|].
  rewrite dissolveDrawing_particles.
  destruct (currentLineRef st) eqn:C; cbn; f_equal;
    apply newParticles_ext; cbn; rewrite ?C; reflexivity.
Qed.

End SingleHand.

(** ** Frames, events and runs *)

Section FrameLoop.
Context {num : Type} `{JsNumber num}.
Local Open Scope js_scope.

(** Rendering touches the particles only. *)
Lemma renderCanvas_frame (st : AppState num) :
  let st' := renderCanvas st in
  isMenuOpen st' = isMenuOpen st /\ menuCursor st' = menuCursor st /\
  currentGesture st' = currentGesture st /\ linesRef st' = linesRef st /\
  currentLineRef st' = currentLineRef st /\ settingsRef st' = settingsRef st /\
  transformRef st' = transformRef st /\
  prevPinchDistanceRef st' = prevPinchDistanceRef st.
Proof. unfold renderCanvas. destruct (particlesRef st); cbn; tauto. Qed.

Lemma renderCanvas_particles (st : AppState num) :
  particlesRef (renderCanvas st) = tickParticles (particlesRef st).
Proof.
  unfold renderCanvas. destruct (particlesRef st) eqn:P; cbn; rewrite ?P; reflexivity.
Qed.

Lemma run_app (st : AppState num) (evs1 evs2 : list (Event (num := num))) :
  run st (evs1 ++ evs2) = run (run st evs1) evs2.
Proof. apply fold_left_app. Qed.

Lemma run_cons (st : AppState num) (ev : Event) (evs : list Event) :
  run st (ev :: evs) = run (step st ev) evs.
Proof. reflexivity. Qed.

(** No branch of [processHands] closes the menu. *)
Lemma processHands_keeps_menu_open (st : AppState num) (f : FrameInput num) :
  isMenuOpen st = true -> isMenuOpen (fst (processHands st f)) = true.
Proof.
  intros O. unfold processHands.
  destruct (landmarks f) as [|h1 [|h2 [|h3 r]]]; cbn [fst].
  - exact O.
  - rewrite singleHand_isMenuOpen, O. cbn.
    destruct (classify _); exact O.
  - etransitivity; [apply zoomHands_frame | exact O].
  - rewrite singleHand_isMenuOpen, O. cbn.
    destruct (classify _); exact O.
Qed.

Lemma detect_keeps_menu_open (st : AppState num) (f : FrameInput num) :
  isMenuOpen st = true -> isMenuOpen (detect st f) = true.
Proof.
  intros O. unfold detect.
  etransitivity; [apply renderCanvas_frame|].
  now apply processHands_keeps_menu_open.
Qed.

Lemma handleMenuSelect_isMenuOpen (u : PartialSettings num) (st : AppState num) :
  isMenuOpen (handleMenuSelect u st) = isMenuOpen st.
Proof. reflexivity. Qed.

(** A run that starts with the menu open and ends with it closed contains
    the menu's close action. *)
Lemma only_close_closes (evs : list (Event (num := num))) (st : AppState num) :
  isMenuOpen st = true -> isMenuOpen (run st evs) = false -> In MenuClose evs.
Proof.
  revert st. induction evs as [|ev evs IH]; intros st O C.
  - cbn in C. congruence.
  - rewrite run_cons in C. destruct ev as [f|u|].
    + right. apply (IH (step st (Frame f))); [|exact C].
      now apply detect_keeps_menu_open.
    + right. apply (IH (step st (MenuSelect u))); [|exact C]. exact O.
    + now left.
Qed.

(** C8. The menu flag is a latch.  An open-palm frame met with the menu
    closed opens it; with the menu open every frame, whatever its hands
    and gestures, leaves it open; hence a run of frames and menu events
    that starts open and ends closed contains the menu's own close action,
    which is the one event that closes it. *)
Theorem menu_open_is_latched (st : AppState num) :
  (forall f hand,
     isMenuOpen st = false -> landmarks f = [hand] ->
     classify (handMetrics hand (width f) (height f)) = OPEN_PALM ->
     isMenuOpen (detect st f) = true) /\
  (forall f, isMenuOpen st = true -> isMenuOpen (detect st f) = true) /\
  (forall evs,
     isMenuOpen st = true -> isMenuOpen (run st evs) = false ->
     In MenuClose evs) /\
  isMenuOpen (step st MenuClose) = false.
Proof.
  split; [|split; [|split]].
  - intros f hand C E G. unfold detect.
    etransitivity; [apply renderCanvas_frame|].
    rewrite (processHands_one st f E), singleHand_isMenuOpen, G, C. reflexivity.
  - intros f. apply detect_keeps_menu_open.
  - intros evs. apply only_close_closes.
  - reflexivity.
Qed.

(** A frame with one hand forgets the inter-hand distance, so the next
    frame with two hands only stores the new distance. *)
Lemma one_hand_clears_distance (st : AppState num) (f g : FrameInput num)
    (hand h1 h2 : Hand num) :
  landmarks f = [hand] -> landmarks g = [h1; h2] ->
  prevPinchDistanceRef (detect st f) = None /\
  scale (transformRef (detect (detect st f) g)) = scale (transformRef st).
Proof.
  intros F G.
  assert (P : prevPinchDistanceRef (detect st f) = None).
  { unfold detect. etransitivity; [apply renderCanvas_frame|].
    rewrite (processHands_one st f F). apply singleHand_transform. }
  assert (T : transformRef (detect st f) = transformRef st).
  { unfold detect. etransitivity; [apply renderCanvas_frame|].
    rewrite (processHands_one st f F).
    etransitivity; [apply singleHand_transform|reflexivity]. }
  split; [exact P|].
  unfold detect at 1.
  replace (transformRef (renderCanvas (fst (processHands (detect st f) g))))
    with (transformRef (fst (processHands (detect st f) g)))
    by (symmetry; apply renderCanvas_frame).
  destruct (two_hands_zoom (detect st f) g G) as (_ & _ & _ & N).
  rewrite (N P), T. reflexivity.
Qed.

(** A frame without hands leaves the stored inter-hand distance (and the
    strokes, the line in progress and the transform) as they were. *)
Lemma no_hands_keeps_state (st : AppState num) (f : FrameInput num) :
  landmarks f = [] ->
  prevPinchDistanceRef (detect st f) = prevPinchDistanceRef st /\
  linesRef (detect st f) = linesRef st /\
  currentLineRef (detect st f) = currentLineRef st /\
  transformRef (detect st f) = transformRef st.
Proof.
  intros E. unfold detect. rewrite (processHands_none st f E). cbn [fst].
  repeat split; (etransitivity; [apply renderCanvas_frame|reflexivity]).
Qed.

(** A frame with two hands leaves the strokes and the line in progress as
    they were. *)
Lemma two_hands_keep_strokes (st : AppState num) (f : FrameInput num)
    (h1 h2 : Hand num) :
  landmarks f = [h1; h2] ->
  linesRef (fst (processHands st f)) = linesRef st /\
  currentLineRef (fst (processHands st f)) = currentLineRef st.
Proof.
  intros E. rewrite (processHands_two st f E). cbn [fst].
  split; (etransitivity; [apply zoomHands_frame|reflexivity]).
Qed.

(** Every frame leaves the scale as it was or writes a clamped value. *)
Lemma detect_scale_cases (st : AppState num) (f : FrameInput num) :
  scale (transformRef (detect st f)) = scale (transformRef st) \/
  exists v, scale (transformRef (detect st f)) = clamp v (lit 5 10) (of_Z 3).
Proof.
  unfold detect.
  replace (transformRef (renderCanvas (fst (processHands st f))))
    with (transformRef (fst (processHands st f)))
    by (symmetry; apply renderCanvas_frame).
  unfold processHands.
  destruct (landmarks f) as [|h1 [|h2 [|h3 r]]]; cbn [fst].
  - left. reflexivity.
  - left. f_equal. etransitivity; [apply singleHand_transform|reflexivity].
  - rewrite zoomHands_scale. cbn [prevPinchDistanceRef set_menuCursor].
    destruct (prevPinchDistanceRef st) as [prev|]; [right | left; reflexivity].
    eexists. reflexivity.
  - left. f_equal. etransitivity; [apply singleHand_transform|reflexivity].
Qed.

Lemma step_scale_cases (st : AppState num) (ev : Event) :
  scale (transformRef (step st ev)) = scale (transformRef st) \/
  exists v, scale (transformRef (step st ev)) = clamp v (lit 5 10) (of_Z 3).
Proof.
  destruct ev as [f|u|]; cbn [step];
    [apply detect_scale_cases | left; reflexivity ..].
Qed.

(** A frame with two hands does not publish its gesture: [currentGesture]
    keeps the gesture of the last frame with one hand. *)
Lemma two_hands_keep_currentGesture (st : AppState num) (f : FrameInput num)
    (h1 h2 : Hand num) :
  landmarks f = [h1; h2] -> currentGesture (detect st f) = currentGesture st.
Proof.
  intros E. unfold detect. etransitivity; [apply renderCanvas_frame|].
  rewrite (processHands_two st f E). cbn [fst].
  unfold zoomHands. destruct (prevPinchDistanceRef _); reflexivity.
Qed.

End FrameLoop.

(** ** Drawing *)

Section Drawing.
Context {num : Type} `{JsNumber num}.
Local Open Scope js_scope.

(** What a frame with a pinching hand does while the menu is closed. *)
Lemma pinch_frame (st : AppState num) (f : FrameInput num) (hand : Hand num) :
  isMenuOpen st = false -> landmarks f = [hand] ->
  classify (handMetrics hand (width f) (height f)) = PINCH ->
  currentLineRef (detect st f) =
    currentLineRef st ++ [worldPoint (transformRef st) (pinchPoint hand f)] /\
  linesRef (detect st f) = linesRef st /\
  transformRef (detect st f) = transformRef st /\
  isMenuOpen (detect st f) = false.
Proof.
  intros C E G. unfold detect.
  pose proof (singleHand_closed (random f) (set_menuCursor None st) hand
                (width f) (height f)) as S.
  cbv zeta in S. rewrite G in S. destruct S as (L & P & _).
  rewrite (processHands_one st f E), C.
  repeat split.
  - etransitivity; [apply renderCanvas_frame|]. exact P.
  - etransitivity; [apply renderCanvas_frame|]. exact L.
  - etransitivity; [apply renderCanvas_frame|].
    etransitivity; [apply singleHand_transform|reflexivity].
  - etransitivity; [apply renderCanvas_frame|].
    rewrite singleHand_isMenuOpen, G. exact C.
Qed.

(** C4, as the code has it.  With the menu closed, a frame with one hand
    does the following.  If the hand pinches, the midpoint of the thumb and
    index tips, taken to world space by the current transform, is appended
    to the line in progress, and the strokes are left alone; so three
    pinch frames in a row append exactly their three world points, in
    order.  If the gesture is neither a pinch nor a V sign and the line in
    progress is not empty, the line becomes a new stroke with the current
    color, size and tool at the end of the stroke list, and the line in
    progress is emptied.  A V sign finishes the line in the same way and
    then dissolves every stroke within the frame, which leaves both empty.
    A frame with two hands changes neither the strokes nor the line in
    progress. *)
Theorem drawing_branch (st : AppState num) :
  isMenuOpen st = false ->
  (forall f hand,
     landmarks f = [hand] ->
     let g := classify (handMetrics hand (width f) (height f)) in
     let st' := fst (processHands st f) in
     (g = PINCH ->
        currentLineRef st' =
          currentLineRef st ++ [worldPoint (transformRef st) (pinchPoint hand f)] /\
        linesRef st' = linesRef st) /\
     (g <> PINCH -> g <> V_SIGN -> currentLineRef st <> [] ->
        linesRef st' =
          linesRef st
          ++ [ {| points := currentLineRef st;
                  color := s_color (settingsRef st);
                  size := s_size (settingsRef st);
                  type := s_tool (settingsRef st) |} ] /\
        currentLineRef st' = []) /\
     (g = V_SIGN -> linesRef st' = [] /\ currentLineRef st' = [])) /\
  (forall f1 f2 f3 a b c,
     landmarks f1 = [a] -> landmarks f2 = [b] -> landmarks f3 = [c] ->
     classify (handMetrics a (width f1) (height f1)) = PINCH ->
     classify (handMetrics b (width f2) (height f2)) = PINCH ->
     classify (handMetrics c (width f3) (height f3)) = PINCH ->
     currentLineRef (run st [Frame f1; Frame f2; Frame f3]) =
       currentLineRef st
       ++ [worldPoint (transformRef st) (pinchPoint a f1);
           worldPoint (transformRef st) (pinchPoint b f2);
           worldPoint (transformRef st) (pinchPoint c f3)]) /\
  (forall f h1 h2,
     landmarks f = [h1; h2] ->
     linesRef (fst (processHands st f)) = linesRef st /\
     currentLineRef (fst (processHands st f)) = currentLineRef st).
Proof.
  intros C. split; [|split].
  - intros f hand E g st'. subst g st'.
    pose proof (singleHand_closed (random f) (set_menuCursor None st) hand
                  (width f) (height f)) as S.
    cbv zeta in S. rewrite (processHands_one st f E), C.
    split; [|split].
    + intros G. rewrite G in S. destruct S as (L & P & _). split; assumption.
    + intros NP NV NE.
      assert (L : linesRef (set_menuCursor None st)
                  ++ [finishedStroke (set_menuCursor None st)] =
                  linesAfterFinish (set_menuCursor None st)).
      { unfold linesAfterFinish. cbn. destruct (currentLineRef st); congruence. }
      change (linesRef st
              ++ [ {| points := currentLineRef st;
                      color := s_color (settingsRef st);
                      size := s_size (settingsRef st);
                      type := s_tool (settingsRef st) |} ])
        with (linesRef (set_menuCursor None st)
              ++ [finishedStroke (set_menuCursor None st)]).
      rewrite L.
      destruct (classify (handMetrics hand (width f) (height f)));
        try congruence; destruct S as (S1 & S2 & _); split; assumption.
    + intros G. rewrite G in S. destruct S as (L & P & _). split; assumption.
  - intros f1 f2 f3 a b c E1 E2 E3 G1 G2 G3.
    unfold run. cbn [fold_left step].
    destruct (pinch_frame st f1 C E1 G1) as (P1 & _ & T1 & C1).
    destruct (pinch_frame (detect st f1) f2 C1 E2 G2) as (P2 & _ & T2 & C2).
    destruct (pinch_frame (detect (detect st f1) f2) f3 C2 E3 G3) as (P3 & _).
    rewrite P3, P2, P1, T2, T1, <- !app_assoc. reflexivity.
  - intros f h1 h2 E. exact (two_hands_keep_strokes st f E).
Qed.

End Drawing.

(** ** Dissolve: the particles spawned *)

Lemma mod2_succ (i : nat) : Nat.modulo (S i) 2 = 1 - Nat.modulo i 2.
Proof.
  pose proof (Nat.mod_upper_bound i 2 ltac:(lia)).
  pose proof (Nat.div_mod_eq i 2).
  pose proof (Nat.div_mod_eq (S i) 2).
  pose proof (Nat.mod_upper_bound (S i) 2 ltac:(lia)).
  lia.
Qed.

Lemma everySecond_length_parity {A : Type} (pts : list A) (i : nat) :
  length (everySecond i pts) =
    if Nat.eqb (Nat.modulo i 2) 0 then Nat.div2 (S (length pts))
    else Nat.div2 (length pts).
Proof.
  revert i. induction pts as [|p rest IH]; intros i; cbn [everySecond length].
  - destruct (Nat.eqb (Nat.modulo i 2) 0); reflexivity.
  - pose proof (mod2_succ i) as P.
    pose proof (Nat.mod_upper_bound i 2 ltac:(lia)) as U.
    destruct (Nat.eqb (Nat.modulo i 2) 0) eqn:E.
    + apply Nat.eqb_eq in E. cbn [length]. rewrite IH, P, E. reflexivity.
    + apply Nat.eqb_neq in E. rewrite IH, P.
      replace (1 - Nat.modulo i 2) with 0 by lia. reflexivity.
Qed.

(** Every second point of [n] points: [ceil (n / 2)] of them. *)
Lemma everySecond_length {A : Type} (pts : list A) :
  length (everySecond 0 pts) = (length pts + 1) / 2.
Proof.
  rewrite everySecond_length_parity.
  change (Nat.eqb (Nat.modulo 0 2) 0) with true. cbv iota.
  rewrite Nat.div2_div, Nat.add_1_r. reflexivity.
Qed.

Section Dissolve.
Context {num : Type} `{JsNumber num}.
Local Open Scope js_scope.

Lemma addParticlesFromPoints_spec (tr : Transform num) (rnd : nat -> num)
    (pts : list (Point num)) (c : string) (sz : num) (i k : nat) :
  let qs := fst (addParticlesFromPoints tr rnd i pts c sz k) in
  map position qs = map (screenPoint tr) (everySecond i pts) /\
  Forall (launched rnd) qs.
Proof.
  revert i k.
  induction pts as [|p rest IH]; intros i k;
    cbn [addParticlesFromPoints everySecond].
  - split; [reflexivity | constructor].
  - destruct (Nat.eqb (Nat.modulo i 2) 0).
    + specialize (IH (S i) (3 + k)%nat). cbv zeta in IH.
      destruct (addParticlesFromPoints tr rnd (S i) rest c sz (3 + k)%nat)
        as [qs k'].
      cbn [fst] in *. destruct IH as (P & F). split.
      * cbn [map]. rewrite P. reflexivity.
      * constructor; [|exact F].
        repeat split. exists k. split; reflexivity.
    + apply IH.
Qed.

Lemma addParticlesFromLines_spec (tr : Transform num) (rnd : nat -> num)
    (lines : list (Stroke num)) (k : nat) :
  let qs := fst (addParticlesFromLines tr rnd lines k) in
  map position qs =
    map (screenPoint tr) (flat_map (fun s => everySecond 0 (points s)) lines) /\
  Forall (launched rnd) qs.
Proof.
  revert k. induction lines as [|line rest IH]; intros k; cbn.
  - split; [reflexivity | constructor].
  - pose proof (addParticlesFromPoints_spec tr rnd (points line) (color line)
                  (size line) 0 k) as S.
    destruct (addParticlesFromPoints tr rnd 0 (points line) (color line)
                (size line) k) as [qs k1].
    specialize (IH k1).
    destruct (addParticlesFromLines tr rnd rest k1) as [rs k2].
    cbn in *. destruct S as (S1 & S2), IH as (I1 & I2). split.
    + rewrite !map_app, S1, I1. reflexivity.
    + apply Forall_app. split; assumption.
Qed.

(** The particles of one dissolve: one per sampled point of each stroke
    and of the line in progress, at the point's place on the screen. *)
Lemma newParticles_spec (rnd : nat -> num) (st : AppState num) :
  map position (newParticles rnd st) =
    map (screenPoint (transformRef st))
      (flat_map (fun s => everySecond 0 (points s)) (linesRef st)
       ++ everySecond 0 (currentLineRef st)) /\
  Forall (launched rnd) (newParticles rnd st).
Proof.
  unfold newParticles.
  pose proof (addParticlesFromLines_spec (transformRef st) rnd (linesRef st) 0) as L.
  destruct (addParticlesFromLines (transformRef st) rnd (linesRef st) 0) as [qs k1].
  pose proof (addParticlesFromPoints_spec (transformRef st) rnd (currentLineRef st)
                (s_color (settingsRef st)) (s_size (settingsRef st)) 0 k1) as P.
  destruct (addParticlesFromPoints (transformRef st) rnd 0 (currentLineRef st)
              (s_color (settingsRef st)) (s_size (settingsRef st)) k1) as [rs k2].
  cbn in *. destruct L as (L1 & L2), P as (P1 & P2). split.
  - rewrite !map_app, L1, P1. reflexivity.
  - apply Forall_app. split; assumption.
Qed.

(** The number of sampled points of a list of strokes. *)
Lemma sampled_count (lines : list (Stroke num)) :
  length (flat_map (fun s => everySecond 0 (points s)) lines) =
    list_sum (map (fun s => ((length (points s) + 1) / 2)%nat) lines).
Proof.
  induction lines as [|s rest IH]; cbn [flat_map map list_sum]; [reflexivity|].
  rewrite length_app, everySecond_length, IH. reflexivity.
Qed.

(** The dissolve of a V-sign frame met with the menu closed: the line in
    progress has been finished into the stroke list, and each stroke gives
    one particle per sampled point. *)
Lemma v_sign_dissolve (st : AppState num) (f : FrameInput num) (hand : Hand num) :
  isMenuOpen st = false -> landmarks f = [hand] ->
  classify (handMetrics hand (width f) (height f)) = V_SIGN ->
  let st' := fst (processHands st f) in
  linesRef st' = [] /\ currentLineRef st' = [] /\
  exists spawned,
    particlesRef st' = particlesRef st ++ spawned /\
    length spawned =
      list_sum (map (fun s => ((length (points s) + 1) / 2)%nat) (linesAfterFinish st)) /\
    map position spawned =
      map (screenPoint (transformRef st))
        (flat_map (fun s => everySecond 0 (points s)) (linesAfterFinish st)) /\
    Forall (launched (random f)) spawned.
Proof.
  intros C E G st'. subst st'.
  pose proof (singleHand_closed (random f) (set_menuCursor None st) hand
                (width f) (height f)) as S.
  cbv zeta in S. rewrite G in S. destruct S as (L & P & Q).
  rewrite (processHands_one st f E), C.
  split; [exact L|]. split; [exact P|].
  eexists. split; [exact Q|].
  match goal with |- context [newParticles ?r ?s] =>
    destruct (newParticles_spec r s) as (N1 & N2) end.
  cbn in N1. rewrite app_nil_r in N1.
  change (linesAfterFinish (set_menuCursor None st)) with (linesAfterFinish st) in *.
  split; [|split].
  - rewrite <- sampled_count.
    rewrite <- (length_map position), N1, length_map. reflexivity.
  - exact N1.
  - exact N2.
Qed.

End Dissolve.

(** ** Exact arithmetic: the program over the real numbers *)

Section Exact.
Local Open Scope R_scope.

Lemma Rltb_true (a b : R) : Rltb a b = true <-> a < b.
Proof. unfold Rltb. destruct (Rlt_dec a b); split; intros; [lra|reflexivity|discriminate|lra]. Qed.

Lemma Rltb_false (a b : R) : Rltb a b = false <-> b <= a.
Proof. unfold Rltb. destruct (Rlt_dec a b); split; intros; [discriminate|lra|lra|reflexivity]. Qed.

Lemma Rleb_true (a b : R) : Rleb a b = true <-> a <= b.
Proof. unfold Rleb. destruct (Rle_dec a b); split; intros; [lra|reflexivity|discriminate|lra]. Qed.

Lemma Rleb_false (a b : R) : Rleb a b = false <-> b < a.
Proof. unfold Rleb. destruct (Rle_dec a b); split; intros; [discriminate|lra|lra|reflexivity]. Qed.

Lemma lit_real (n d : Z) : lit (num := R) n d = IZR n / IZR d.
Proof. reflexivity. Qed.

(** [Math.max(lo, Math.min(hi, v))] is the usual clamp. *)
Lemma clamp_real (v lo hi : R) :
  lo <= hi ->
  lo <= clamp v lo hi <= hi /\
  (lo <= v <= hi -> clamp v lo hi = v) /\
  (v <= lo -> clamp v lo hi = lo) /\
  (hi <= v -> clamp v lo hi = hi).
Proof.
  intros L. unfold clamp. cbn [Math_max Math_min real_number].
  unfold Rmax, Rmin.
  destruct (Rle_dec hi v); destruct (Rle_dec lo hi); destruct (Rle_dec lo v);
    repeat split; intros; lra.
Qed.

Lemma sqrt_below (a b : R) : 0 < b -> a < b * b -> R_sqrt.sqrt a < b.
Proof.
  intros B L. destruct (Rle_dec 0 a) as [A|A].
  - rewrite <- (sqrt_square b) by lra. now apply sqrt_lt_1_alt.
  - rewrite sqrt_neg_0 by lra. exact B.
Qed.

Lemma sqrt_above (a b : R) : 0 <= b -> b * b < a -> b < R_sqrt.sqrt a.
Proof.
  intros B L. rewrite <- (sqrt_square b B). apply sqrt_lt_1_alt. nra.
Qed.

Lemma sqrt_at_least (a b : R) : 0 <= b -> b * b <= a -> b <= R_sqrt.sqrt a.
Proof.
  intros B L. rewrite <- (sqrt_square b B). apply sqrt_le_1_alt. exact L.
Qed.

Lemma sqrt_at_most (a b : R) : 0 <= b -> a <= b * b -> R_sqrt.sqrt a <= b.
Proof.
  intros B L. rewrite <- (sqrt_square b B). apply sqrt_le_1_alt. exact L.
Qed.

Lemma step_scale (st : AppState R) (ev : Event) :
  scale (transformRef (step st ev)) = scale (transformRef st) \/
  scale_in_range (step st ev).
Proof.
  destruct (step_scale_cases st ev) as [E|(v & E)]; [left; exact E | right].
  unfold scale_in_range. rewrite E, !lit_real.
  replace (IZR 5 / IZR 10) with (1 / 2) by lra.
  apply clamp_real. cbn. lra.
Qed.

Lemma run_scale_in_range (evs : list Event) (st : AppState R) :
  scale_in_range st -> scale_in_range (run st evs).
Proof.
  revert st. induction evs as [|ev evs IH]; intros st S; [exact S|].
  rewrite run_cons. apply IH.
  destruct (step_scale st ev) as [E|E]; [|exact E].
  unfold scale_in_range in *. rewrite E. exact S.
Qed.

Lemma initial_scale_in_range : scale_in_range initialState.
Proof. unfold scale_in_range. cbn. lra. Qed.

(** In exact arithmetic the scale lies in [[0.5, 3]] after every event of
    every run from the initial state: each frame either leaves the scale
    as it was or writes a value that [Math.max] and [Math.min] have brought
    into that range, and the initial scale is 1. *)
Lemma scale_clamped_exact (evs : list Event) :
  1 / 2 <= scale (transformRef (run (num := R) initialState evs)) <= 3 /\
  (forall (st : AppState R) (f : FrameInput R),
     scale (transformRef (detect st f)) = scale (transformRef st) \/
     1 / 2 <= scale (transformRef (detect st f)) <= 3).
Proof.
  split.
  - apply run_scale_in_range, initial_scale_in_range.
  - intros st f. exact (step_scale st (Frame f)).
Qed.

Lemma screen_of_world (tr : Transform R) (p : Point R) :
  scale tr <> 0 -> screenPoint tr (worldPoint tr p) = p.
Proof.
  intros S. destruct p as [px py]. unfold screenPoint, worldPoint.
  cbn. f_equal; field; exact S.
Qed.

Lemma world_of_screen (tr : Transform R) (p : Point R) :
  scale tr <> 0 -> worldPoint tr (screenPoint tr p) = p.
Proof.
  intros S. destruct p as [px py]. unfold screenPoint, worldPoint.
  cbn. f_equal; field; exact S.
Qed.

(** The precedence of the pinch in exact arithmetic, with "not extended"
    read as [<=]. *)
Lemma pinch_has_precedence_exact (st : AppState R) (f : FrameInput R) (hand : Hand R) :
  landmarks f = [hand] ->
  let m := handMetrics hand (width f) (height f) in
  pinchDist m < 40 ->
  fromWrist hand 12 (width f) (height f)
    <= fromWrist hand 8 (width f) (height f) * (8 / 10) ->
  snd (processHands st f) = PINCH.
Proof.
  intros E m P M. apply (pinch_has_precedence st f E).
  - apply Rltb_true. exact P.
  - apply Rltb_false. exact M.
Qed.


End Exact.

(** ** Binary64: the program as it runs *)

Section Doubles.

(** *** Literals *)

#[local] Set Warnings "-inexact-float".

Example lit_0_8 : lit 8 10 = 0.8%float. Proof. vm_compute. reflexivity. Qed.
Example lit_0_005 : lit 5 1000 = 0.005%float. Proof. vm_compute. reflexivity. Qed.
Example lit_0_01 : lit 1 100 = 0.01%float. Proof. vm_compute. reflexivity. Qed.
Example lit_0_05 : lit 5 100 = 0.05%float. Proof. vm_compute. reflexivity. Qed.
Example of_Z_m3 : of_Z (-3) = (-3)%float. Proof. vm_compute. reflexivity. Qed.

(** *** Comparisons *)

Lemma SFcompare_antisym (a b : spec_float) :
  SFcompare b a = option_map CompOpp (SFcompare a b).
Proof.
  destruct a as [sa|sa| |sa ma ea], b as [sb|sb| |sb mb eb]; cbn;
    try reflexivity;
    try (destruct sa; reflexivity); try (destruct sb; reflexivity);
    try (destruct sa, sb; reflexivity).
  destruct sa, sb; cbn; try reflexivity;
    rewrite (Z.compare_antisym ea eb); destruct (Z.compare ea eb) eqn:E; cbn;
    try reflexivity;
    rewrite (Pos.compare_cont_antisym ma mb Eq); cbn;
    rewrite ?CompOpp_involutive; reflexivity.
Qed.

Lemma float_leb_not_gt (a b : float) :
  PrimFloat.leb a b = true -> PrimFloat.ltb b a = false.
Proof.
  rewrite leb_spec, ltb_spec. unfold SFleb, SFltb.
  rewrite (SFcompare_antisym (Prim2SF a) (Prim2SF b)).
  destruct (SFcompare (Prim2SF a) (Prim2SF b)) as [[| |]|]; cbn; congruence.
Qed.

Lemma float_ltb_leb (a b : float) :
  PrimFloat.ltb a b = true -> PrimFloat.leb a b = true.
Proof.
  rewrite leb_spec, ltb_spec. unfold SFleb, SFltb.
  destruct (SFcompare (Prim2SF a) (Prim2SF b)) as [[| |]|]; cbn; congruence.
Qed.

Lemma float_not_nan (a : float) :
  float_is_nan a = false -> Prim2SF a <> S754_nan.
Proof.
  unfold float_is_nan. rewrite eqb_spec. unfold SFeqb.
  intros E N. rewrite N in E. cbn in E. discriminate.
Qed.

Lemma SFcompare_some (a b : spec_float) :
  a <> S754_nan -> b <> S754_nan -> SFcompare a b <> None.
Proof.
  destruct a as [sa|sa| |sa ma ea], b as [sb|sb| |sb mb eb]; cbn; congruence.
Qed.

Lemma float_not_ltb_leb (a b : float) :
  float_is_nan a = false -> float_is_nan b = false ->
  PrimFloat.ltb a b = false -> PrimFloat.leb b a = true.
Proof.
  intros A B. apply float_not_nan in A, B.
  pose proof (@SFcompare_some _ _ A B) as S.
  rewrite leb_spec, ltb_spec. unfold SFleb, SFltb.
  rewrite (SFcompare_antisym (Prim2SF a) (Prim2SF b)).
  destruct (SFcompare (Prim2SF a) (Prim2SF b)) as [[| |]|]; cbn; congruence.
Qed.

Lemma float_clamp_range (v : float) :
  float_is_nan v = false ->
  PrimFloat.leb (lit 5 10) (clamp v (lit 5 10) (of_Z 3)) = true /\
  PrimFloat.leb (clamp v (lit 5 10) (of_Z 3)) (of_Z 3) = true.
Proof.
  intros V. unfold clamp. cbn [Math_max Math_min float_number].
  set (lo := lit 5 10). set (hi := of_Z 3).
  assert (LH : PrimFloat.ltb lo hi = true) by (vm_compute; reflexivity).
  assert (NL : float_is_nan lo = false) by (vm_compute; reflexivity).
  assert (NH : float_is_nan hi = false) by (vm_compute; reflexivity).
  assert (ZH : float_is_neg_zero hi = false) by (vm_compute; reflexivity).
  assert (ZL : float_is_neg_zero lo = false) by (vm_compute; reflexivity).
  assert (LL : PrimFloat.leb lo lo = true) by (vm_compute; reflexivity).
  assert (HH : PrimFloat.leb hi hi = true) by (vm_compute; reflexivity).
  assert (M : exists m, float_min hi v = m /\ float_is_nan m = false /\ PrimFloat.leb m hi = true).
  { unfold float_min. rewrite NH, V. cbn [orb]. rewrite ZH.
    destruct (PrimFloat.ltb hi v) eqn:E1.
    - exists hi. auto.
    - destruct (PrimFloat.ltb v hi) eqn:E2.
      + exists v. repeat split; auto. now apply float_ltb_leb.
      + exists v. repeat split; auto. now apply float_not_ltb_leb. }
  destruct M as (m & -> & NM & MH).
  unfold float_max. rewrite NL, NM. cbn [orb]. rewrite ZL.
  destruct (PrimFloat.ltb lo m) eqn:E1.
  - split; [now apply float_ltb_leb | exact MH].
  - destruct (PrimFloat.ltb m lo) eqn:E2.
    + split; [exact LL | now apply float_ltb_leb].
    + split; [exact LL | now apply float_ltb_leb].
Qed.

(** On doubles the zoom branch writes a scale within [[0.5, 3]] unless the
    value it clamps is NaN, which then is what it writes. *)
Lemma float_clamp_nan (v : float) :
  float_is_nan v = true -> clamp v (lit 5 10) (of_Z 3) = PrimFloat.nan.
Proof.
  intros V. unfold clamp. cbn [Math_max Math_min float_number].
  unfold float_min at 1. rewrite V, orb_true_r.
  unfold float_max. rewrite orb_true_r. reflexivity.
Qed.

(** The precedence of the pinch on doubles, with "not extended" read as
    the comparison [<=] of the wrist-to-middle distance with 0.8 times the
    wrist-to-index distance. *)
Lemma pinch_has_precedence_doubles (st : AppState float) (f : FrameInput float)
    (hand : Hand float) :
  landmarks f = [hand] ->
  let m := handMetrics hand (width f) (height f) in
  PrimFloat.ltb (pinchDist m) (of_Z 40) = true ->
  PrimFloat.leb (fromWrist hand 12 (width f) (height f))
    (fromWrist hand 8 (width f) (height f) * lit 8 10)%js = true ->
  snd (processHands st f) = PINCH.
Proof.
  intros E m P M. apply (pinch_has_precedence st f E); [exact P|].
  apply float_leb_not_gt in M. exact M.
Qed.

(** On doubles the scale of every state a run reaches is within
    [[0.5, 3]] or NaN; it is NaN only once a clamped value was NaN. *)
Lemma float_scale_clamped_or_nan (evs : list Event) :
  float_scale_ok (run (num := float) initialState evs).
Proof.
  assert (G : forall st, float_scale_ok st -> float_scale_ok (run st evs)).
  { induction evs as [|ev evs IH]; intros st S; [exact S|].
    rewrite run_cons. apply IH.
    destruct (step_scale_cases st ev) as [E|(v & E)]; unfold float_scale_ok in *.
    - rewrite E. exact S.
    - rewrite E. destruct (float_is_nan v) eqn:V.
      + left. rewrite (float_clamp_nan v V). reflexivity.
      + right. destruct (float_clamp_range v V) as (A & B).
        now rewrite A, B. }
  apply G. right. vm_compute. reflexivity.
Qed.

End Doubles.

(** *** Rounding never yields NaN *)

Section Rounding64.

Lemma shr_1_nonneg (mrs : shr_record) :
  (0 <= shr_m mrs)%Z -> (0 <= shr_m (shr_1 mrs))%Z.
Proof.
  destruct mrs as [m r s]. cbn [shr_m]. intros M.
  destruct m as [|p|p]; [cbn; lia| |lia].
  destruct p; cbn; lia.
Qed.

Lemma iter_shr_1_nonneg (p : positive) (mrs : shr_record) :
  (0 <= shr_m mrs)%Z -> (0 <= shr_m (SpecFloat.iter_pos shr_1 p mrs))%Z.
Proof.
  revert mrs. induction p as [p IH|p IH|]; intros mrs M; cbn [SpecFloat.iter_pos].
  - apply IH, IH, shr_1_nonneg, M.
  - apply IH, IH, M.
  - apply shr_1_nonneg, M.
Qed.

Lemma shr_fexp_nonneg (m e : Z) (l : location) :
  (0 <= m)%Z -> (0 <= shr_m (fst (shr_fexp prec emax m e l)))%Z.
Proof.
  intros M. unfold shr_fexp, shr.
  assert (R : (0 <= shr_m (shr_record_of_loc m l))%Z).
  { destruct l as [|[ | | ]]; exact M. }
  destruct (fexp prec emax (Zdigits2 m + e) - e)%Z; cbn [fst]; try exact R.
  now apply iter_shr_1_nonneg.
Qed.

Lemma round_nearest_even_nonneg (m : Z) (l : location) :
  (0 <= m)%Z -> (0 <= round_nearest_even m l)%Z.
Proof.
  intros M. destruct l as [|[ | | ]]; cbn; try lia.
  destruct (Z.even m); lia.
Qed.

Lemma binary_round_aux_not_nan (sx : bool) (mx ex : Z) (lx : location) :
  (0 <= mx)%Z -> binary_round_aux prec emax sx mx ex lx <> S754_nan.
Proof.
  intros M. unfold binary_round_aux.
  pose proof (shr_fexp_nonneg ex lx M) as A.
  destruct (shr_fexp prec emax mx ex lx) as [mrs' e']. cbn [fst] in A.
  pose proof (@shr_fexp_nonneg _ e' loc_Exact
                (round_nearest_even_nonneg (loc_of_shr_record mrs') A)) as B.
  destruct (shr_fexp prec emax (round_nearest_even (shr_m mrs') (loc_of_shr_record mrs'))
              e' loc_Exact) as [mrs'' e'']. cbn [fst] in B.
  destruct (shr_m mrs'') as [|m|m]; [discriminate| |lia].
  destruct (e'' <=? emax - prec)%Z; discriminate.
Qed.

Lemma binary_normalize_not_nan (m e : Z) (szero : bool) :
  binary_normalize prec emax m e szero <> S754_nan.
Proof.
  unfold binary_normalize, binary_round.
  destruct m as [|p|p]; [discriminate| |];
    match goal with |- context [shl_align ?a ?b ?c] => destruct (shl_align a b c) end;
    apply binary_round_aux_not_nan; lia.
Qed.

Lemma SFsub_finite (a b : spec_float) :
  SF_is_finite a = true -> SF_is_finite b = true -> SFsub prec emax a b <> S754_nan.
Proof.
  destruct a as [sa|sa| |sa ma ea], b as [sb|sb| |sb mb eb]; cbn [SF_is_finite];
    intros A B; try discriminate; cbn [SFsub].
  - destruct sa, sb; discriminate.
  - apply binary_normalize_not_nan.
Qed.

Lemma SFmul_finite_r (a : spec_float) (sb : bool) (mb : positive) (eb : Z) :
  a <> S754_nan -> SFmul prec emax a (S754_finite sb mb eb) <> S754_nan.
Proof.
  destruct a as [sa|sa| |sa ma ea]; intros A; cbn [SFmul]; try discriminate.
  - congruence.
  - apply binary_round_aux_not_nan. lia.
Qed.

Lemma SFadd_finite_l (a b : spec_float) :
  SF_is_finite a = true -> b <> S754_nan -> SFadd prec emax a b <> S754_nan.
Proof.
  destruct a as [sa|sa| |sa ma ea], b as [sb|sb| |sb mb eb]; cbn [SF_is_finite];
    intros A B; try discriminate; try congruence; cbn [SFadd].
  - destruct sa, sb; discriminate.
  - apply binary_normalize_not_nan.
Qed.

Lemma SFcompare_refl (a : spec_float) : a <> S754_nan -> SFcompare a a = Some Eq.
Proof.
  destruct a as [sa|sa| |sa ma ea]; intros A; cbn; try congruence.
  - destruct sa; reflexivity.
  - destruct sa; rewrite Z.compare_refl, Pos.compare_cont_refl; reflexivity.
Qed.

Lemma float_is_not_nan (a : float) : Prim2SF a <> S754_nan -> float_is_nan a = false.
Proof.
  intros A. unfold float_is_nan. rewrite eqb_spec. unfold SFeqb.
  now rewrite (SFcompare_refl A).
Qed.

(** A scale within [[0.5, 3]] is a finite number. *)
Lemma float_range_finite (s : float) :
  PrimFloat.leb (lit 5 10) s && PrimFloat.leb s (of_Z 3) = true ->
  float_is_finite s = true.
Proof.
  intros R. apply andb_true_iff in R. destruct R as [L U].
  rewrite leb_spec in L, U. unfold float_is_finite.
  assert (Lo : exists m e, Prim2SF (lit 5 10) = S754_finite false m e)
    by (vm_compute; eauto).
  assert (Hi : exists m e, Prim2SF (of_Z 3) = S754_finite false m e)
    by (vm_compute; eauto).
  destruct Lo as (ml & el & Lo), Hi as (mh & eh & Hi).
  change (Prim2SF (@lit float float_number 5 10)) with (Prim2SF (lit 5 10)) in L.
  rewrite Lo in L. rewrite Hi in U.
  destruct (Prim2SF s) as [ss|ss| |ss ms es]; try reflexivity.
  - destruct ss; cbn in L, U; discriminate.
  - cbn in L. discriminate.
Qed.

(** The value that the zoom branch clamps is a number if the scale is in
    range and both distances are finite. *)
Lemma zoom_value_not_nan (s d p : float) :
  PrimFloat.leb (lit 5 10) s && PrimFloat.leb s (of_Z 3) = true ->
  float_is_finite d = true -> float_is_finite p = true ->
  float_is_nan (s + (d - p) * lit 5 1000)%js = false.
Proof.
  intros S D P. apply float_range_finite in S.
  apply float_is_not_nan. cbn [add sub mul float_number].
  rewrite add_spec, mul_spec, sub_spec.
  assert (Z : exists sg m e, Prim2SF (lit 5 1000) = S754_finite sg m e)
    by (vm_compute; eauto).
  destruct Z as (sg & m & e & Z).
  change (Prim2SF (@lit float float_number 5 1000)) with (Prim2SF (lit 5 1000)).
  rewrite Z.
  apply SFadd_finite_l; [exact S|].
  apply SFmul_finite_r. now apply SFsub_finite.
Qed.

End Rounding64.

(** *** The scale on doubles *)

Section ZoomOnDoubles.

(** The stored distance and the scale after a frame, by the number of
    hands. *)
Lemma detect_zoom_state {num} `{JsNumber num} (st : AppState num) (f : FrameInput num) :
  match landmarks f with
  | [] =>
      prevPinchDistanceRef (detect st f) = prevPinchDistanceRef st /\
      scale (transformRef (detect st f)) = scale (transformRef st)
  | [h1; h2] =>
      let d := distance (indexOnScreen h1 f) (indexOnScreen h2 f) in
      prevPinchDistanceRef (detect st f) = Some d /\
      scale (transformRef (detect st f)) =
        match prevPinchDistanceRef st with
        | Some previous =>
            clamp (scale (transformRef st) + (d - previous) * lit 5 1000)%js
              (lit 5 10) (of_Z 3)
        | None => scale (transformRef st)
        end
  | _ =>
      prevPinchDistanceRef (detect st f) = None /\
      scale (transformRef (detect st f)) = scale (transformRef st)
  end.
Proof.
  assert (R : forall s : AppState num,
            prevPinchDistanceRef (renderCanvas s) = prevPinchDistanceRef s /\
            transformRef (renderCanvas s) = transformRef s).
  { intros s. split; apply renderCanvas_frame. }
  unfold detect. destruct (R (fst (processHands st f))) as [-> ->].
  destruct (landmarks f) as [|h1 [|h2 [|h3 r]]] eqn:E.
  - rewrite (processHands_none st f E). split; reflexivity.
  - rewrite (processHands_one st f E).
    destruct (singleHand_transform (isMenuOpen st) (random f) (set_menuCursor None st)
                h1 (width f) (height f)) as [T P].
    rewrite T, P. split; reflexivity.
  - destruct (two_hands_zoom st f E) as (_ & P & S1 & S2). cbn zeta in *.
    split; [exact P|].
    destruct (prevPinchDistanceRef st) as [p|]; [now apply S1 | now apply S2].
  - unfold processHands. rewrite E.
    destruct (singleHand_transform (isMenuOpen st) (random f) (set_menuCursor None st)
                h1 (width f) (height f)) as [T P].
    rewrite T, P. split; reflexivity.
Qed.

Lemma step_finite_zoom (st : AppState float) (ev : Event) :
  finiteZoom ev ->
  float_scale_in_range st /\
  (forall p, prevPinchDistanceRef st = Some p -> float_is_finite p = true) ->
  float_scale_in_range (step st ev) /\
  (forall p, prevPinchDistanceRef (step st ev) = Some p -> float_is_finite p = true).
Proof.
  intros F [S P]. destruct ev as [f|u|]; cbn [step]; [|split; assumption ..].
  pose proof (detect_zoom_state st f) as K. cbn [finiteZoom] in F.
  unfold float_scale_in_range in *.
  destruct (landmarks f) as [|h1 [|h2 [|h3 r]]].
  - destruct K as [-> ->]. split; assumption.
  - destruct K as [-> ->]. split; [assumption | discriminate].
  - cbn zeta in K. destruct K as [Kp Ks]. rewrite Kp, Ks. split.
    + destruct (prevPinchDistanceRef st) as [p|]; [|exact S].
      destruct (@float_clamp_range _
                  (@zoom_value_not_nan _ _ _ S F (P p eq_refl))) as [A B].
      now rewrite A, B.
    + intros p E. injection E as <-. exact F.
  - destruct K as [-> ->]. split; [assumption | discriminate].
Qed.

Lemma run_finite_zoom (evs : list Event) (st : AppState float) :
  Forall finiteZoom evs ->
  float_scale_in_range st /\
  (forall p, prevPinchDistanceRef st = Some p -> float_is_finite p = true) ->
  float_scale_in_range (run st evs).
Proof.
  revert st. induction evs as [|ev evs IH]; intros st F I; [apply I|].
  apply Forall_cons_iff in F. destruct F as [Fe F].
  rewrite run_cons. apply IH; [exact F|]. now apply step_finite_zoom.
Qed.

(** C7, as the code has it.  Every write of the scale is
    [Math.max(0.5, Math.min(3, v))], and the scale starts at 1.  On doubles
    that value is within [[0.5, 3]] unless [v] is NaN, and NaN if it is; so
    after every event of every run from the initial state the scale is
    within [[0.5, 3]] or NaN, and it is within [[0.5, 3]] after every run in
    which the inter-hand distance of each two-hand frame is a finite
    number.  In exact arithmetic it is within [[0.5, 3]] after every
    run.  (A landmark that is NaN takes the scale out of the range; see
    [nan_landmark_leaves_the_range].) *)
Theorem scale_always_clamped (evs : list (Event (num := float))) :
  let s := scale (transformRef (run initialState evs)) in
  (float_is_nan s = true \/
   PrimFloat.leb (lit 5 10) s && PrimFloat.leb s (of_Z 3) = true) /\
  (Forall finiteZoom evs ->
   PrimFloat.leb (lit 5 10) s && PrimFloat.leb s (of_Z 3) = true) /\
  (forall evsR : list (Event (num := R)),
     (1 / 2 <= scale (transformRef (run initialState evsR)) <= 3)%R).
Proof.
  cbn zeta. split; [apply float_scale_clamped_or_nan|]. split.
  - intros F. apply (run_finite_zoom F). split.
    + vm_compute. reflexivity.
    + intros p E. discriminate E.
  - intros evsR. apply run_scale_in_range, initial_scale_in_range.
Qed.

End ZoomOnDoubles.

(** ** The particle simulation *)

Section Particles.
Context {num : Type} `{JsNumber num}.
Local Open Scope js_scope.



(** Every particle after a pass is one of the particles before it, moved. *)
Lemma tickParticles_from (ps : list (Particle num)) (q : Particle num) :
  In q (tickParticles ps) ->
  exists p, In p ps /\ q = tickParticle p /\ alive q = true.
Proof.
  unfold tickParticles. intros I. apply filter_In in I. destruct I as (I & A).
  apply in_map_iff in I. destruct I as (p & E & I).
  exists p. repeat split; [exact I | now symmetry | exact A].
Qed.



(** One particle on its own: it is there after [k] passes exactly if it
    passed the filter at each of them. *)
Lemma iter_tick_single (k : nat) (p : Particle num) :
  Nat.iter k tickParticles [p] =
    if forallb (fun j => alive (aged j p)) (seq 1 k) then [aged k p] else [].
Proof.
  induction k as [|k IH]; [reflexivity|].
  rewrite seq_S, forallb_app, Nat.iter_succ. cbn [forallb Nat.add].
  rewrite IH, andb_true_r.
  destruct (forallb (fun j => alive (aged j p)) (seq 1 k)); cbn [andb].
  - unfold tickParticles. cbn [map filter].
    change (tickParticle (aged k p)) with (aged (S k) p).
    change (life (aged (S k) p) >? of_Z 0) with (alive (aged (S k) p)).
    destruct (alive (aged (S k) p)); reflexivity.
  - reflexivity.
Qed.

(** The life of a particle runs down on its own. *)
Lemma life_aged (k : nat) (p : Particle num) :
  life (aged k p) = Nat.iter k (fun l => l - lit 1 100) (life p).
Proof.
  induction k as [|k IH]; [reflexivity|].
  unfold aged in *. rewrite !Nat.iter_succ, <- IH. reflexivity.
Qed.


End Particles.

Lemma life_table :
  forallb (fun k => PrimFloat.ltb (of_Z 0) (lifeAfter k)
                    && PrimFloat.ltb (lifeAfter (S k)) (lifeAfter k)) (seq 0 100) = true /\
  PrimFloat.ltb (of_Z 0) (lifeAfter 100) = false /\
  PrimFloat.leb (lifeAfter 100) (of_Z 0) = true.
Proof. vm_compute. repeat split. Qed.

Lemma life_positive (k : nat) :
  (k < 100)%nat ->
  PrimFloat.ltb (of_Z 0) (lifeAfter k) = true /\
  PrimFloat.ltb (lifeAfter (S k)) (lifeAfter k) = true.
Proof.
  intros K. destruct life_table as (T & _).
  rewrite forallb_forall in T.
  specialize (T k). rewrite in_seq in T.
  apply andb_true_iff, T. lia.
Qed.



(** *** The particles in the frame loop *)

Section SpawnedParticles.
Context {num : Type} `{JsNumber num}.
Local Open Scope js_scope.

(** The logic of a frame only ever appends particles, all with life 1,
    and appends none unless the frame shows a V sign. *)
Lemma processHands_particles (st : AppState num) (f : FrameInput num) :
  exists spawned,
    particlesRef (fst (processHands st f)) = particlesRef st ++ spawned /\
    Forall (fun q => life q = of_Z 1) spawned /\
    (gestureOf f <> V_SIGN -> spawned = []).
Proof.
  assert (Launched : forall rnd (s : AppState num),
            Forall (fun q => life q = of_Z 1) (newParticles rnd s)).
  { intros rnd s. eapply Forall_impl; [|apply newParticles_spec].
    intros q L. apply L. }
  assert (One : forall hand,
    exists spawned,
      particlesRef (fst (singleHand (isMenuOpen st) (random f)
                           (set_menuCursor None st) hand (width f) (height f))) =
        particlesRef st ++ spawned /\
      Forall (fun q => life q = of_Z 1) spawned /\
      (classify (handMetrics hand (width f) (height f)) <> V_SIGN -> spawned = [])).
  { intros hand. destruct (isMenuOpen st).
    - pose proof (singleHand_menu_open (random f) (set_menuCursor None st) hand
                    (width f) (height f)) as [_ K]. cbn zeta in K.
      destruct (classify (handMetrics hand (width f) (height f))) eqn:G.
      all: try (destruct K as (_ & _ & K); [discriminate|];
                exists []; rewrite app_nil_r; split; [exact K|];
                split; [constructor|reflexivity]).
      eexists. split; [|split; [apply Launched|intros N; now destruct N]].
      unfold singleHand. rewrite G. cbn [fst].
      rewrite dissolveDrawing_particles. reflexivity.
    - pose proof (singleHand_closed (random f) (set_menuCursor None st) hand
                    (width f) (height f)) as K. cbn zeta in K.
      destruct (classify (handMetrics hand (width f) (height f))) eqn:G;
        destruct K as (_ & _ & K).
      all: try (exists []; rewrite app_nil_r; split; [exact K|];
                split; [constructor|reflexivity]).
      eexists. split; [exact K|]. split; [apply Launched|intros N; now destruct N]. }
  unfold processHands, gestureOf. cbn zeta.
  destruct (landmarks f) as [|h1 [|h2 [|h3 r]]]; cbn [fst].
  - exists []. rewrite app_nil_r. repeat split. constructor.
  - apply One.
  - exists []. rewrite app_nil_r.
    split; [etransitivity; [apply zoomHands_frame|reflexivity]|].
    split; [constructor|reflexivity].
  - apply One.
Qed.

End SpawnedParticles.

Section ParticlesInFrames.
Context {num : Type} `{JsNumber num}.



End ParticlesInFrames.


(** *** The same in exact arithmetic *)

Section ExactParticles.
Local Open Scope R_scope.

Lemma life_exact (p : Particle R) (k : nat) :
  life p = 1 -> life (aged k p) = 1 - INR k / 100.
Proof.
  intros L. rewrite life_aged, L.
  induction k as [|k IH].
  - cbn. lra.
  - rewrite Nat.iter_succ, IH, S_INR. cbn [sub real_number].
    rewrite lit_real. lra.
Qed.

Lemma alive_exact (p : Particle R) (k : nat) :
  life p = 1 -> alive (aged k p) = true <-> (k < 100)%nat.
Proof.
  intros L. unfold alive. cbn [ltb real_number of_Z].
  rewrite Rltb_true, (life_exact p k L).
  assert (C : INR 100 = 100) by (rewrite INR_IZR_INZ; reflexivity).
  split; intros K.
  - apply INR_lt. rewrite C. lra.
  - apply lt_INR in K. rewrite C in K. lra.
Qed.

(** In exact arithmetic the life after [k] ticks is [1 - k / 100], and
    the particle is in the live set exactly for [k < 100]. *)
Lemma particle_lifetime_exact (p : Particle R) (k : nat) :
  life p = 1 ->
  Nat.iter k tickParticles [p] = if (k <? 100)%nat then [aged k p] else [].
Proof.
  intros L. rewrite iter_tick_single.
  destruct (Nat.ltb_spec k 100) as [K|K].
  - replace (forallb _ _) with true; [reflexivity|].
    symmetry. apply forallb_forall. intros j J. apply in_seq in J.
    apply (alive_exact p j L). lia.
  - replace (forallb _ _) with false; [reflexivity|].
    symmetry. apply not_true_is_false. intros A.
    rewrite forallb_forall in A. specialize (A 100%nat).
    rewrite in_seq in A. apply (alive_exact p 100 L) in A; lia.
Qed.

End ExactParticles.

(** ** A point drawn and then dissolved *)

Section DrawThenDissolve.
Context {num : Type} `{JsNumber num}.
Local Open Scope js_scope.

(** The indicator after the logic of a pinch frame: if the gesture that the
    closure of [renderCanvas] holds is a pinch, it sits at the world point
    just recorded, taken back to the screen; if not, none is drawn, pinch
    frame or not. *)
Lemma pinch_indicator (g : HandGesture) (st : AppState num) (f : FrameInput num)
    (hand : Hand num) :
  isMenuOpen st = false -> landmarks f = [hand] ->
  classify (handMetrics hand (width f) (height f)) = PINCH ->
  pinchIndicator g (fst (processHands st f)) =
    match g with
    | PINCH =>
        Some (screenPoint (transformRef st)
                (worldPoint (transformRef st) (pinchPoint hand f)))
    | _ => None
    end.
Proof.
  intros C E G.
  rewrite (processHands_one st f E), C.
  unfold singleHand. rewrite G. cbn [fst].
  unfold pinchIndicator. destruct g; try reflexivity. cbn.
  rewrite rev_unit. reflexivity.
Qed.

(** A pinch on an empty canvas followed by a V sign: the one particle
    spawned sits at the recorded world point taken back to the screen. *)
Lemma pinch_then_dissolve (st : AppState num) (f1 f2 : FrameInput num)
    (a b : Hand num) :
  isMenuOpen st = false -> linesRef st = [] -> currentLineRef st = [] ->
  landmarks f1 = [a] -> classify (handMetrics a (width f1) (height f1)) = PINCH ->
  landmarks f2 = [b] -> classify (handMetrics b (width f2) (height f2)) = V_SIGN ->
  let st1 := detect st f1 in
  map position
    (skipn (length (particlesRef st1)) (particlesRef (fst (processHands st1 f2)))) =
    [screenPoint (transformRef st) (worldPoint (transformRef st) (pinchPoint a f1))].
Proof.
  intros C L P E1 G1 E2 G2 st1. subst st1.
  destruct (pinch_frame st f1 C E1 G1) as (P1 & L1 & T1 & C1).
  destruct (v_sign_dissolve (detect st f1) f2 C1 E2 G2) as (_ & _ & sp & Q & _ & M & _).
  rewrite Q, skipn_app, Nat.sub_diag, skipn_all. cbn [app skipn].
  rewrite M, T1. unfold linesAfterFinish, finishedStroke.
  rewrite P1, L1, L, P. reflexivity.
Qed.

End DrawThenDissolve.

Section ExactTheorems.
Local Open Scope R_scope.

(** C10, as the code has it.  In exact arithmetic, for the transform of
    every state a run from the initial state reaches, the scale is not 0
    and the two conversions undo each other at every point; so a point
    drawn on an empty canvas and dissolved by the next frame spawns its
    particle at the pinch point.  The conversion of the pinch indicator
    obeys the same law where it is reached: [renderCanvas] draws the
    indicator only if the [currentGesture] held by its closure is a pinch,
    and then, after a pinch frame, at the pinch point itself; with any other
    gesture in the closure it draws none, whatever the frame shows.  (On
    doubles the round trip rounds twice and may miss the point; see
    [round_trip_rounds].) *)
Theorem conversions_inverse_exact (evs : list Event) (p : Point R) :
  let st := run (num := R) initialState evs in
  let tr := transformRef st in
  scale tr <> 0 /\
  screenPoint tr (worldPoint tr p) = p /\
  worldPoint tr (screenPoint tr p) = p /\
  (forall f1 f2 a b,
     isMenuOpen st = false -> linesRef st = [] -> currentLineRef st = [] ->
     landmarks f1 = [a] -> classify (handMetrics a (width f1) (height f1)) = PINCH ->
     landmarks f2 = [b] -> classify (handMetrics b (width f2) (height f2)) = V_SIGN ->
     map position
       (skipn (length (particlesRef (detect st f1)))
          (particlesRef (fst (processHands (detect st f1) f2)))) =
       [pinchPoint a f1]) /\
  (forall f hand,
     isMenuOpen st = false -> landmarks f = [hand] ->
     classify (handMetrics hand (width f) (height f)) = PINCH ->
     pinchIndicator PINCH (fst (processHands st f)) = Some (pinchPoint hand f)) /\
  (forall closureGesture (st' : AppState R),
     closureGesture <> PINCH -> pinchIndicator closureGesture st' = None).
Proof.
  intros st tr.
  assert (S : scale tr <> 0).
  { pose proof (run_scale_in_range evs initial_scale_in_range) as I.
    unfold scale_in_range in I. subst tr st. lra. }
  split; [exact S|]. split; [now apply screen_of_world|].
  split; [now apply world_of_screen|]. split; [|split].
  - intros f1 f2 a b C L P E1 G1 E2 G2.
    rewrite (pinch_then_dissolve st f1 f2 C L P E1 G1 E2 G2).
    f_equal. now apply screen_of_world.
  - intros f hand C E G. rewrite (pinch_indicator PINCH st f C E G).
    f_equal. now apply screen_of_world.
  - intros g st' N. destruct g; try reflexivity. congruence.
Qed.

End ExactTheorems.



(** ** The dwell timer *)

Section Dwell.
Context {num : Type} `{JsNumber num}.
Local Open Scope Z_scope.

Lemma fold_visit_hits (c : Point num) (elements : list (MenuItem num))
    (acc : MenuState num * bool) :
  fold_left (visit c) elements acc = fold_left (visit c) (hits c elements) acc.
Proof.
  revert acc. induction elements as [|el els IH]; intros acc; [reflexivity|].
  unfold hits. cbn [filter fold_left].
  destruct (inside c (rect el)) eqn:I; cbn [fold_left].
  - apply IH.
  - replace (visit c acc el) with acc; [apply IH|].
    unfold visit. destruct acc. now rewrite I.
Qed.

(** A render with the cursor outside every element. *)
Lemma hitTest_outside (c : Point num) (elements : list (MenuItem num))
    (ms : MenuState num) :
  hits c elements = [] ->
  hitTest true (Some c) elements ms = clearHoverTimer (set_hovered None ms).
Proof.
  intros N. unfold hitTest. cbn [negb]. rewrite fold_visit_hits, N. reflexivity.
Qed.

(** A render with the cursor on elements of the hovered identifier. *)
Lemma hitTest_same (c : Point num) (elements : list (MenuItem num))
    (ms : MenuState num) (id : string) :
  hoveredElementRef ms = Some id ->
  hits c elements <> [] -> Forall (fun el => itemId el = id) (hits c elements) ->
  hitTest true (Some c) elements ms = ms.
Proof.
  intros Hov NE F. unfold hitTest. cbn [negb]. rewrite fold_visit_hits.
  assert (I : Forall (fun el => inside c (rect el) = true) (hits c elements)).
  { apply Forall_forall. intros el E. unfold hits in E. now apply filter_In in E. }
  assert (G : forall l b, l <> [] \/ b = true ->
                Forall (fun el => itemId el = id) l ->
                Forall (fun el => inside c (rect el) = true) l ->
                fold_left (visit c) l (ms, b) = (ms, true)).
  { induction l as [|el l IH]; intros b B Fl Il.
    - destruct B as [B|B]; [congruence | now subst].
    - apply Forall_cons_iff in Fl as (Fe & Fl'), Il as (Ie & Il').
      cbn [fold_left].
      replace (visit c (ms, b) el) with (ms, true).
      + apply IH; auto.
      + unfold visit. rewrite Ie, Hov, Fe. cbn [same_id].
        now rewrite String.eqb_refl. }
  rewrite (G _ false (or_introl NE) F I). reflexivity.
Qed.

(** A render at which the cursor enters the one element [el], whose
    identifier is not the hovered one. *)
Lemma hitTest_enter (c : Point num) (elements : list (MenuItem num))
    (ms : MenuState num) (el : MenuItem num) :
  hits c elements = [el] -> same_id (hoveredElementRef ms) (itemId el) = false ->
  hitTest true (Some c) elements ms =
    startHoverTimer el (clearHoverTimer (set_hovered (Some (itemId el)) ms)).
Proof.
  intros E N. unfold hitTest. cbn [negb]. rewrite fold_visit_hits, E.
  cbn [fold_left]. unfold visit.
  assert (I : inside c (rect el) = true).
  { assert (In el (hits c elements)) as J by (rewrite E; now left).
    unfold hits in J. now apply filter_In in J. }
  now rewrite I, N.
Qed.

Lemma clearHoverTimer_tidy (ms : MenuState num) :
  tidy ms -> timers (clearHoverTimer ms) = [].
Proof.
  intros T. unfold clearHoverTimer.
  destruct (hoverTimerRef ms) as [h|] eqn:R.
  - cbn. unfold tidy in T. rewrite R in T.
    induction (timers ms) as [|t ts IH]; [reflexivity|].
    cbn [filter]. assert (E : Some h = Some (handle t)) by (apply T; now left).
    injection E as <-. rewrite Nat.eqb_refl. cbn [negb].
    apply IH. intros u U. apply T. now right.
  - destruct (timers ms) as [|t ts] eqn:E; [reflexivity|].
    specialize (T t). rewrite E, R in T. discriminate T. now left.
Qed.

End Dwell.

Section DwellOnce.
Context {num : Type} `{JsNumber num}.
Local Open Scope Z_scope.

Lemma enter_dwelling (c : Point num) (elements : list (MenuItem num))
    (ms : MenuState num) (el : MenuItem num) :
  tidy ms -> hits c elements = [el] ->
  same_id (hoveredElementRef ms) (itemId el) = false ->
  dwelling el (now ms) (selected ms) (hitTest true (Some c) elements ms).
Proof.
  intros T E N. rewrite (@hitTest_enter _ _ c elements ms el E N).
  assert (C : timers (clearHoverTimer (set_hovered (Some (itemId el)) ms)) = [])
    by (apply clearHoverTimer_tidy; exact T).
  unfold dwelling, startHoverTimer. cbn.
  rewrite C.
  assert (A : forall m : MenuState num,
            hoveredElementRef (clearHoverTimer m) = hoveredElementRef m /\
            now (clearHoverTimer m) = now m /\
            selected (clearHoverTimer m) = selected m /\
            nextHandle (clearHoverTimer m) = nextHandle m).
  { intros m. unfold clearHoverTimer. destruct (hoverTimerRef m); cbn; tauto. }
  destruct (A (set_hovered (Some (itemId el)) ms)) as (A1 & A2 & A3 & A4).
  rewrite A1, A2, A3. cbn.
  split; [reflexivity|]. split; [lia|]. left.
  split; [unfold dwell; lia|]. split; [|reflexivity].
  eexists. reflexivity.
Qed.

Lemma stays_dwelling (el : MenuItem num) (t0 : Z) (sel0 : list (Z * Selection))
    (ms : MenuState num) (ev : MenuEvent) :
  dwelling el t0 sel0 ms -> stays (itemId el) ev ->
  dwelling el t0 sel0 (menuStep ms ev).
Proof.
  intros (Hov & T0 & D) S. destruct ev as [o c els | dt]; cbn [menuStep stays] in *.
  - assert (E : hitTest o c els ms = ms).
    { destruct S as [-> | [-> | (p & -> & NE & F)]].
      - reflexivity.
      - unfold hitTest. destruct o; reflexivity.
      - destruct o; [|reflexivity]. now apply hitTest_same with (id := itemId el). }
    rewrite E. repeat split; assumption.
  - unfold elapse, dwelling. cbn.
    split; [exact Hov|]. split; [lia|].
    destruct D as [(B & (h & Tm) & Sel) | (A & Tm & Sel)]; rewrite Tm, Sel; cbn.
    + destruct (Z.leb_spec (t0 + dwell) (now ms + dt)) as [L|L]; cbn;
        rewrite app_nil_r.
      * right. split; [lia|]. split; reflexivity.
      * left. split; [lia|]. split; [now exists h | reflexivity].
    + right. rewrite app_nil_r. split; [lia|]. split; reflexivity.
Qed.

Lemma run_dwelling (el : MenuItem num) (t0 : Z) (sel0 : list (Z * Selection))
    (evs : list MenuEvent) (ms : MenuState num) :
  dwelling el t0 sel0 ms -> Forall (stays (itemId el)) evs ->
  dwelling el t0 sel0 (menuRun ms evs).
Proof.
  revert ms. induction evs as [|ev evs IH]; intros ms D F; [exact D|].
  apply Forall_cons_iff in F as (S & F). cbn [menuRun fold_left].
  apply IH; [|exact F]. now apply stays_dwelling.
Qed.

(** One selection per hover.  From a tidy state, let the cursor enter the
    element [el] and let the hover on it go on through any events; then
    what has been selected since is nothing as long as less than the dwell
    time has passed, and from then on exactly the calls of the element's
    callback, made at the dwell time. *)
Lemma dwell_fires_once (c : Point num) (elements : list (MenuItem num))
    (ms0 : MenuState num) (el : MenuItem num) (evs : list MenuEvent) :
  tidy ms0 -> hits c elements = [el] ->
  same_id (hoveredElementRef ms0) (itemId el) = false ->
  Forall (stays (itemId el)) evs ->
  let ms := menuRun (hitTest true (Some c) elements ms0) evs in
  selected ms =
    selected ms0
    ++ (if now ms0 + dwell <=? now ms
        then map (pair (now ms0 + dwell)) (callback el) else []).
Proof.
  intros T E N F ms.
  pose proof (@run_dwelling el (now ms0) (selected ms0) evs _
                (@enter_dwelling c elements ms0 el T E N) F) as D.
  fold ms in D. destruct D as (_ & _ & [(B & _ & S) | (A & _ & S)]).
  - destruct (Z.leb_spec (now ms0 + dwell) (now ms)); [lia|].
    now rewrite app_nil_r.
  - destruct (Z.leb_spec (now ms0 + dwell) (now ms)); [exact S | lia].
Qed.

(** The callback of an item of the menu makes one call of [onSelect],
    carrying the item's type and value. *)
Lemma callback_one (el : MenuItem num) :
  (data_type el = "color"%string -> callback el = [SelectColor (data_value el)]) /\
  (data_type el = "size"%string -> callback el = [SelectSize (data_value el)]) /\
  (data_type el = "tool"%string -> callback el = [SelectTool (data_value el)]).
Proof. unfold callback. repeat split; intros ->; reflexivity. Qed.

(** Leaving every element cancels the pending dwell timeout: none is pending,
    nothing is hovered, and no passing of time selects anything. *)
Lemma leave_cancels (c : Point num) (elements : list (MenuItem num))
    (ms : MenuState num) :
  tidy ms -> hits c elements = [] ->
  let ms' := hitTest true (Some c) elements ms in
  timers ms' = [] /\ hoveredElementRef ms' = None /\
  forall dts, selected (menuRun ms' (map Elapse dts)) = selected ms.
Proof.
  intros T N ms'. subst ms'. rewrite (@hitTest_outside _ _ c elements ms N).
  assert (C : timers (clearHoverTimer (set_hovered None ms)) = [])
    by (apply clearHoverTimer_tidy; exact T).
  split; [exact C|].
  assert (S : selected (clearHoverTimer (set_hovered None ms)) = selected ms
              /\ hoveredElementRef (clearHoverTimer (set_hovered None ms)) = None).
  { unfold clearHoverTimer. cbn. destruct (hoverTimerRef ms); cbn; tauto. }
  split; [apply S|]. destruct S as (S & _). revert C S.
  generalize (clearHoverTimer (set_hovered None ms)). intros m C S dts.
  revert m C S. induction dts as [|dt dts IH]; intros m C S; [exact S|].
  cbn [map menuRun fold_left menuStep]. apply IH.
  - unfold elapse. cbn. now rewrite C.
  - unfold elapse. cbn. rewrite C. cbn. now rewrite app_nil_r.
Qed.

(** Moving onto another element cancels the pending dwell timeout and starts
    that element's own. *)
Lemma change_cancels (c : Point num) (elements : list (MenuItem num))
    (ms : MenuState num) (el : MenuItem num) :
  tidy ms -> hits c elements = [el] ->
  same_id (hoveredElementRef ms) (itemId el) = false ->
  timers (hitTest true (Some c) elements ms) =
    [mkTimer (nextHandle ms) (now ms + dwell) el].
Proof.
  intros T E N. rewrite (@hitTest_enter _ _ c elements ms el E N).
  unfold startHoverTimer. cbn.
  rewrite clearHoverTimer_tidy by exact T.
  unfold clearHoverTimer. cbn. destruct (hoverTimerRef ms); reflexivity.
Qed.

(** The effect returns at once when the menu is closed or there is no
    cursor: the pending timeout is left to run. *)
Lemma closed_menu_keeps_timer (cursorPos : option (Point num))
    (elements : list (MenuItem num)) (ms : MenuState num) :
  hitTest false cursorPos elements ms = ms /\ hitTest true None elements ms = ms.
Proof. split; reflexivity. Qed.

(** So closing the menu, or losing the cursor, in the middle of a hover
    does not stop the selection: it is made when the dwell time is over. *)
Lemma closing_does_not_cancel (c : Point num) (elements : list (MenuItem num))
    (ms0 : MenuState num) (el : MenuItem num) (cursorPos : option (Point num))
    (a b : Z) :
  tidy ms0 -> hits c elements = [el] ->
  same_id (hoveredElementRef ms0) (itemId el) = false ->
  0 <= a < dwell -> dwell <= a + b ->
  selected
    (menuRun (hitTest true (Some c) elements ms0)
       [Elapse a; Render false cursorPos elements; Elapse b]) =
    selected ms0 ++ map (pair (now ms0 + dwell)) (callback el).
Proof.
  intros T E N A B.
  pose proof (@dwell_fires_once c elements ms0 el
                [Elapse a; Render false cursorPos elements; Elapse b] T E N) as D.
  cbv zeta in D. rewrite D.
  - assert (Nw : now (menuRun (hitTest true (Some c) elements ms0)
                        [Elapse a; Render false cursorPos elements; Elapse b])
                 = now ms0 + a + b).
    { rewrite (@hitTest_enter _ _ c elements ms0 el E N).
      unfold menuRun, startHoverTimer, clearHoverTimer. cbn.
      destruct (hoverTimerRef ms0); reflexivity. }
    rewrite Nw. destruct (Z.leb_spec (now ms0 + dwell) (now ms0 + a + b)); [reflexivity|lia].
  - repeat constructor; cbn; [lia | lia].
Qed.

Lemma clearHoverTimer_keeps_tidy (ms : MenuState num) :
  tidy ms -> tidy (clearHoverTimer ms).
Proof.
  intros T t I. rewrite clearHoverTimer_tidy in I by exact T. destruct I.
Qed.

Lemma visit_tidy (c : Point num) (acc : MenuState num * bool) (el : MenuItem num) :
  tidy (fst acc) -> tidy (fst (visit c acc el)).
Proof.
  destruct acc as [ms b]. cbn [fst]. intros T. unfold visit.
  destruct (inside c (rect el)); [|exact T].
  destruct (same_id (hoveredElementRef ms) (itemId el)); [exact T|].
  cbn [fst]. intros t I. unfold startHoverTimer in *. cbn in *.
  rewrite clearHoverTimer_tidy in I by exact T.
  destruct I as [<-|[]]. reflexivity.
Qed.

(** Tidiness holds at the start and through every event. *)
Lemma menuStep_tidy (ms : MenuState num) (ev : MenuEvent) :
  tidy ms -> tidy (menuStep ms ev).
Proof.
  intros T. destruct ev as [o c els | dt]; cbn [menuStep].
  - unfold hitTest. destruct o; [|exact T]. cbn [negb]. destruct c as [p|]; [|exact T].
    assert (F : forall l acc, tidy (fst acc) -> tidy (fst (fold_left (visit p) l acc))).
    { induction l as [|el l IH]; intros acc A; [exact A|].
      cbn [fold_left]. apply IH. now apply visit_tidy. }
    specialize (F els (ms, false) T).
    destruct (fold_left (visit p) els (ms, false)) as [ms' found]. cbn [fst] in F.
    destruct found; [exact F|].
    apply clearHoverTimer_keeps_tidy. exact F.
  - intros t I. unfold elapse in I. cbn in I. apply filter_In in I. now apply T.
Qed.

Lemma reachable_tidy (evs : list MenuEvent) : tidy (menuRun initialMenu evs).
Proof.
  assert (G : forall ms, tidy ms -> tidy (menuRun ms evs)).
  { induction evs as [|ev evs IH]; intros ms T; [exact T|].
    cbn [menuRun fold_left]. apply IH. now apply menuStep_tidy. }
  apply G. intros t [].
Qed.

End DwellOnce.

(** ** Runs on doubles *)

Module Runs.
Import Samples.
Local Open Scope string_scope.

Lemma differ {A : Type} (f : A -> bool) (a b : A) :
  f a = true -> f b = false -> a <> b.
Proof. intros Fa Fb E. rewrite E in Fa. congruence. Qed.

(** The hover sessions of the specification's scenario: nothing is
    selected after 799 ms on an item, one selection is made at 800 ms and
    it stays the only one at 2000 ms; leaving or changing the item before
    the dwell time selects nothing from the first item; and a second
    selection takes leaving, coming back and another 800 ms. *)
Example dwell_scenario :
  selected (menuRun initialMenu [Render true (Some onColor) items; Elapse 799]) = [] /\
  selected (menuRun initialMenu [Render true (Some onColor) items; Elapse 799; Elapse 1])
    = [(800%Z, SelectColor "#FF0055")] /\
  selected (menuRun initialMenu
              [Render true (Some onColor) items; Elapse 800;
               Render true (Some onColor) items; Elapse 1200])
    = [(800%Z, SelectColor "#FF0055")] /\
  selected (menuRun initialMenu
              [Render true (Some onColor) items; Elapse 400;
               Render true (Some offItems) items; Elapse 4000]) = [] /\
  selected (menuRun initialMenu
              [Render true (Some onColor) items; Elapse 400;
               Render true (Some onEraser) items; Elapse 4000])
    = [(1200%Z, SelectTool "eraser")] /\
  selected (menuRun initialMenu
              [Render true (Some onColor) items; Elapse 2000;
               Render true (Some offItems) items;
               Render true (Some onColor) items; Elapse 799])
    = [(800%Z, SelectColor "#FF0055")] /\
  selected (menuRun initialMenu
              [Render true (Some onColor) items; Elapse 2000;
               Render true (Some offItems) items;
               Render true (Some onColor) items; Elapse 800])
    = [(800%Z, SelectColor "#FF0055"); (2800%Z, SelectColor "#FF0055")].
Proof. vm_compute. repeat split. Qed.

(** C1, where the code departs from it.  The cursor comes onto an item at
    time 0 and the menu is closed at 400 ms: the effect returns at its
    first line, the timeout stays pending, and at 800 ms it selects the
    item although the menu is closed.  The same happens when the cursor
    is lost ([cursorPos] is null) instead. *)
Theorem closed_menu_still_selects :
  let closed := menuRun initialMenu
                  [Render true (Some onColor) items; Elapse 400;
                   Render false None items] in
  let lost := menuRun initialMenu
                [Render true (Some onColor) items; Elapse 400;
                 Render true None items] in
  length (timers closed) = 1%nat /\
  selected (elapse 400 closed) = [(800%Z, SelectColor "#FF0055")] /\
  length (timers lost) = 1%nat /\
  selected (elapse 400 lost) = [(800%Z, SelectColor "#FF0055")].
Proof. vm_compute. repeat split. Qed.

(** C2, where the code departs from it.  Two hands 100 px apart, then a
    frame without hands, then two hands 300 px apart: the frame without
    hands leaves the stored distance of 100 in place, and the frame after
    it zooms by [(300 - 100) * 0.005], from scale 1 to scale 2. *)
Theorem zero_hands_keep_zoom_memory :
  let st := run (num := float) initialState [Frame (twoHands 100); Frame noHands] in
  prevPinchDistanceRef st = Some (of_Z 100) /\
  scale (transformRef st) = of_Z 1 /\
  scale (transformRef (detect st (twoHands 300))) = of_Z 2.
Proof. vm_compute. repeat split. Qed.


(** On doubles, at the extreme draws of [Math.random()], 0 and the largest
    double below 1: the velocities of a launched particle are at the ends
    of their ranges, -1 and just below 1 across, 1 and (rounded) 3 down. *)
Example velocities_at_extreme_draws :
  let below_one := PrimFloat.sub (of_Z 1) (lit 1 9007199254740992) in
  let across r := ((r - lit 5 10) * of_Z 2)%js in
  let down r := (r * of_Z 2 + of_Z 1)%js in
  PrimFloat.ltb below_one (of_Z 1) = true /\
  across (of_Z 0) = of_Z (-1) /\
  PrimFloat.leb (of_Z (-1)) (across below_one)
  && PrimFloat.ltb (across below_one) (of_Z 1) = true /\
  down (of_Z 0) = of_Z 1 /\
  PrimFloat.leb (of_Z 1) (down below_one)
  && PrimFloat.leb (down below_one) (of_Z 3) = true.
Proof. vm_compute. repeat split. Qed.

(** C4 fails as stated: with a line in progress and the menu closed, a
    frame with two hands, whose gesture is not a pinch, finishes nothing;
    nor does a frame without hands. *)
Lemma unfinished_line_counterexample :
  let st := detect (num := float) initialState (frame_of [pinchHand 300 300]) in
  let f := twoHands 100 in
  let st' := fst (processHands st f) in
  let st'' := fst (processHands st noHands) in
  isMenuOpen st = false /\ currentLineRef st <> [] /\
  snd (processHands st f) = TWO_FINGER_POINT /\
  linesRef st' <> (linesRef st ++ [finishedStroke st])%list /\
  currentLineRef st' <> [] /\
  snd (processHands st noHands) = UNKNOWN /\
  linesRef st'' <> (linesRef st ++ [finishedStroke st])%list /\
  currentLineRef st'' <> [].
Proof. vm_compute. repeat split; discriminate. Qed.

(** C7 fails as stated: a two-hand frame in which one hand's landmarks are
    NaN, met with a stored distance, has the distance NaN, the clamp
    writes NaN, and the scale is outside [[0.5, 3]]; it stays so through
    the frames that follow. *)
Lemma nan_landmark_leaves_the_range :
  let st := run (num := float) initialState MoreSamples.nanZoom in
  let s := scale (transformRef st) in
  let s' := scale (transformRef (run st [Frame (twoHands 100); Frame (twoHands 110)])) in
  float_is_nan s = true /\
  PrimFloat.leb (lit 5 10) s && PrimFloat.leb s (of_Z 3) = false /\
  PrimFloat.leb (lit 5 10) s' && PrimFloat.leb s' (of_Z 3) = false /\
  ~ Forall finiteZoom MoreSamples.nanZoom.
Proof.
  cbv zeta. repeat split; try (vm_compute; reflexivity).
  intros F. apply Forall_cons_iff in F. destruct F as [_ F].
  apply Forall_cons_iff in F. destruct F as [F _].
  vm_compute in F. discriminate.
Qed.

(** C10 fails as stated: at scale 1.05, reached by two frames, the pinch
    point (153, 300) goes to world space and back to
    (152.99999999999997, 300), which is where the particle of the following
    dissolve is placed, and the pinch indicator too when the closure of
    [renderCanvas] holds a pinch; and the world point (31, 61) comes back
    from the screen as another point. *)
Lemma round_trip_rounds :
  let st := zoomed in
  let tr := transformRef st in
  let hand := pinchHand 153 300 in
  let f := frame_of [hand] in
  let p := pinchPoint hand f in
  let w := mkPoint (of_Z 31) (of_Z 61) in
  isMenuOpen st = false /\ linesRef st = [] /\ currentLineRef st = [] /\
  PrimFloat.leb (lit 1 2) (scale tr) && PrimFloat.leb (scale tr) (of_Z 3) = true /\
  snd (processHands st f) = PINCH /\
  p = mkPoint (of_Z 153) (of_Z 300) /\
  screenPoint tr (worldPoint tr p) <> p /\
  worldPoint tr (screenPoint tr w) <> w /\
  map position
    (skipn (length (particlesRef (detect st f)))
       (particlesRef (fst (processHands (detect st f) (frame_of [vSignHand])))))
    <> [p] /\
  pinchIndicator PINCH (fst (processHands st f)) <> Some p.
Proof.
  cbv zeta. repeat split; try (vm_compute; reflexivity).
  - apply (differ (fun q => PrimFloat.ltb (x q) (of_Z 153))); vm_compute; reflexivity.
  - apply (differ (fun q => PrimFloat.ltb (of_Z 31) (x q))); vm_compute; reflexivity.
  - apply (differ (fun l => match l with
                            | q :: _ => PrimFloat.ltb (x q) (of_Z 153)
                            | [] => false
                            end)); vm_compute; reflexivity.
  - apply (differ (fun o => match o with
                            | Some q => PrimFloat.ltb (x q) (of_Z 153)
                            | None => false
                            end)); vm_compute; reflexivity.
Qed.

End Runs.

(** ** The theorems at sample inputs *)

Section Witnesses.
Import Samples.






Lemma drawing_branch_witness :
  currentLineRef
    (run (num := float) initialState
       [Frame (frame_of [pinchHand 300 300]); Frame (frame_of [pinchHand 310 305]);
        Frame (frame_of [pinchHand 320 300])])
  = [mkPoint (of_Z 300) (of_Z 300); mkPoint (of_Z 310) (of_Z 305);
     mkPoint (of_Z 320) (of_Z 300)].
Proof.
  destruct (@drawing_branch float _ initialState eq_refl) as (_ & T & _).
  rewrite (T (frame_of [pinchHand 300 300]) (frame_of [pinchHand 310 305])
             (frame_of [pinchHand 320 300])
             (pinchHand 300 300) (pinchHand 310 305) (pinchHand 320 300));
    try reflexivity; vm_compute; reflexivity.
Defined.

Lemma pinch_has_precedence_witness :
  let hand := pinchHand (num := float) 512 512 in
  let f := frame_of [hand] in
  let m := handMetrics hand (width f) (height f) in
  (PrimFloat.ltb (of_Z 40) (indexToMiddle m)
   && negb (ringExtended m) && negb (pinkyExtended m) = true) /\
  classify m = PINCH /\ snd (processHands initialState f) = PINCH.
Proof.
  cbv zeta. split; [vm_compute; reflexivity|].
  apply (@pinch_has_precedence float _ initialState
           (frame_of [pinchHand 512 512]) (pinchHand 512 512));
    vm_compute; reflexivity.
Defined.

Lemma two_hands_zoom_witness :
  let st := detect (num := float) initialState (twoHands 100) in
  snd (processHands st (twoHands 110)) = TWO_FINGER_POINT /\
  scale (transformRef (fst (processHands st (twoHands 110)))) = lit 105 100.
Proof.
  cbv zeta.
  destruct (@two_hands_zoom float _ (detect initialState (twoHands 100))
              (twoHands 110) _ _ eq_refl) as (G & _ & S & _).
  split; [exact G|].
  rewrite (S (of_Z 100)) by (vm_compute; reflexivity). vm_compute. reflexivity.
Defined.


Lemma menu_open_is_latched_witness :
  let opened := detect (num := float) initialState (frame_of [palmHand]) in
  isMenuOpen opened = true /\
  isMenuOpen (detect opened (frame_of [palmHand])) = true.
Proof.
  cbv zeta.
  destruct (@menu_open_is_latched float _ initialState) as (A & _).
  assert (O : isMenuOpen (detect (num := float) initialState (frame_of [palmHand])) = true).
  { apply (A (frame_of [palmHand]) palmHand); vm_compute; reflexivity. }
  split; [exact O|].
  destruct (@menu_open_is_latched float _
              (detect initialState (frame_of [palmHand]))) as (_ & B & _).
  apply B. exact O.
Defined.

Lemma scale_always_clamped_witness :
  let s := scale (transformRef
                    (run (num := float) initialState
                       [Frame (twoHands 100); Frame (twoHands 110)])) in
  PrimFloat.leb (lit 5 10) s && PrimFloat.leb s (of_Z 3) = true.
Proof.
  cbv zeta.
  destruct (scale_always_clamped [Frame (twoHands 100); Frame (twoHands 110)])
    as (_ & F & _).
  apply F. repeat (constructor; [vm_compute; reflexivity|]). constructor.
Defined.

Lemma conversions_inverse_exact_witness :
  let tr := transformRef
              (run (num := R) initialState
                 [Frame (twoHands 100); Frame (twoHands 110)]) in
  screenPoint tr (worldPoint tr (mkPoint 153 300)%R) = mkPoint 153%R 300%R.
Proof.
  cbv zeta.
  apply (conversions_inverse_exact
           [Frame (twoHands 100); Frame (twoHands 110)] (mkPoint 153 300)%R).
Defined.

(** The latch at work: an open palm opens the menu, and neither a second
    open palm nor a fist, a pinch, a V sign, two hands or no hand closes
    it. *)
Example latch_scenario :
  let opened := detect (num := float) initialState (frame_of [palmHand]) in
  isMenuOpen opened = true /\
  isMenuOpen
    (run opened
       [Frame (frame_of [palmHand]); Frame (frame_of [fistHand]);
        Frame (frame_of [pinchHand 300 300]); Frame (frame_of [vSignHand]);
        Frame (twoHands 100); Frame noHands]) = true /\
  isMenuOpen (run opened [Frame (frame_of [palmHand]); MenuClose]) = false.
Proof. vm_compute. repeat split. Qed.

End Witnesses.

(** ** The geometry helpers in exact arithmetic *)

Section GeometryExact.
Local Open Scope R_scope.

Lemma distance_real (p q : Point R) :
  distance p q = dist_euc (x q) (y q) (x p) (y p).
Proof. reflexivity. Qed.

Lemma sum_squares_zero (a b : R) : a * a + b * b = 0 -> a = 0 /\ b = 0.
Proof. intros E. apply Rplus_sqr_eq_0. exact E. Qed.

Lemma sum_squares_nonneg (a b : R) : 0 <= a * a + b * b.
Proof.
  pose proof (Rle_0_sqr a). pose proof (Rle_0_sqr b). unfold Rsqr in *. lra.
Qed.

(** X1. [distance] is a metric on the points: it is never negative, it is
    symmetric, it is zero exactly between a point and itself, and it obeys
    the triangle inequality. *)
Theorem distance_is_a_metric (p q r : Point R) :
  0 <= distance p q /\
  distance p q = distance q p /\
  (distance p q = 0 <-> p = q) /\
  distance p r <= distance p q + distance q r.
Proof.
  split; [apply sqrt_pos|]. split; [|split].
  - unfold distance, Math_pow2. cbn. f_equal. ring.
  - split.
    + intros E. unfold distance, Math_pow2 in E. cbn in E.
      apply sqrt_eq_0 in E; [|apply sum_squares_nonneg].
      apply sum_squares_zero in E. destruct E as [Ex Ey].
      destruct p as [px py], q as [qx qy]. cbn in *. f_equal; lra.
    + intros ->. unfold distance, Math_pow2. cbn.
      replace ((x q - x q) * (x q - x q) + (y q - y q) * (y q - y q)) with 0 by ring.
      apply sqrt_0.
  - rewrite !distance_real.
    rewrite Rplus_comm. apply triangle.
Qed.

(** X2. [lerp] starts at [start], ends at [end] and, for [t] between 0 and
    1, stays between the two. *)
Theorem lerp_between (a b t : R) :
  0 <= t <= 1 ->
  lerp a b 0 = a /\ lerp a b 1 = b /\
  Rmin a b <= lerp a b t <= Rmax a b.
Proof.
  intros T. unfold lerp. cbn.
  split; [ring|]. split; [ring|].
  unfold Rmin, Rmax. destruct (Rle_dec a b); split; nra.
Qed.

(** X3. [toScreen] puts a normalized point of the unit square inside the
    frame, turns the picture left to right (the left edge of the image is
    the right edge of the screen, and a point further right in the image is
    further left on the screen), and keeps the vertical order. *)
Theorem toScreen_mirrors_into_frame (nx ny nx' ny' w h : R) :
  0 <= w -> 0 <= h ->
  0 <= nx <= 1 -> 0 <= ny <= 1 ->
  (0 <= x (toScreen nx ny w h) <= w /\ 0 <= y (toScreen nx ny w h) <= h) /\
  x (toScreen 0 ny w h) = w /\ x (toScreen 1 ny w h) = 0 /\
  (nx <= nx' -> x (toScreen nx' ny' w h) <= x (toScreen nx ny w h)) /\
  (ny <= ny' -> y (toScreen nx ny w h) <= y (toScreen nx' ny' w h)).
Proof.
  intros W Hh X Y. unfold toScreen. cbn.
  repeat split; try nra.
Qed.

(** X4. [midPoint] is the point halfway: it does not depend on the order
    of its arguments and lies at half the distance from either. *)
Theorem midPoint_halves (p q : Point R) :
  midPoint p q = midPoint q p /\
  distance p (midPoint p q) = distance p q / 2 /\
  distance (midPoint p q) q = distance p q / 2.
Proof.
  assert (Hhalf : forall a b : R,
            sqrt (a / 2 * (a / 2) + b / 2 * (b / 2)) = sqrt (a * a + b * b) / 2).
  { intros a b.
    replace (a / 2 * (a / 2) + b / 2 * (b / 2)) with ((a * a + b * b) * (/ 2 * / 2)) by field.
    rewrite sqrt_mult; [|apply sum_squares_nonneg|lra]. rewrite sqrt_square; lra. }
  split; [|split].
  - unfold midPoint. cbn. f_equal; field.
  - unfold distance, midPoint, Math_pow2. cbn.
    rewrite <- Hhalf. f_equal. field.
  - unfold distance, midPoint, Math_pow2. cbn.
    rewrite <- Hhalf. f_equal. field.
Qed.

End GeometryExact.

(** ** The classifier and the frame loop, for every number structure *)

Section Gestures.
Context {num : Type} `{JsNumber num}.
Local Open Scope js_scope.

(** X5. The order of the rules of [classify] matters for one pair only.
    A hand is classified as a pinch exactly when the pinch test holds and
    as an open palm exactly when the palm test holds; the palm test excludes
    both other tests, so the one overlap is between the pinch and the V
    sign, where the pinch wins. *)
Theorem classify_by_rules (m : HandMetrics) :
  (classify m = PINCH <-> pinchRule m = true) /\
  (classify m = OPEN_PALM <-> palmRule m = true) /\
  (classify m = V_SIGN <-> vSignRule m = true /\ pinchRule m = false) /\
  (palmRule m = true -> pinchRule m = false /\ vSignRule m = false).
Proof.
  unfold classify, pinchRule, palmRule, vSignRule.
  destruct (pinchDist m <? of_Z 40), (middleExtended m), (ringExtended m),
    (pinkyExtended m), (wristToIndex m >? of_Z 100), (indexToMiddle m >? of_Z 40);
    cbn; repeat split; intros; try discriminate; try reflexivity;
    try (match goal with E : _ /\ _ |- _ => destruct E end; discriminate).
Qed.

Lemma processHands_gesture (st : AppState num) (f : FrameInput num) :
  snd (processHands st f) = gestureOf f.
Proof.
  unfold processHands, gestureOf.
  destruct (landmarks f) as [|h1 [|h2 [|h3 r]]]; reflexivity.
Qed.

Lemma dissolveDrawing_gesture (rnd : nat -> num) (st : AppState num) :
  currentGesture (dissolveDrawing rnd st) = currentGesture st.
Proof. apply dissolveDrawing_frame. Qed.

Lemma singleHand_currentGesture (b : bool) (rnd : nat -> num) (st : AppState num)
    (hand : Hand num) (w h : num) :
  currentGesture (fst (singleHand b rnd st hand w h)) = classify (handMetrics hand w h).
Proof.
  unfold singleHand. cbn [fst].
  destruct (classify (handMetrics hand w h)) eqn:G; destruct b; cbn;
    rewrite ?dissolveDrawing_gesture; cbn;
    try reflexivity; try (destruct (currentLineRef st); reflexivity).
Qed.

(** The gesture published to the React state: that of the single hand, and
    with no hand or two hands the one published before. *)
Lemma detect_currentGesture (st : AppState num) (f : FrameInput num) :
  currentGesture (detect st f) =
    match theHand f with
    | Some hand => classify (handMetrics hand (width f) (height f))
    | None => currentGesture st
    end.
Proof.
  unfold detect. etransitivity; [apply renderCanvas_frame|].
  unfold processHands, theHand.
  destruct (landmarks f) as [|h1 [|h2 [|h3 r]]]; cbn [fst].
  - reflexivity.
  - apply singleHand_currentGesture.
  - unfold zoomHands. destruct (prevPinchDistanceRef _); reflexivity.
  - apply singleHand_currentGesture.
Qed.

(** X6. The gesture held in the React state is never the closed fist and
    never the two-hand gesture, in any state that a run of frames and menu
    events reaches from the initial state: no rule of the classifier yields
    the fist, and the two-hand branch does not publish its gesture. *)
Theorem published_gesture_range (evs : list (Event (num := num))) :
  let g := currentGesture (run initialState evs) in
  g <> CLOSED_FIST /\ g <> TWO_FINGER_POINT /\
  (forall st f, snd (processHands st f) <> CLOSED_FIST).
Proof.
  assert (Inv : forall evs (st : AppState num),
            (currentGesture st <> CLOSED_FIST /\ currentGesture st <> TWO_FINGER_POINT) ->
            currentGesture (run st evs) <> CLOSED_FIST /\
            currentGesture (run st evs) <> TWO_FINGER_POINT).
  { clear evs. induction evs as [|ev evs IH]; intros st I; [exact I|].
    rewrite run_cons. apply IH. destruct ev as [f|u|]; cbn [step]; [|exact I ..].
    rewrite detect_currentGesture. destruct (theHand f) as [hand|]; [|exact I].
    destruct (classify_range (handMetrics hand (width f) (height f)))
      as [E|[E|[E|E]]]; rewrite E; split; discriminate. }
  cbn zeta. split; [apply Inv; cbn; split; discriminate|].
  split; [apply Inv; cbn; split; discriminate|].
  intros st f. rewrite processHands_gesture. unfold gestureOf.
  destruct (landmarks f) as [|h1 [|h2 [|h3 r]]]; try discriminate;
    match goal with |- classify ?m <> _ =>
      destruct (classify_range m) as [E|[E|[E|E]]]; rewrite E; discriminate end.
Qed.

Lemma singleHand_menuCursor (b : bool) (rnd : nat -> num) (st : AppState num)
    (hand : Hand num) (w h : num) :
  menuCursor (fst (singleHand b rnd st hand w h)) =
    if b then Some (indexTip (handMetrics hand w h)) else menuCursor st.
Proof.
  unfold singleHand. cbn [fst].
  destruct (classify (handMetrics hand w h)) eqn:G; destruct b; cbn;
    try reflexivity; try (destruct (currentLineRef st); reflexivity);
    (etransitivity; [apply dissolveDrawing_frame|]); cbn;
    try reflexivity; destruct (currentLineRef st); reflexivity.
Qed.

(** X9. The cursor handed to the menu after a frame is the index fingertip
    of the single hand on the screen if the menu was open when the frame
    began, and is absent in every other case: menu closed, no hand, or two
    hands. *)
Theorem menu_cursor_published (st : AppState num) (f : FrameInput num) :
  menuCursor (detect st f) =
    if isMenuOpen st
    then option_map (fun hand => indexOnScreen hand f) (theHand f)
    else None.
Proof.
  unfold detect. etransitivity; [apply renderCanvas_frame|].
  unfold processHands, theHand.
  destruct (landmarks f) as [|h1 [|h2 [|h3 r]]]; cbn [fst].
  - cbn. destruct (isMenuOpen st); reflexivity.
  - rewrite singleHand_menuCursor. destruct (isMenuOpen st); reflexivity.
  - unfold zoomHands. destruct (prevPinchDistanceRef _); cbn;
      destruct (isMenuOpen st); reflexivity.
  - rewrite singleHand_menuCursor. destruct (isMenuOpen st); reflexivity.
Qed.

(** The strokes and the line in progress after the logic of a frame. *)
Lemma processHands_drawing (st : AppState num) (f : FrameInput num) :
  let st' := fst (processHands st f) in
  match theHand f with
  | None => linesRef st' = linesRef st /\ currentLineRef st' = currentLineRef st
  | Some hand =>
      match gestureOf f with
      | V_SIGN => linesRef st' = [] /\ currentLineRef st' = []
      | PINCH =>
          linesRef st' = linesRef st /\
          currentLineRef st' =
            if isMenuOpen st then currentLineRef st
            else currentLineRef st ++ [worldPoint (transformRef st) (pinchPoint hand f)]
      | _ =>
          if isMenuOpen st
          then linesRef st' = linesRef st /\ currentLineRef st' = currentLineRef st
          else linesRef st' = linesAfterFinish st /\ currentLineRef st' = []
      end
  end.
Proof.
  assert (One : forall hand,
    let st' := fst (singleHand (isMenuOpen st) (random f) (set_menuCursor None st)
                      hand (width f) (height f)) in
    match classify (handMetrics hand (width f) (height f)) with
    | V_SIGN => linesRef st' = [] /\ currentLineRef st' = []
    | PINCH =>
        linesRef st' = linesRef st /\
        currentLineRef st' =
          if isMenuOpen st then currentLineRef st
          else currentLineRef st ++ [worldPoint (transformRef st) (pinchPoint hand f)]
    | _ =>
        if isMenuOpen st
        then linesRef st' = linesRef st /\ currentLineRef st' = currentLineRef st
        else linesRef st' = linesAfterFinish st /\ currentLineRef st' = []
    end).
  { intros hand. cbn zeta. destruct (isMenuOpen st).
    - pose proof (singleHand_menu_open (random f) (set_menuCursor None st) hand
                    (width f) (height f)) as [_ K]. cbn zeta in K.
      destruct (classify (handMetrics hand (width f) (height f))) eqn:G;
        try (destruct K as (K1 & K2 & _); [discriminate|]; split; assumption).
      unfold singleHand. rewrite G. cbn [fst]. apply dissolveDrawing_lines.
    - pose proof (singleHand_closed (random f) (set_menuCursor None st) hand
                    (width f) (height f)) as K. cbn zeta in K.
      destruct (classify (handMetrics hand (width f) (height f))) eqn:G;
        destruct K as (K1 & K2 & _); split; assumption. }
  unfold processHands, theHand, gestureOf. cbn zeta.
  destruct (landmarks f) as [|h1 [|h2 [|h3 r]]]; cbn [fst].
  - split; reflexivity.
  - apply One.
  - split; (etransitivity; [apply zoomHands_frame|reflexivity]).
  - apply One.
Qed.

Lemma detect_drawing (st : AppState num) (f : FrameInput num) :
  linesRef (detect st f) = linesRef (fst (processHands st f)) /\
  currentLineRef (detect st f) = currentLineRef (fst (processHands st f)).
Proof. unfold detect. split; apply renderCanvas_frame. Qed.

(** X10. While the menu is open the drawing is suspended: a frame changes
    neither the finished strokes nor the line in progress, whatever its
    hands do, a pinch included.  The one exception is the V sign, which
    dissolves the drawing even with the menu open. *)
Theorem open_menu_suspends_drawing (st : AppState num) (f : FrameInput num) :
  isMenuOpen st = true ->
  (gestureOf f <> V_SIGN ->
     linesRef (detect st f) = linesRef st /\
     currentLineRef (detect st f) = currentLineRef st) /\
  (gestureOf f = V_SIGN ->
     linesRef (detect st f) = [] /\ currentLineRef (detect st f) = []).
Proof.
  intros O. destruct (detect_drawing st f) as [-> ->].
  pose proof (processHands_drawing st f) as K. cbn zeta in K. rewrite O in K.
  unfold theHand, gestureOf in *.
  destruct (landmarks f) as [|h1 [|h2 [|h3 r]]].
  - split; [intros _; exact K | discriminate].
  - destruct (classify _); split; try (intros _; exact K); congruence.
  - split; [intros _; exact K | discriminate].
  - destruct (classify _); split; try (intros _; exact K); congruence.
Qed.

(** What an event does to the list of finished strokes. *)
Lemma step_lines (st : AppState num) (ev : Event) :
  (exists f, ev = Frame f /\ gestureOf f = V_SIGN /\ linesRef (step st ev) = []) \/
  linesRef (step st ev) = linesRef st \/
  (currentLineRef st <> [] /\ isMenuOpen st = false /\
   linesRef (step st ev) = linesRef st ++ [finishedStroke st]).
Proof.
  destruct ev as [f|u|]; cbn [step]; [|right; left; reflexivity ..].
  destruct (detect_drawing st f) as [-> _].
  pose proof (processHands_drawing st f) as K. cbn zeta in K.
  assert (F : linesAfterFinish st = linesRef st \/
              currentLineRef st <> [] /\
              linesAfterFinish st = linesRef st ++ [finishedStroke st]).
  { unfold linesAfterFinish. destruct (currentLineRef st); [left; reflexivity|].
    right. split; [discriminate|reflexivity]. }
  destruct (theHand f) as [hand|]; [|right; left; apply K].
  destruct (gestureOf f) eqn:G.
  all: try (destruct (isMenuOpen st); destruct K as [K _]; rewrite K;
            [right; left; reflexivity|];
            destruct F as [F|[F1 F2]]; [right; left; exact F|];
            right; right; split; [exact F1|split; [reflexivity|exact F2]]).
  - right; left. apply K.
  - left. exists f. split; [reflexivity|]. split; [exact G|apply K].
Qed.

(** X11. No finished stroke is empty: in every state that a run of frames
    and menu events reaches from the initial state, each stroke on the
    canvas has at least one point. *)
Theorem strokes_never_empty (evs : list (Event (num := num))) (s : Stroke num) :
  In s (linesRef (run initialState evs)) -> points s <> [].
Proof.
  assert (Inv : forall evs (st : AppState num),
            Forall (fun s => points s <> []) (linesRef st) ->
            Forall (fun s => points s <> []) (linesRef (run st evs))).
  { clear. induction evs as [|ev evs IH]; intros st I; [exact I|].
    rewrite run_cons. apply IH.
    destruct (step_lines st ev) as [(f & _ & _ & E)|[E|(C & _ & E)]]; rewrite E.
    - constructor.
    - exact I.
    - apply Forall_app. split; [exact I|]. constructor; [exact C|constructor]. }
  intros I. specialize (Inv evs initialState (Forall_nil _)).
  rewrite Forall_forall in Inv. now apply Inv.
Qed.

(** X12. Finished strokes stay until a dissolve.  Over any run of events
    none of which is a frame showing a V sign, the strokes finished before
    the run are still there afterwards, unchanged and in their order, at the
    head of the list; what the run has added comes after them, at most one
    stroke per event and none of them empty.  No stroke is ever altered,
    reordered or removed on its own. *)
Theorem strokes_append_only (st : AppState num) (evs : list (Event (num := num))) :
  Forall keepsDrawing evs ->
  exists added,
    linesRef (run st evs) = linesRef st ++ added /\
    (length added <= length evs)%nat /\
    Forall (fun s => points s <> []) added.
Proof.
  revert st. induction evs as [|ev evs IH]; intros st K.
  - exists []. rewrite app_nil_r. repeat split; [cbn; lia | constructor].
  - apply Forall_cons_iff in K. destruct K as [Kev K].
    rewrite run_cons. destruct (IH (step st ev) K) as (added & E & L & F).
    destruct (step_lines st ev) as [(f & -> & V & _)|[S|(C & _ & S)]].
    + destruct (Kev V).
    + exists added. rewrite E, S. repeat split; [cbn; lia | exact F].
    + exists (finishedStroke st :: added). rewrite E, S, <- app_assoc.
      repeat split; [cbn; lia|]. constructor; [exact C | exact F].
Qed.

End Gestures.

(** ** Settings, pan and dissolve *)

Section SettingsAndPan.
Context {num : Type} `{JsNumber num}.
Local Open Scope js_scope.

Lemma processHands_settings (st : AppState num) (f : FrameInput num) :
  let st' := fst (processHands st f) in
  settingsRef st' = settingsRef st /\
  offsetX (transformRef st') = offsetX (transformRef st) /\
  offsetY (transformRef st') = offsetY (transformRef st).
Proof.
  assert (One : forall b hand,
    let st' := fst (singleHand b (random f) (set_menuCursor None st) hand
                      (width f) (height f)) in
    settingsRef st' = settingsRef st /\
    offsetX (transformRef st') = offsetX (transformRef st) /\
    offsetY (transformRef st') = offsetY (transformRef st)).
  { intros b hand. cbn zeta.
    destruct (singleHand_transform b (random f) (set_menuCursor None st) hand
                (width f) (height f)) as [T _].
    rewrite T. split; [|split; reflexivity].
    unfold singleHand. cbn [fst].
    destruct (classify (handMetrics hand (width f) (height f))) eqn:G; destruct b; cbn;
      try reflexivity; try (destruct (currentLineRef st); reflexivity);
      (etransitivity; [apply dissolveDrawing_frame|]); cbn;
      try reflexivity; destruct (currentLineRef st); reflexivity. }
  unfold processHands. cbn zeta.
  destruct (landmarks f) as [|h1 [|h2 [|h3 r]]]; cbn [fst].
  - repeat split.
  - apply One.
  - pose proof (zoomHands_frame (set_menuCursor None st) h1 h2 (width f) (height f)) as K.
    cbn zeta in K. destruct K as (_ & _ & _ & _ & K1 & K2 & K3).
    rewrite K1, K2, K3. repeat split.
  - apply One.
Qed.

Lemma step_pan (st : AppState num) (ev : Event) :
  offsetX (transformRef (step st ev)) = offsetX (transformRef st) /\
  offsetY (transformRef (step st ev)) = offsetY (transformRef st).
Proof.
  destruct ev as [f|u|]; cbn [step]; [|split; reflexivity ..].
  unfold detect.
  replace (transformRef (renderCanvas (fst (processHands st f))))
    with (transformRef (fst (processHands st f)))
    by (symmetry; apply renderCanvas_frame).
  split; apply processHands_settings.
Qed.

(** X13. The view is never panned: both offsets of the transform are 0 in
    every state that a run of frames and menu events reaches from the
    initial state, and no event changes them from any state.  Zooming is
    therefore always about the canvas origin. *)
Theorem pan_is_never_applied (evs : list (Event (num := num))) :
  offsetX (transformRef (run initialState evs)) = of_Z 0 /\
  offsetY (transformRef (run initialState evs)) = of_Z 0 /\
  (forall st ev,
     offsetX (transformRef (step st ev)) = offsetX (transformRef st) /\
     offsetY (transformRef (step st ev)) = offsetY (transformRef st)).
Proof.
  assert (Inv : forall evs (st : AppState num),
            offsetX (transformRef (run st evs)) = offsetX (transformRef st) /\
            offsetY (transformRef (run st evs)) = offsetY (transformRef st)).
  { clear. induction evs as [|ev evs IH]; intros st; [split; reflexivity|].
    rewrite run_cons. destruct (IH (step st ev)) as [-> ->]. apply step_pan. }
  destruct (Inv evs initialState) as [-> ->].
  split; [reflexivity|]. split; [reflexivity|]. apply step_pan.
Qed.

(** X14. Only the menu changes the drawing settings: a run without a
    selection, whatever its frames show, ends with the colour, width and
    tool it began with. *)
Theorem only_the_menu_changes_settings (st : AppState num)
    (evs : list (Event (num := num))) :
  (forall u, ~ In (MenuSelect u) evs) ->
  settingsRef (run st evs) = settingsRef st.
Proof.
  revert st. induction evs as [|ev evs IH]; intros st N; [reflexivity|].
  rewrite run_cons, IH.
  - destruct ev as [f|u|]; cbn [step].
    + unfold detect. etransitivity; [apply renderCanvas_frame|].
      apply processHands_settings.
    + exfalso. apply (N u). now left.
    + reflexivity.
  - intros u I. apply (N u). now right.
Qed.

(** X15. Dissolving is idempotent, and on an empty canvas it does nothing:
    a second dissolve right after a first, with any random draws, changes
    nothing and spawns no particle. *)
Theorem dissolve_twice (r1 r2 : nat -> num) (st : AppState num) :
  dissolveDrawing r2 (dissolveDrawing r1 st) = dissolveDrawing r1 st /\
  (linesRef st = [] -> currentLineRef st = [] -> dissolveDrawing r1 st = st).
Proof.
  split.
  - destruct (dissolveDrawing_lines r1 st) as [L C].
    unfold dissolveDrawing at 1. rewrite L, C. reflexivity.
  - intros L C. unfold dissolveDrawing. rewrite L, C. reflexivity.
Qed.

Lemma handleMenuSelect_settings (u : PartialSettings num) (st : AppState num) :
  settingsRef (handleMenuSelect u st) = updated u (settingsRef st).
Proof. reflexivity. Qed.

(** X16. A stroke takes the settings in force when it is finished, not
    those in force while it was drawn.  If a selection of the menu arrives
    while a line is in progress and the next frame (menu closed, one hand,
    neither pinch nor V sign) finishes the line, the stroke appended holds
    all the points of the line with the updated colour, width and tool; the
    strokes finished before keep theirs. *)
Theorem stroke_takes_settings_at_finish (st : AppState num)
    (u : PartialSettings num) (f : FrameInput num) (hand : Hand num) :
  isMenuOpen st = false -> theHand f = Some hand ->
  gestureOf f <> PINCH -> gestureOf f <> V_SIGN ->
  currentLineRef st <> [] ->
  linesRef (run st [MenuSelect u; Frame f]) =
    linesRef st ++
    [ {| points := currentLineRef st;
         color := s_color (updated u (settingsRef st));
         size := s_size (updated u (settingsRef st));
         type := s_tool (updated u (settingsRef st)) |} ].
Proof.
  intros O T G1 G2 C. cbn [run fold_left step].
  destruct (detect_drawing (handleMenuSelect u st) f) as [-> _].
  pose proof (processHands_drawing (handleMenuSelect u st) f) as K.
  cbn zeta in K. rewrite T in K.
  change (isMenuOpen (handleMenuSelect u st)) with (isMenuOpen st) in K.
  rewrite O in K.
  assert (L : linesRef (fst (processHands (handleMenuSelect u st) f)) =
              linesAfterFinish (handleMenuSelect u st)).
  { destruct (gestureOf f); try congruence; apply K. }
  rewrite L. unfold linesAfterFinish, finishedStroke.
  change (currentLineRef (handleMenuSelect u st)) with (currentLineRef st).
  destruct (currentLineRef st) eqn:E; [congruence|]. reflexivity.
Qed.

(** X17. Selections compose as object spreads do: two updates in a row act
    as the one update that holds the fields of the second over those of the
    first, so the later selection wins field by field, an update applied
    twice acts as once, and no update touches anything but the settings. *)
Theorem handleMenuSelect_merge (u1 u2 : PartialSettings num) (st : AppState num) :
  handleMenuSelect u2 (handleMenuSelect u1 st) = handleMenuSelect (mergeUpdates u1 u2) st /\
  handleMenuSelect u1 (handleMenuSelect u1 st) = handleMenuSelect u1 st /\
  handleMenuSelect u1 st = set_settingsRef (updated u1 (settingsRef st)) st.
Proof.
  split; [|split; [|reflexivity]].
  - unfold handleMenuSelect, set_settingsRef, mergeUpdates. cbn.
    destruct (u_color u2), (u_size u2), (u_tool u2); reflexivity.
  - unfold handleMenuSelect, set_settingsRef. cbn.
    destruct (u_color u1), (u_size u1), (u_tool u1); reflexivity.
Qed.

End SettingsAndPan.

(** ** Dissolving with the menu open *)

Section DissolveOpen.
Context {num : Type} `{JsNumber num}.
Local Open Scope js_scope.

Lemma addParticlesFromLines_last (tr : Transform num) (rnd : nat -> num)
    (lines : list (Stroke num)) (s : Stroke num) (k : nat) :
  addParticlesFromLines tr rnd (lines ++ [s]) k =
    let '(qs, k1) := addParticlesFromLines tr rnd lines k in
    let '(rs, k2) :=
      addParticlesFromPoints tr rnd 0 (points s) (color s) (size s) k1 in
    (qs ++ rs, k2).
Proof.
  revert k. induction lines as [|line rest IH]; intros k;
    cbn [app addParticlesFromLines].
  - destruct (addParticlesFromPoints tr rnd 0 (points s) (color s) (size s) k)
      as [rs k2]. cbn. now rewrite app_nil_r.
  - destruct (addParticlesFromPoints tr rnd 0 (points line) (color line)
                (size line) k) as [qs k1].
    rewrite IH.
    destruct (addParticlesFromLines tr rnd rest k1) as [rs k2].
    destruct (addParticlesFromPoints tr rnd 0 (points s) (color s) (size s) k2)
      as [ts k3].
    now rewrite app_assoc.
Qed.

(** Finishing the line in progress first does not change the particles of
    a dissolve. *)
Lemma newParticles_finished (rnd : nat -> num) (st : AppState num) :
  newParticles rnd (set_currentLineRef [] (set_linesRef (linesAfterFinish st) st)) =
    newParticles rnd st.
Proof.
  unfold newParticles, linesAfterFinish, finishedStroke. cbn.
  destruct (currentLineRef st) as [|p rest] eqn:C.
  - reflexivity.
  - rewrite addParticlesFromLines_last. cbn [points color size].
    destruct (addParticlesFromLines (transformRef st) rnd (linesRef st) 0)
      as [qs k1].
    destruct (addParticlesFromPoints (transformRef st) rnd 0 (p :: rest)
                (s_color (settingsRef st)) (s_size (settingsRef st)) k1)
      as [rs k2].
    now rewrite app_nil_r.
Qed.

(** X18. A V sign dissolves the same drawing into the same particles
    whether the menu is open or closed.  With the menu closed the line in
    progress is first finished into a stroke, with the menu open it is
    dissolved as it is; the particles spawned, their order and the draws of
    [Math.random()] they use are the same, and in both cases no stroke and
    no line in progress is left. *)
Theorem dissolve_same_with_menu_open (st : AppState num) (f : FrameInput num)
    (hand : Hand num) :
  theHand f = Some hand -> gestureOf f = V_SIGN ->
  let opened := fst (processHands (set_isMenuOpen true st) f) in
  let closed := fst (processHands (set_isMenuOpen false st) f) in
  particlesRef opened = particlesRef closed /\
  particlesRef opened = particlesRef st ++ newParticles (random f) st /\
  linesRef opened = [] /\ currentLineRef opened = [] /\
  linesRef closed = [] /\ currentLineRef closed = [].
Proof.
  intros T G.
  assert (One : forall h0,
    classify (handMetrics h0 (width f) (height f)) = V_SIGN ->
    let opened := fst (singleHand true (random f)
                         (set_menuCursor None (set_isMenuOpen true st)) h0
                         (width f) (height f)) in
    let closed := fst (singleHand false (random f)
                         (set_menuCursor None (set_isMenuOpen false st)) h0
                         (width f) (height f)) in
    particlesRef opened = particlesRef closed /\
    particlesRef opened = particlesRef st ++ newParticles (random f) st /\
    linesRef opened = [] /\ currentLineRef opened = [] /\
    linesRef closed = [] /\ currentLineRef closed = []).
  { intros h0 V. cbn zeta.
    pose proof (singleHand_closed (random f)
                  (set_menuCursor None (set_isMenuOpen false st)) h0
                  (width f) (height f)) as K.
    cbn zeta in K. rewrite V in K. destruct K as (K1 & K2 & K3).
    assert (O : particlesRef (fst (singleHand true (random f)
                  (set_menuCursor None (set_isMenuOpen true st)) h0
                  (width f) (height f))) =
                particlesRef st ++ newParticles (random f) st).
    { unfold singleHand. rewrite V. cbn [fst].
      rewrite dissolveDrawing_particles. cbn [particlesRef set_menuCursor
        set_currentGesture set_prevPinchDistanceRef set_isMenuOpen].
      reflexivity. }
    assert (OL : linesRef (fst (singleHand true (random f)
                  (set_menuCursor None (set_isMenuOpen true st)) h0
                  (width f) (height f))) = [] /\
                 currentLineRef (fst (singleHand true (random f)
                  (set_menuCursor None (set_isMenuOpen true st)) h0
                  (width f) (height f))) = []).
    { unfold singleHand. rewrite V. cbn [fst]. apply dissolveDrawing_lines. }
    split; [|split; [exact O|]].
    - rewrite O, K3. cbn [particlesRef set_menuCursor set_isMenuOpen]. f_equal.
      rewrite <- (newParticles_finished (random f) st).
      apply newParticles_ext; reflexivity.
    - destruct OL as [OL1 OL2]. repeat split; assumption. }
  unfold theHand, gestureOf in *. unfold processHands. cbn zeta.
  change (isMenuOpen (set_isMenuOpen true st)) with true.
  change (isMenuOpen (set_isMenuOpen false st)) with false.
  destruct (landmarks f) as [|h1 [|h2 [|h3 r]]]; try discriminate.
  - now apply One.
  - now apply One.
Qed.

End DissolveOpen.

(** ** More of the program in exact arithmetic *)

Section MoreExact.
Local Open Scope R_scope.

Lemma screen_distance_shift (a b c d dx dy w h : R) :
  distance (toScreen (a + dx) (b + dy) w h) (toScreen (c + dx) (d + dy) w h) =
  distance (toScreen a b w h) (toScreen c d w h).
Proof.
  unfold distance, toScreen, Math_pow2. cbn. f_equal. ring.
Qed.

Lemma screen_distance_mirror (a b c d w h : R) :
  distance (toScreen (1 - a) b w h) (toScreen (1 - c) d w h) =
  distance (toScreen a b w h) (toScreen c d w h).
Proof.
  unfold distance, toScreen, Math_pow2. cbn. f_equal. ring.
Qed.

(** X7. In exact arithmetic the classifier looks at the shape of the hand
    only: moving all its landmarks by the same amount, or mirroring the
    hand left to right, does not change the gesture.  It cannot tell where
    in the frame the hand is, nor a left hand from a right hand. *)
Theorem classify_shape_only (hand : Hand R) (dx dy w h : R) :
  classify (handMetrics (shifted dx dy hand) w h) = classify (handMetrics hand w h) /\
  classify (handMetrics (mirrored hand) w h) = classify (handMetrics hand w h).
Proof.
  unfold classify, handMetrics, shifted, mirrored.
  cbn [pinchDist middleExtended ringExtended pinkyExtended wristToIndex
       indexToMiddle x y].
  rewrite !screen_distance_shift, !screen_distance_mirror.
  split; reflexivity.
Qed.

Lemma zoom_frame_scale (st : AppState R) (f : FrameInput R) (h1 h2 : Hand R)
    (prev : R) :
  landmarks f = [h1; h2] -> prevPinchDistanceRef st = Some prev ->
  scale (transformRef (detect st f)) =
    clamp (scale (transformRef st)
           + (distance (indexOnScreen h1 f) (indexOnScreen h2 f) - prev) * (5 / 1000))
      (1 / 2) 3.
Proof.
  intros E P. unfold detect.
  replace (transformRef (renderCanvas (fst (processHands st f))))
    with (transformRef (fst (processHands st f)))
    by (symmetry; apply renderCanvas_frame).
  destruct (two_hands_zoom st f E) as (_ & _ & Z & _).
  rewrite (Z prev P), !lit_real. cbn [add sub mul of_Z real_number].
  f_equal. lra.
Qed.

(** X8. In exact arithmetic the zoom follows the hands.  On a two-hand
    frame met with a stored distance and a scale within [[0.5, 3]]: hands
    as far apart as before leave the scale as it is, hands further apart
    never lower it, hands closer never raise it, and the scale moves by at
    most 0.005 per pixel of change in the distance. *)
Theorem zoom_follows_the_hands (st : AppState R) (f : FrameInput R)
    (h1 h2 : Hand R) (prev : R) :
  landmarks f = [h1; h2] -> prevPinchDistanceRef st = Some prev ->
  1 / 2 <= scale (transformRef st) <= 3 ->
  let d := distance (indexOnScreen h1 f) (indexOnScreen h2 f) in
  let s := scale (transformRef st) in
  let s' := scale (transformRef (detect st f)) in
  (d = prev -> s' = s) /\
  (prev <= d -> s <= s') /\
  (d <= prev -> s' <= s) /\
  Rabs (s' - s) <= Rabs (d - prev) * (5 / 1000).
Proof.
  intros E P S d s s'. subst s'. rewrite (zoom_frame_scale st f E P).
  fold d. fold s. fold s in S. clearbody d s.
  set (v := s + (d - prev) * (5 / 1000)).
  destruct (@clamp_real v (1 / 2) 3 ltac:(lra)) as (_ & Mid & Lo & Hi).
  assert (C : clamp v (1 / 2) 3 = v /\ 1 / 2 <= v <= 3 \/
              clamp v (1 / 2) 3 = 1 / 2 /\ v <= 1 / 2 \/
              clamp v (1 / 2) 3 = 3 /\ 3 <= v).
  { destruct (Rle_dec v (1 / 2)); [right; left; split; [apply Lo|]; lra|].
    destruct (Rle_dec 3 v); [right; right; split; [apply Hi|]; lra|].
    left. split; [apply Mid|]; lra. }
  subst v. unfold Rabs.
  destruct C as [[-> C]|[[-> C]|[-> C]]];
    repeat match goal with
           | |- context [Rcase_abs ?a] => destruct (Rcase_abs a)
           end; repeat split; intros; lra.
Qed.

(** X19. The flight of a particle in exact arithmetic.  After [k] ticks a
    particle has moved [k] times its horizontal velocity sideways, its
    vertical velocity has grown by [k] times 0.05, it has fallen along the
    parabola [y + k * vy + k * (k - 1) / 40], and its life is down by
    [k / 100]; colour, size and horizontal velocity are as at launch. *)
Theorem particle_flight (p : Particle R) (k : nat) :
  let q := aged k p in
  p_x q = p_x p + INR k * vx p /\
  p_y q = p_y p + INR k * vy p + INR k * (INR k - 1) / 40 /\
  vx q = vx p /\
  vy q = vy p + INR k * (5 / 100) /\
  life q = life p - INR k / 100 /\
  p_color q = p_color p /\ p_size q = p_size p /\ maxLife q = maxLife p.
Proof.
  cbn zeta. induction k as [|k IH].
  - cbn. repeat split; lra.
  - unfold aged in *. rewrite Nat.iter_succ.
    remember (Nat.iter k tickParticle p) as q eqn:Q.
    destruct IH as (I1 & I2 & I3 & I4 & I5 & I6 & I7 & I8).
    unfold tickParticle.
    cbn [p_x p_y vx vy life p_color p_size maxLife].
    rewrite I1, I2, I3, I4, I5, I6, I7, I8, S_INR, !lit_real.
    cbn [add sub real_number].
    repeat split; lra.
Qed.

End MoreExact.

(** ** The particles of the running program *)

Section ParticlesOnDoubles.

Lemma lifeAfter_succ (k : nat) :
  lifeAfter (S k) = PrimFloat.sub (lifeAfter k) (lit 1 100).
Proof. unfold lifeAfter. now rewrite Nat.iter_succ. Qed.

Lemma life_below_one :
  forallb (fun k => PrimFloat.ltb (lifeAfter k) (of_Z 1)) (seq 1 99) = true.
Proof. vm_compute. reflexivity. Qed.

Lemma agedFrom_weaken (j j' : nat) (q : Particle float) :
  (j' <= j)%nat -> agedFrom j q -> agedFrom j' q.
Proof. intros L (k & K & E). exists k. split; [lia|exact E]. Qed.

(** A pass over the particles makes each survivor one tick older. *)
Lemma tickParticles_aged (j : nat) (ps : list (Particle float)) :
  Forall (agedFrom j) ps -> Forall (agedFrom (S j)) (tickParticles ps).
Proof.
  intros F. apply Forall_forall. intros q I.
  destruct (tickParticles_from ps q I) as (p & Ip & -> & A).
  rewrite Forall_forall in F. destruct (F p Ip) as (k & K & E).
  assert (L : life (tickParticle p) = lifeAfter (S k)).
  { rewrite lifeAfter_succ, <- E. reflexivity. }
  exists (S k). split; [|exact L].
  destruct (Nat.eq_dec k 99) as [->|N]; [|lia].
  unfold alive in A. rewrite L in A. cbn [ltb float_number] in A.
  destruct life_table as (_ & D & _). rewrite D in A. discriminate.
Qed.

Lemma detect_aged (st : AppState float) (f : FrameInput float) :
  Forall (agedFrom 1) (particlesRef st) ->
  Forall (agedFrom 1) (particlesRef (detect st f)).
Proof.
  intros F. unfold detect. rewrite renderCanvas_particles.
  apply tickParticles_aged.
  destruct (processHands_particles st f) as (sp & -> & L & _).
  apply Forall_app. split.
  - eapply Forall_impl; [|exact F]. intros q. apply agedFrom_weaken. lia.
  - eapply Forall_impl; [|exact L]. intros q Q. exists 0%nat. split; [lia|exact Q].
Qed.

Lemma run_aged (evs : list Event) (st : AppState float) :
  Forall (agedFrom 1) (particlesRef st) ->
  Forall (agedFrom 1) (particlesRef (run st evs)).
Proof.
  revert st. induction evs as [|ev evs IH]; intros st F; [exact F|].
  rewrite run_cons. apply IH. destruct ev as [f|u|]; cbn [step];
    [now apply detect_aged | exact F ..].
Qed.

(** X20. On doubles, every particle held in a state that a run of frames
    and menu events reaches from the initial state is alive and between 1
    and 99 ticks old: its life is the value that [k] subtractions of 0.01
    from 1 give, for some [k] from 1 to 99, which is above 0 and below 1.
    No dead particle and no particle of full life is ever left in the state
    for the next frame. *)
Theorem state_particles_are_alive (evs : list Event) (q : Particle float) :
  In q (particlesRef (run initialState evs)) ->
  exists k, (1 <= k <= 99)%nat /\ life q = lifeAfter k /\
            PrimFloat.ltb (of_Z 0) (life q) = true /\
            PrimFloat.ltb (life q) (of_Z 1) = true.
Proof.
  intros I.
  pose proof (@run_aged evs initialState (Forall_nil _)) as F.
  rewrite Forall_forall in F. destruct (F q I) as (k & K & E).
  exists k. split; [exact K|]. split; [exact E|]. rewrite E. split.
  - apply life_positive. lia.
  - pose proof life_below_one as T. rewrite forallb_forall in T.
    apply T, in_seq. lia.
Qed.

Lemma quiet_frames_age (fs : list (FrameInput float)) (st : AppState float) (j : nat) :
  Forall (agedFrom j) (particlesRef st) ->
  Forall (fun f => gestureOf f <> V_SIGN) fs ->
  Forall (agedFrom (length fs + j)) (particlesRef (run st (map Frame fs))).
Proof.
  revert st j. induction fs as [|f fs IH]; intros st j F Q; [exact F|].
  apply Forall_cons_iff in Q. destruct Q as [Qf Q].
  cbn [map length]. rewrite run_cons.
  replace (S (length fs) + j)%nat with (length fs + S j)%nat by lia.
  apply IH; [|exact Q]. cbn [step]. unfold detect.
  rewrite renderCanvas_particles. apply tickParticles_aged.
  destruct (processHands_particles st f) as (sp & -> & _ & E).
  rewrite (E Qf), app_nil_r. exact F.
Qed.

(** X21. On doubles, the particles of a dissolve are gone for good within
    100 frames: from any state that a run reaches from the initial state,
    99 further frames none of which shows a V sign, whatever else they
    show, leave no particle at all. *)
Theorem particles_gone_after_99_frames (evs : list Event)
    (fs : list (FrameInput float)) :
  Forall (fun f => gestureOf f <> V_SIGN) fs -> (99 <= length fs)%nat ->
  particlesRef (run (run initialState evs) (map Frame fs)) = [].
Proof.
  intros Q L.
  pose proof (@run_aged evs initialState (Forall_nil _)) as F.
  pose proof (quiet_frames_age (run initialState evs) F Q) as G.
  destruct (particlesRef (run (run initialState evs) (map Frame fs))) as [|q qs];
    [reflexivity|].
  apply Forall_cons_iff in G. destruct G as [(k & K & _) _]. lia.
Qed.

End ParticlesOnDoubles.

(** ** Rendering the strokes *)

Section Rendering.
Context {num : Type} `{JsNumber num}.
Local Open Scope js_scope.

Lemma penAfter_app (cs ds : list (CanvasCall num)) (a : option (Point num)) :
  penAfter (cs ++ ds) a = penAfter ds (penAfter cs a).
Proof.
  revert a. induction cs as [|c cs IH]; intros a; [reflexivity|].
  destruct c; cbn; apply IH.
Qed.

Lemma curves_last (front : list (Point num)) (p0 p q : Point num) (a : option (Point num)) :
  penAfter (curves p0 (front ++ [p; q])) a = Some (midPoint p q) /\
  penAfter (curves p ([q])) a = Some (midPoint p q).
Proof.
  split; [|reflexivity].
  revert p0 a. induction front as [|r front IH]; intros p0 a.
  - reflexivity.
  - cbn [app curves penAfter]. apply IH.
Qed.

Lemma curves_count (p0 : Point num) (rest : list (Point num)) :
  length (filter isCurve (curves p0 rest)) = length rest.
Proof.
  revert p0. induction rest as [|p rest IH]; intros p0; [reflexivity|].
  cbn. now rewrite IH.
Qed.

(** X22. What [drawStroke] draws.  Points fewer than two draw nothing, so
    a stroke or a line in progress of a single point leaves no mark.  With
    [n >= 2] points the path has [n - 1] curves and ends at the midpoint of
    the last two points: the last point is only ever a control point, and
    the drawn path stops halfway before it. *)
Theorem drawStroke_stops_halfway (pts : list (Point num)) (c : string) (sz : num)
    (t : Tool) :
  ((length pts < 2)%nat -> drawStroke pts c sz t = []) /\
  (forall front p q, pts = front ++ [p; q] ->
     penAfter (drawStroke pts c sz t) None = Some (midPoint p q) /\
     length (filter isCurve (drawStroke pts c sz t)) = (length pts - 1)%nat).
Proof.
  split.
  - intros L. destruct pts as [|p0 [|p1 rest]]; [reflexivity..|]. cbn in L. lia.
  - intros front p q E.
    destruct pts as [|p0 [|p1 rest]].
    + destruct front; discriminate.
    + destruct front as [|? [|? ?]]; discriminate.
    + assert (R : exists front', p1 :: rest = front' ++ [p; q] \/
                                 (p1 :: rest = [q] /\ p0 = p)).
      { destruct front as [|r front]; cbn in E.
        - injection E as -> -> ->. exists []. right. split; reflexivity.
        - injection E as -> E. exists front. left. exact E. }
      destruct R as (front' & R). split.
      * unfold drawStroke.
        rewrite !penAfter_app. cbn [penAfter].
        rewrite penAfter_app.
        destruct R as [R|[R ->]]; rewrite R.
        -- destruct t; cbn [penAfter]; rewrite (proj1 (curves_last front' _ p q _));
             reflexivity.
        -- destruct t; cbn [penAfter]; rewrite (proj2 (curves_last [] p p q _));
             reflexivity.
      * unfold drawStroke.
        rewrite !filter_app. cbn [filter isCurve app].
        rewrite filter_app, !length_app, curves_count.
        destruct t; cbn; lia.
Qed.

Lemma composite_curves (p0 : Point num) (rest : list (Point num))
    (cs : list (CanvasCall num)) (m : Composite) (saved : list Composite) :
  composite (curves p0 rest ++ cs) m saved = composite cs m saved.
Proof.
  revert p0. induction rest as [|p rest IH]; intros p0; [reflexivity|].
  cbn. apply IH.
Qed.

Lemma composite_drawStroke (pts : list (Point num)) (c : string) (sz : num)
    (t : Tool) (cs : list (CanvasCall num)) (saved : list Composite) :
  composite (drawStroke pts c sz t ++ cs) source_over saved =
    let '(ms, m') := composite cs source_over saved in
    ((if (2 <=? length pts)%nat
      then [match t with eraser => destination_out | pen => source_over end]
      else []) ++ ms, m').
Proof.
  destruct pts as [|p0 [|p1 rest]].
  - cbn. destruct (composite cs source_over saved). reflexivity.
  - cbn. destruct (composite cs source_over saved). reflexivity.
  - unfold drawStroke. cbn [length Nat.leb].
    destruct t; cbn [app composite]; rewrite <- app_assoc, composite_curves;
      cbn [app composite]; destruct (composite cs source_over saved); reflexivity.
Qed.

Lemma composite_strokes (ls : list (Stroke num)) (cs : list (CanvasCall num))
    (saved : list Composite) :
  composite
    (flat_map (fun line => drawStroke (points line) (color line) (size line) (type line)) ls
     ++ cs) source_over saved =
    let '(ms, m') := composite cs source_over saved in
    (map modeOf (filter drawable ls) ++ ms, m').
Proof.
  induction ls as [|s ls IH]; cbn [flat_map filter map app].
  - destruct (composite cs source_over saved). reflexivity.
  - rewrite <- app_assoc, composite_drawStroke, IH.
    destruct (composite cs source_over saved) as [ms m'].
    unfold drawable at 2, modeOf at 2.
    destruct (2 <=? length (points s))%nat; reflexivity.
Qed.

Lemma composite_particles (ps : list (Particle num)) (cs : list (CanvasCall num))
    (m : Composite) (saved : list Composite) :
  composite (flat_map drawParticle ps ++ cs) m saved = composite cs m saved.
Proof. induction ps as [|p ps IH]; [reflexivity|]. cbn. apply IH. Qed.

(** The line in progress is drawn as the stroke it would become. *)
Lemma drawLines_finished (st : AppState num) :
  drawLines st =
    flat_map (fun line => drawStroke (points line) (color line) (size line) (type line))
      (linesAfterFinish st).
Proof.
  unfold drawLines, linesAfterFinish, finishedStroke.
  destruct (currentLineRef st) eqn:C; [now rewrite app_nil_r|].
  rewrite flat_map_app. cbn. now rewrite app_nil_r.
Qed.

(** X23. The eraser does not leak.  In the calls of a frame on the drawing
    context, made from the default compositing mode, the strokes are
    stroked in the order they were finished, the line in progress last as
    the stroke it would become; each [stroke()] is made with
    [destination-out] in force exactly if its stroke is an eraser stroke,
    whatever strokes came before it, and the mode is back to [source-over]
    when the frame is done. *)
Theorem eraser_mode_does_not_leak (st : AppState num) (w h : num) :
  composite (canvasCalls st w h) source_over [] =
    (map modeOf (filter drawable (linesAfterFinish st)), source_over).
Proof.
  unfold canvasCalls. cbn [app composite].
  rewrite composite_particles. cbn [app composite].
  rewrite drawLines_finished, composite_strokes. cbn [composite].
  now rewrite app_nil_r.
Qed.

End Rendering.

(** ** Invariants of the dwell timer *)

Section MenuInvariants.
Context {num : Type} `{JsNumber num}.
Local Open Scope Z_scope.

Lemma clearHoverTimer_fields (m : MenuState num) :
  hoveredElementRef (clearHoverTimer m) = hoveredElementRef m /\
  hoverTimerRef (clearHoverTimer m) = hoverTimerRef m /\
  now (clearHoverTimer m) = now m /\
  selected (clearHoverTimer m) = selected m /\
  nextHandle (clearHoverTimer m) = nextHandle m /\
  (forall t, In t (timers (clearHoverTimer m)) -> In t (timers m)).
Proof.
  unfold clearHoverTimer. destruct (hoverTimerRef m) eqn:R; cbn; rewrite ?R;
    repeat split; try tauto.
  intros t I. now apply filter_In in I.
Qed.

Lemma visit_single (c : Point num) (acc : MenuState num * bool) (el : MenuItem num) :
  tidy (fst acc) -> single (fst acc) -> single (fst (visit c acc el)).
Proof.
  destruct acc as [ms b]. cbn [fst]. intros T S. unfold visit.
  destruct (inside c (rect el)); [|exact S].
  destruct (same_id (hoveredElementRef ms) (itemId el)); [exact S|].
  cbn [fst]. right.
  assert (C : timers (clearHoverTimer (set_hovered (Some (itemId el)) ms)) = [])
    by (apply clearHoverTimer_tidy; exact T).
  destruct (clearHoverTimer_fields (set_hovered (Some (itemId el)) ms))
    as (F1 & _ & F3 & _ & F5 & _).
  eexists. unfold startHoverTimer. cbn. rewrite C. cbn.
  split; [reflexivity|]. split; [reflexivity|]. exact F1.
Qed.

Lemma fold_visit_single (c : Point num) (els : list (MenuItem num))
    (acc : MenuState num * bool) :
  tidy (fst acc) -> single (fst acc) ->
  tidy (fst (fold_left (visit c) els acc)) /\
  single (fst (fold_left (visit c) els acc)).
Proof.
  revert acc. induction els as [|el els IH]; intros acc T S; [now split|].
  cbn [fold_left]. apply IH; [now apply visit_tidy | now apply visit_single].
Qed.

Lemma menuStep_single (ms : MenuState num) (ev : MenuEvent) :
  tidy ms -> single ms -> single (menuStep ms ev).
Proof.
  intros T S. destruct ev as [o c els | dt]; cbn [menuStep].
  - unfold hitTest. destruct o; [|exact S]. cbn [negb].
    destruct c as [p|]; [|exact S].
    destruct (@fold_visit_single p els (ms, false) T S) as [T' S'].
    destruct (fold_left (visit p) els (ms, false)) as [ms' found]. cbn [fst] in *.
    destruct found; [exact S'|].
    left. apply clearHoverTimer_tidy. exact T'.
  - unfold elapse, single. cbn.
    destruct S as [E|(t & E & R & Hov)]; rewrite E; cbn; [now left|].
    destruct (due t <=? now ms + dt); cbn; [now left|].
    right. exists t. now repeat split.
Qed.

Lemma reachable_single (evs : list MenuEvent) : single (menuRun initialMenu evs).
Proof.
  assert (G : forall ms, tidy ms -> single ms -> single (menuRun ms evs)).
  { induction evs as [|ev evs IH]; intros ms T S; [exact S|].
    cbn [menuRun fold_left]. apply IH.
    - now apply menuStep_tidy.
    - now apply menuStep_single. }
  apply G; [intros t [] | now left].
Qed.

Lemma clearHoverTimer_pulses (m : MenuState num) :
  forall p, In p (pulseTimers (clearHoverTimer m)) -> In p (pulseTimers m).
Proof.
  unfold clearHoverTimer. destruct (hoverTimerRef m); cbn; [|tauto].
  intros p I. now apply filter_In in I.
Qed.

Lemma filter_length_1 {A : Type} (f : A -> bool) (l : list A) :
  (length l <= 1)%nat -> (length (filter f l) <= 1)%nat.
Proof. intros L. pose proof (filter_length_le f l). lia. Qed.

Lemma clearHoverTimer_paced (v : option string) (ms : MenuState num) :
  paced ms -> paced (clearHoverTimer (set_hovered v ms)).
Proof.
  intros (P1 & P2 & P3 & P4).
  destruct (clearHoverTimer_fields (set_hovered v ms)) as (_ & _ & F3 & _ & _ & F6).
  pose proof (@clearHoverTimer_pulses (set_hovered v ms)) as F7.
  unfold paced. rewrite F3. cbn [now set_hovered].
  split; [|split; [|split]].
  - intros t I. apply P1. now apply F6 in I.
  - intros p I. apply P2. now apply F7 in I.
  - intros t p I J. apply P3; [now apply F6 in I | now apply F7 in J].
  - unfold clearHoverTimer. cbn. destruct (hoverTimerRef ms); cbn; [|exact P4].
    now apply filter_length_1.
Qed.

Lemma fold_visit_paced (c : Point num) (els : list (MenuItem num))
    (acc : MenuState num * bool) :
  paced (fst acc) -> paced (fst (fold_left (visit c) els acc)).
Proof.
  revert acc. induction els as [|el els IH]; intros acc S; [exact S|].
  cbn [fold_left]. apply IH.
  destruct acc as [ms b]. cbn [fst] in *. unfold visit.
  destruct (inside c (rect el)); [|exact S].
  destruct (same_id (hoveredElementRef ms) (itemId el)); [exact S|].
  cbn [fst].
  pose proof (@clearHoverTimer_paced (Some (itemId el)) ms S) as (C1 & C2 & C3 & C4).
  destruct (clearHoverTimer_fields (set_hovered (Some (itemId el)) ms))
    as (_ & _ & F3 & _ & _ & _).
  rewrite F3 in C1, C2. cbn [now set_hovered] in C1, C2.
  unfold paced, startHoverTimer. cbn [timers pulseTimers now]. rewrite F3.
  cbn [now set_hovered].
  split; [|split; [|split]].
  - intros t J. apply in_app_or in J.
    destruct J as [J|[<-|[]]]; [now apply C1|]. cbn. unfold dwell. lia.
  - exact C2.
  - intros t p J K. apply in_app_or in J.
    destruct J as [J|[<-|[]]]; [now apply C3|]. cbn.
    specialize (C2 p K). unfold dwell, pulse in *. lia.
  - exact C4.
Qed.

Lemma startPulses_In (h : nat) (ready : list (Timer num)) (p : Timer num) :
  In p (startPulses h ready) -> exists t, In t ready /\ due p = due t + pulse.
Proof.
  revert h. induction ready as [|t ready IH]; intros h I; [destruct I|].
  cbn in I. destruct I as [<-|I].
  - exists t. split; [now left | reflexivity].
  - destruct (IH _ I) as (t' & J & E). exists t'. split; [now right | exact E].
Qed.

Lemma startPulses_length (h : nat) (ready : list (Timer num)) :
  length (startPulses h ready) = length ready.
Proof.
  revert h. induction ready as [|t ready IH]; intros h; [reflexivity|].
  cbn. now rewrite IH.
Qed.

Lemma menuStep_paced (ms : MenuState num) (ev : MenuEvent) :
  forward ev -> single ms -> paced ms -> paced (menuStep ms ev).
Proof.
  intros Fw Sg S. destruct ev as [o c els | dt]; cbn [menuStep forward] in *.
  - unfold hitTest. destruct o; [|exact S]. cbn [negb].
    destruct c as [p|]; [|exact S].
    pose proof (@fold_visit_paced p els (ms, false) S) as F.
    destruct (fold_left (visit p) els (ms, false)) as [ms' found]. cbn [fst] in F.
    destruct found; [exact F|]. now apply clearHoverTimer_paced.
  - destruct S as (P1 & P2 & P3 & P4).
    unfold paced, elapse. cbn [timers pulseTimers now].
    set (t' := now ms + dt).
    assert (Old : forall p, In p (pulseTimers ms) ->
                  forall r, In r (timers ms) -> due r <= t' -> due p <= t').
    { intros p I r J D. specialize (P3 r p J I). unfold dwell, pulse in P3. lia. }
    split; [|split; [|split]].
    + intros t I. apply filter_In in I. destruct I as [I D].
      apply negb_true_iff, Z.leb_gt in D. specialize (P1 t I). lia.
    + intros p I. apply filter_In in I. destruct I as [I D].
      apply negb_true_iff, Z.leb_gt in D. apply in_app_or in I.
      destruct I as [I|I]; [specialize (P2 p I); lia|].
      apply startPulses_In in I. destruct I as (r & J & E).
      apply filter_In in J. destruct J as [J Dr]. apply Z.leb_le in Dr. lia.
    + intros t p I J.
      apply filter_In in I. destruct I as [I D].
      apply negb_true_iff, Z.leb_gt in D.
      apply filter_In in J. destruct J as [J _]. apply in_app_or in J.
      destruct J as [J|J]; [now apply P3|].
      apply startPulses_In in J. destruct J as (r & J & E).
      apply filter_In in J. destruct J as [J Dr]. apply Z.leb_le in Dr.
      exfalso. destruct Sg as [Sg|(u & Sg & _)]; rewrite Sg in I, J;
        [destruct I|]. destruct I as [<-|[]], J as [<-|[]]. lia.
    + destruct (filter (fun t => due t <=? t') (timers ms)) as [|r ready] eqn:R.
      * cbn [startPulses]. rewrite app_nil_r. now apply filter_length_1.
      * assert (Ir : In r (timers ms) /\ due r <= t').
        { assert (I : In r (filter (fun t => due t <=? t') (timers ms)))
            by (rewrite R; now left).
          apply filter_In in I. destruct I as [I D]. apply Z.leb_le in D.
          now split. }
        destruct Ir as [Ir Dr].
        rewrite filter_app.
        replace (filter (fun t => negb (due t <=? t')) (pulseTimers ms)) with
          (@nil (Timer num)).
        -- cbn [app]. apply filter_length_1. rewrite startPulses_length.
           pose proof (filter_length_le (fun t => due t <=? t') (timers ms)) as L.
           rewrite R in L.
           destruct Sg as [Sg|(u & Sg & _)]; rewrite Sg in L; cbn in L |- *; lia.
        -- symmetry.
           assert (G : forall l, (forall p, In p l -> due p <= t') ->
                       filter (fun t : Timer num => negb (due t <=? t')) l = []).
           { induction l as [|a l IH]; intros A; [reflexivity|]. cbn.
             replace (due a <=? t') with true
               by (symmetry; apply Z.leb_le, A; now left).
             cbn. apply IH. intros p I. apply A. now right. }
           apply G. intros p I. exact (Old p I r Ir Dr).
Qed.

Lemma reachable_paced (evs : list MenuEvent) :
  Forall forward evs -> paced (menuRun (num := num) initialMenu evs).
Proof.
  assert (G : forall ms, Forall forward evs -> tidy ms -> single ms -> paced ms ->
                         paced (menuRun ms evs)).
  { induction evs as [|ev evs IH]; intros ms F T Sg S; [exact S|].
    apply Forall_cons_iff in F. destruct F as [Fe F].
    cbn [menuRun fold_left]. apply IH; [exact F| | |].
    - now apply menuStep_tidy.
    - now apply menuStep_single.
    - now apply menuStep_paced. }
  intros F. apply G; [exact F | intros t [] | now left |].
  unfold paced. cbn. split; [intros t []|]. split; [intros p []|].
  split; [intros t p []|]. lia.
Qed.

(** X24. At most one dwell timeout is ever pending.  In every state that a
    run of renders and passing time reaches from the mounting of the menu,
    the pending dwell timeouts number one at most, and the one pending is
    the timeout whose handle [hoverTimerRef] holds and whose element is the
    hovered one; two dwell selections can never be under way at once.  The
    other pending timeouts are the pulse timeouts that dwell callbacks
    set: if the clock never runs backwards at most one of them is pending,
    due within 200 ms, so that at most two timeouts are pending in all. *)
Theorem one_pending_timeout (evs : list (MenuEvent (num := num))) :
  let ms := menuRun initialMenu evs in
  ((length (timers ms) <= 1)%nat /\
   forall t, In t (timers ms) ->
     hoverTimerRef ms = Some (handle t) /\
     hoveredElementRef ms = Some (itemId (target t))) /\
  (Forall forward evs ->
   (length (pulseTimers ms) <= 1)%nat /\
   (forall p, In p (pulseTimers ms) -> now ms < due p <= now ms + pulse) /\
   (length (pending ms) <= 2)%nat).
Proof.
  cbn zeta.
  assert (D : (length (timers (menuRun (num := num) initialMenu evs)) <= 1)%nat /\
              forall t, In t (timers (menuRun initialMenu evs)) ->
                hoverTimerRef (menuRun initialMenu evs) = Some (handle t) /\
                hoveredElementRef (menuRun initialMenu evs) = Some (itemId (target t))).
  { destruct (reachable_single evs) as [E|(t & E & R & Hov)]; rewrite E.
    - split; [cbn; lia | intros t []].
    - split; [cbn; lia|]. intros t' [<-|[]]. now split. }
  split; [exact D|]. intros F.
  destruct (reachable_paced F) as (_ & P2 & _ & P4).
  split; [exact P4|]. split; [exact P2|].
  unfold pending. rewrite length_app. destruct D as [D _]. lia.
Qed.

Lemma sourced_weaken (P Q : MenuItem num -> Prop) (ms : MenuState num) :
  (forall el, P el -> Q el) -> sourced P ms -> sourced Q ms.
Proof.
  intros PQ [S1 S2]. split.
  - intros t I. apply PQ. now apply S1.
  - intros ts s I. destruct (S2 ts s I) as (el & Pe & C). exists el. split; auto.
Qed.

Lemma clearHoverTimer_sourced (P : MenuItem num -> Prop) (ms : MenuState num)
    (v : option string) :
  sourced P ms -> sourced P (clearHoverTimer (set_hovered v ms)).
Proof.
  intros [S1 S2].
  destruct (clearHoverTimer_fields (set_hovered v ms)) as (_ & _ & _ & F4 & _ & F6).
  split.
  - intros t I. apply S1. now apply F6 in I.
  - intros ts s. rewrite F4. apply S2.
Qed.

Lemma fold_visit_sourced (P : MenuItem num -> Prop) (c : Point num)
    (els : list (MenuItem num)) (acc : MenuState num * bool) :
  (forall el, In el els -> inside c (rect el) = true -> P el) ->
  sourced P (fst acc) -> sourced P (fst (fold_left (visit c) els acc)).
Proof.
  revert acc. induction els as [|el els IH]; intros acc Pin S; [exact S|].
  cbn [fold_left]. apply IH; [intros e I; apply Pin; now right|].
  destruct acc as [ms b]. cbn [fst] in *. unfold visit.
  destruct (inside c (rect el)) eqn:I; [|exact S].
  destruct (same_id (hoveredElementRef ms) (itemId el)); [exact S|].
  cbn [fst].
  pose proof (@clearHoverTimer_sourced P ms (Some (itemId el)) S) as [C1 C2].
  split.
  - unfold startHoverTimer. cbn. intros t J. apply in_app_or in J.
    destruct J as [J|[<-|[]]]; [now apply C1|]. cbn. apply Pin; [now left|exact I].
  - exact C2.
Qed.

Lemma menuStep_sourced (P : MenuItem num -> Prop) (ms : MenuState num)
    (ev : MenuEvent) :
  sourced P ms ->
  sourced (fun el => P el \/ hoveredIn [ev] el) (menuStep ms ev).
Proof.
  intros S.
  assert (S' : sourced (fun el => P el \/ hoveredIn [ev] el) ms)
    by (eapply sourced_weaken; [|exact S]; intros el Pe; now left).
  destruct ev as [o c els | dt]; cbn [menuStep].
  - unfold hitTest. destruct o; [|exact S']. cbn [negb].
    destruct c as [p|]; [|exact S'].
    pose proof (@fold_visit_sourced _ p els (ms, false)
                  (fun el I J => or_intror (ex_intro _ p (ex_intro _ els
                     (conj (or_introl eq_refl) (conj I J))))) S') as F.
    destruct (fold_left (visit p) els (ms, false)) as [ms' found]. cbn [fst] in F.
    destruct found; [exact F|]. now apply clearHoverTimer_sourced.
  - destruct S' as [S1 S2]. unfold elapse. split; cbn.
    + intros t I. apply filter_In in I. now apply S1.
    + intros ts s I. apply in_app_or in I. destruct I as [I|I]; [now apply (S2 ts)|].
      apply in_flat_map in I. destruct I as (t & It & I).
      apply filter_In in It. destruct It as [It _].
      apply in_map_iff in I. destruct I as (s' & E & I). injection E as <- <-.
      exists (target t). split; [now apply S1 | exact I].
Qed.

Lemma hoveredIn_cons (ev : MenuEvent) (evs : list MenuEvent) (el : MenuItem num) :
  hoveredIn [ev] el \/ hoveredIn evs el -> hoveredIn (ev :: evs) el.
Proof.
  intros [(c & els & [E|[]] & I & J)|(c & els & E & I & J)];
    exists c, els; (split; [|now split]); [now left | now right].
Qed.

Lemma run_sourced (evs : list MenuEvent) (P : MenuItem num -> Prop)
    (ms : MenuState num) :
  sourced P ms -> sourced (fun el => P el \/ hoveredIn evs el) (menuRun ms evs).
Proof.
  revert P ms. induction evs as [|ev evs IH]; intros P ms S.
  - eapply sourced_weaken; [|exact S]. intros el Pe. now left.
  - cbn [menuRun fold_left].
    eapply sourced_weaken; [|apply IH, menuStep_sourced, S].
    cbn beta. intros el [[Pe|Hv]|Hv]; [now left|right..];
      apply hoveredIn_cons; [now left | now right].
Qed.

Lemma fold_visit_timely (c : Point num) (els : list (MenuItem num))
    (acc : MenuState num * bool) :
  timely (fst acc) -> timely (fst (fold_left (visit c) els acc)).
Proof.
  revert acc. induction els as [|el els IH]; intros acc S; [exact S|].
  cbn [fold_left]. apply IH.
  destruct acc as [ms b]. cbn [fst] in *. unfold visit.
  destruct (inside c (rect el)); [|exact S].
  destruct (same_id (hoveredElementRef ms) (itemId el)); [exact S|].
  cbn [fst]. destruct S as (S0 & S1 & S2).
  destruct (clearHoverTimer_fields (set_hovered (Some (itemId el)) ms))
    as (_ & _ & F3 & F4 & _ & F6).
  unfold timely, startHoverTimer. cbn. rewrite F3, F4. cbn.
  split; [exact S0|]. split; [|exact S2].
  intros t J. apply in_app_or in J.
  destruct J as [J|[<-|[]]]; [apply S1; now apply F6 in J|]. cbn. lia.
Qed.

Lemma menuStep_timely (ms : MenuState num) (ev : MenuEvent) :
  forward ev -> timely ms -> timely (menuStep ms ev).
Proof.
  intros Fw S. destruct ev as [o c els | dt]; cbn [menuStep forward] in *.
  - unfold hitTest. destruct o; [|exact S]. cbn [negb].
    destruct c as [p|]; [|exact S].
    pose proof (@fold_visit_timely p els (ms, false) S) as F.
    destruct (fold_left (visit p) els (ms, false)) as [ms' found]. cbn [fst] in F.
    destruct found; [exact F|]. destruct F as (F0 & F1 & F2).
    destruct (clearHoverTimer_fields (set_hovered None ms'))
      as (_ & _ & F3 & F4 & _ & F6).
    unfold timely. rewrite F3, F4. cbn.
    split; [exact F0|]. split; [|exact F2].
    intros t J. apply F1. now apply F6 in J.
  - destruct S as (S0 & S1 & S2). unfold timely, elapse. cbn.
    split; [lia|]. split.
    + intros t I. apply filter_In in I. now apply S1.
    + intros ts s I. apply in_app_or in I. destruct I as [I|I].
      * specialize (S2 ts s I). lia.
      * apply in_flat_map in I. destruct I as (t & It & I).
        apply filter_In in It. destruct It as [It D].
        apply in_map_iff in I. destruct I as (s' & E & I). injection E as <- <-.
        apply Z.leb_le in D. specialize (S1 t It). lia.
Qed.

Lemma run_timely (evs : list MenuEvent) (ms : MenuState num) :
  Forall forward evs -> timely ms -> timely (menuRun ms evs).
Proof.
  revert ms. induction evs as [|ev evs IH]; intros ms F S; [exact S|].
  apply Forall_cons_iff in F. destruct F as [Fe F].
  cbn [menuRun fold_left]. apply IH; [exact F|]. now apply menuStep_timely.
Qed.

(** X25. No selection without a hover and a dwell.  Every call of
    [onSelect] that a run of renders and passing time from the mounting of
    the menu has made is a call of the callback of an element that was
    under the cursor at some render of the run with the menu open; and if
    the clock never ran backwards, it was made no earlier than 800 ms
    after mounting and not in the future. *)
Theorem selection_needs_hover_and_dwell (evs : list (MenuEvent (num := num)))
    (ts : Z) (s : Selection) :
  In (ts, s) (selected (menuRun initialMenu evs)) ->
  (exists el, hoveredIn evs el /\ In s (callback el)) /\
  (Forall forward evs -> dwell <= ts <= now (menuRun initialMenu evs)).
Proof.
  intros I. split.
  - assert (S0 : sourced (fun _ : MenuItem num => False) initialMenu).
    { split; [intros t [] | intros t' s' []]. }
    destruct (run_sourced evs S0) as [_ S2].
    destruct (S2 ts s I) as (el & [[]|Hv] & C). exists el. now split.
  - intros F.
    assert (S0 : timely (@initialMenu num)).
    { split; [cbn; lia|]. split; [intros t [] | intros t' s' []]. }
    destruct (run_timely F S0) as (_ & _ & S2). now apply (S2 ts s).
Qed.

Lemma callback_at_most_one (el : MenuItem num) : (length (callback el) <= 1)%nat.
Proof.
  unfold callback.
  destruct (String.eqb_spec (data_type el) "color") as [->|];
    [cbn; lia|].
  destruct (String.eqb_spec (data_type el) "size") as [->|];
    [cbn; lia|].
  destruct (String.eqb (data_type el) "tool"); cbn; lia.
Qed.

(** X26. One selection per hover.  From a state in which every pending
    dwell timeout is the one [hoverTimerRef] holds, let the cursor enter the
    element [el] and the hover on it go on through any later events.  What
    has been selected since is nothing while less than 800 ms have passed,
    and from then on exactly the calls of the element's callback, made at
    800 ms: a single call for an item of type colour, size or tool, carrying
    its value, and never more than one however long the hover lasts. *)
Theorem one_selection_per_hover (c : Point num) (elements : list (MenuItem num))
    (ms0 : MenuState num) (el : MenuItem num) (evs : list MenuEvent) :
  tidy ms0 -> hits c elements = [el] ->
  same_id (hoveredElementRef ms0) (itemId el) = false ->
  Forall (stays (itemId el)) evs ->
  let ms := menuRun (hitTest true (Some c) elements ms0) evs in
  selected ms =
    selected ms0
    ++ (if now ms0 + dwell <=? now ms
        then map (pair (now ms0 + dwell)) (callback el) else []) /\
  (length (callback el) <= 1)%nat /\
  (data_type el = "color"%string -> callback el = [SelectColor (data_value el)]) /\
  (data_type el = "size"%string -> callback el = [SelectSize (data_value el)]) /\
  (data_type el = "tool"%string -> callback el = [SelectTool (data_value el)]).
Proof.
  intros T E N F ms. split; [now apply dwell_fires_once|].
  split; [apply callback_at_most_one | apply callback_one].
Qed.

(** X27. Leaving cancels.  In every state that the menu reaches from its
    mounting, a render with the menu open and the cursor outside every
    element leaves no dwell timeout pending and nothing hovered: what is
    still pending are pulse timeouts of selections made before, and no
    passing of time selects anything.  A render with the cursor on one
    element other than the hovered one leaves that element's dwell timeout,
    due 800 ms later, as the only dwell timeout pending. *)
Theorem leaving_cancels_the_selection (evs : list (MenuEvent (num := num)))
    (c : Point num) (elements : list (MenuItem num)) :
  let ms := menuRun initialMenu evs in
  let ms' := hitTest true (Some c) elements ms in
  (hits c elements = [] ->
     timers ms' = [] /\ hoveredElementRef ms' = None /\
     (forall p, In p (pending ms') -> In p (pulseTimers ms)) /\
     forall dts, selected (menuRun ms' (map Elapse dts)) = selected ms) /\
  (forall el, hits c elements = [el] ->
     same_id (hoveredElementRef ms) (itemId el) = false ->
     timers ms' = [mkTimer (nextHandle ms) (now ms + dwell) el] /\
     (forall p, In p (pulseTimers ms') -> In p (pulseTimers ms))).
Proof.
  intros ms ms'. pose proof (reachable_tidy evs) as T. fold ms in T. split.
  - intros N. destruct (@leave_cancels _ _ c elements ms T N) as (L1 & L2 & L3).
    fold ms' in L1, L2, L3. split; [exact L1|]. split; [exact L2|]. split; [|exact L3].
    intros p I. unfold pending in I. rewrite L1 in I. cbn [app] in I.
    subst ms'. rewrite (@hitTest_outside _ _ c elements ms N) in I.
    now apply clearHoverTimer_pulses in I.
  - intros el E N. split; [now apply change_cancels|].
    intros p I. subst ms'. rewrite (@hitTest_enter _ _ c elements ms el E N) in I.
    unfold startHoverTimer in I. cbn [pulseTimers] in I.
    now apply clearHoverTimer_pulses in I.
Qed.

Lemma same_id_other (h : option string) (id1 id2 : string) :
  id1 <> id2 -> same_id h id1 = true -> same_id h id2 = false.
Proof.
  intros D S. destruct h as [s|]; [|reflexivity]. cbn in *.
  apply String.eqb_eq in S. subst s. now apply String.eqb_neq.
Qed.

Lemma startHoverTimer_after_clear (el : MenuItem num) (ms : MenuState num) :
  tidy ms ->
  let ms' := startHoverTimer el (clearHoverTimer (set_hovered (Some (itemId el)) ms)) in
  timers ms' = [mkTimer (nextHandle ms) (now ms + dwell) el] /\
  hoveredElementRef ms' = Some (itemId el) /\
  selected ms' = selected ms /\ now ms' = now ms.
Proof.
  intros T. cbn zeta.
  assert (C : timers (clearHoverTimer (set_hovered (Some (itemId el)) ms)) = [])
    by (apply clearHoverTimer_tidy; exact T).
  destruct (clearHoverTimer_fields (set_hovered (Some (itemId el)) ms))
    as (F1 & _ & F3 & F4 & F5 & _).
  unfold startHoverTimer. cbn. rewrite C, F1, F3, F4, F5. cbn. repeat split.
Qed.

(** A render with two elements of different identifiers under the cursor:
    whatever was hovered, the timeout of the second is started anew. *)
Lemma hitTest_two (c : Point num) (elements : list (MenuItem num))
    (ms : MenuState num) (e1 e2 : MenuItem num) :
  tidy ms -> hits c elements = [e1; e2] -> itemId e1 <> itemId e2 ->
  let ms' := hitTest true (Some c) elements ms in
  (exists h, timers ms' = [mkTimer h (now ms + dwell) e2]) /\
  selected ms' = selected ms /\ now ms' = now ms.
Proof.
  intros T E D. cbn zeta. unfold hitTest. cbn [negb].
  rewrite fold_visit_hits, E. cbn [fold_left].
  assert (I : inside c (rect e1) = true /\ inside c (rect e2) = true).
  { assert (J : forall e, In e (hits c elements) -> inside c (rect e) = true)
      by (intros e J; unfold hits in J; now apply filter_In in J).
    rewrite E in J. split; apply J; [now left | right; now left]. }
  destruct I as [I1 I2].
  set (ms1 := if same_id (hoveredElementRef ms) (itemId e1) then ms
              else startHoverTimer e1
                     (clearHoverTimer (set_hovered (Some (itemId e1)) ms))).
  assert (V1 : visit c (ms, false) e1 = (ms1, true)).
  { unfold visit. rewrite I1. subst ms1.
    destruct (same_id (hoveredElementRef ms) (itemId e1)); reflexivity. }
  assert (T1 : tidy ms1).
  { pose proof (@visit_tidy _ _ c (ms, false) e1 T) as K. now rewrite V1 in K. }
  assert (K1 : same_id (hoveredElementRef ms1) (itemId e2) = false /\
               selected ms1 = selected ms /\ now ms1 = now ms).
  { subst ms1. destruct (same_id (hoveredElementRef ms) (itemId e1)) eqn:S1.
    - split; [now apply (same_id_other _ D S1) | now split].
    - destruct (startHoverTimer_after_clear e1 T) as (_ & B2 & B3 & B4).
      rewrite B2. split; [|now split]. cbn [same_id]. now apply String.eqb_neq. }
  destruct K1 as (S2 & Sel1 & Nw1).
  assert (V2 : visit c (ms1, true) e2 =
               (startHoverTimer e2
                  (clearHoverTimer (set_hovered (Some (itemId e2)) ms1)), true)).
  { unfold visit. now rewrite I2, S2. }
  rewrite V1, V2.
  destruct (startHoverTimer_after_clear e2 T1) as (A1 & _ & A3 & A4).
  split; [eexists; rewrite A1, Nw1; reflexivity|].
  split; [now rewrite A3 | now rewrite A4].
Qed.

(** X29. Two items under the cursor starve the dwell.  If the cursor is
    inside two elements with different identifiers, every render of the
    open menu cancels the pending timeout and starts a new one, due 800 ms
    after that render; so as long as renders follow each other by less
    than 800 ms, however long the cursor rests there, nothing is ever
    selected. *)
Theorem overlapping_items_starve_the_dwell (c : Point num)
    (elements : list (MenuItem num)) (e1 e2 : MenuItem num)
    (ms : MenuState num) (dts : list Z) :
  tidy ms -> hits c elements = [e1; e2] -> itemId e1 <> itemId e2 ->
  Forall (fun dt => 0 <= dt < dwell) dts ->
  selected
    (menuRun ms (flat_map (fun dt => [Render true (Some c) elements; Elapse dt]) dts))
  = selected ms.
Proof.
  intros T E D F. revert ms T. induction F as [|dt dts Fd F IH]; intros ms T;
    [reflexivity|].
  cbn [flat_map app menuRun fold_left].
  change (fold_left menuStep ?l ?m) with (menuRun m l).
  rewrite IH.
  - cbn [menuStep].
    destruct (@hitTest_two c elements ms e1 e2 T E D) as ((h & Tm) & Sel & Nw).
    unfold elapse. cbn [selected timers now]. rewrite Tm, Sel, Nw. cbn.
    destruct (Z.leb_spec (now ms + dwell) (now ms + dt)); [lia|].
    cbn. now rewrite app_nil_r.
  - now apply menuStep_tidy, menuStep_tidy.
Qed.

End MenuInvariants.

(** ** A dwell selection, from the cursor to the settings *)

Section EndToEnd.
Context {num : Type} `{JsNumber num}.
Variable Number : string -> num.
Local Open Scope Z_scope.

Lemma onSelect_keeps (sels : list Selection) (st : AppState num) :
  linesRef (fold_left (onSelect Number) sels st) = linesRef st /\
  currentLineRef (fold_left (onSelect Number) sels st) = currentLineRef st /\
  isMenuOpen (fold_left (onSelect Number) sels st) = isMenuOpen st.
Proof.
  revert st. induction sels as [|a sels IH]; intros st; [repeat split|].
  cbn [fold_left]. destruct (IH (onSelect Number st a)) as (I1 & I2 & I3).
  rewrite I1, I2, I3. unfold onSelect.
  destruct (updatesOf Number a); repeat split.
Qed.

(** X28. A dwell selection end to end.  Let the cursor enter one item of
    the menu and stay for at least 800 ms, and let the App handle the
    calls of [onSelect] made since.  For a colour item the colour becomes
    the item's value and the tool becomes the pen, whatever it was (picking
    a colour leaves the eraser); for a size item the width becomes
    [Number] of the item's value; for the pen and eraser items the tool
    becomes the item's; every other setting, the strokes and the line in
    progress stay as they were. *)
Theorem dwell_selection_end_to_end (c : Point num) (elements : list (MenuItem num))
    (ms0 : MenuState num) (el : MenuItem num) (evs : list MenuEvent)
    (st : AppState num) :
  tidy ms0 -> hits c elements = [el] ->
  same_id (hoveredElementRef ms0) (itemId el) = false ->
  Forall (stays (itemId el)) evs ->
  let ms := menuRun (hitTest true (Some c) elements ms0) evs in
  now ms0 + dwell <= now ms ->
  let st' := applySelections Number (skipn (length (selected ms0)) (selected ms)) st in
  let s := settingsRef st in
  (data_type el = "color"%string ->
     settingsRef st' = mkSettings (data_value el) (s_size s) pen) /\
  (data_type el = "size"%string ->
     settingsRef st' = mkSettings (s_color s) (Number (data_value el)) (s_tool s)) /\
  (data_type el = "tool"%string -> data_value el = "pen"%string ->
     settingsRef st' = mkSettings (s_color s) (s_size s) pen) /\
  (data_type el = "tool"%string -> data_value el = "eraser"%string ->
     settingsRef st' = mkSettings (s_color s) (s_size s) eraser) /\
  linesRef st' = linesRef st /\ currentLineRef st' = currentLineRef st /\
  isMenuOpen st' = isMenuOpen st.
Proof.
  intros T E N F ms L st' s. subst st'.
  pose proof (@dwell_fires_once _ _ c elements ms0 el evs T E N F) as D.
  cbn zeta in D. fold ms in D. apply Z.leb_le in L. rewrite L in D.
  rewrite D, skipn_app, Nat.sub_diag, skipn_all. cbn [app skipn].
  unfold applySelections. rewrite map_map. cbn [snd]. rewrite map_id.
  destruct (callback_one el) as (C1 & C2 & C3).
  split; [|split; [|split; [|split; [|apply onSelect_keeps]]]].
  - intros Ty. rewrite (C1 Ty). reflexivity.
  - intros Ty. rewrite (C2 Ty). reflexivity.
  - intros Ty V. rewrite (C3 Ty), V. reflexivity.
  - intros Ty V. rewrite (C3 Ty), V. reflexivity.
Qed.

End EndToEnd.

(** ** The further properties at sample inputs *)

Section MoreWitnesses.
Import Samples MoreSamples.

Lemma lerp_between_witness :
  (Rmin 0 10 <= lerp 0 10 (1 / 2) <= Rmax 0 10)%R.
Proof.
  apply (@lerp_between 0 10 (1 / 2))%R. lra.
Defined.

Lemma toScreen_mirrors_into_frame_witness :
  (0 <= x (toScreen (1 / 4) (1 / 2) 640 480) <= 640)%R.
Proof.
  apply (@toScreen_mirrors_into_frame (1 / 4) (1 / 2) (1 / 4) (1 / 2) 640 480)%R; lra.
Defined.

Lemma zoom_follows_the_hands_witness :
  let f := twoHands (num := R) 110 in
  let d := distance (indexOnScreen (pointingHand 256 512) f)
                    (indexOnScreen (pointingHand (256 + 110) 512) f) in
  (Rabs (scale (transformRef (detect zooming f)) - scale (transformRef zooming))
   <= Rabs (d - 100) * (5 / 1000))%R.
Proof.
  cbv zeta.
  apply (@zoom_follows_the_hands zooming (twoHands 110) _ _ 100%R eq_refl eq_refl).
  cbn. lra.
Defined.

Lemma open_menu_suspends_drawing_witness :
  linesRef (detect menuOpened (frame_of [pinchHand 320 300])) = linesRef menuOpened /\
  currentLineRef (detect menuOpened (frame_of [pinchHand 320 300])) =
    currentLineRef menuOpened.
Proof.
  apply (@open_menu_suspends_drawing float _ menuOpened (frame_of [pinchHand 320 300])).
  - vm_compute. reflexivity.
  - vm_compute. discriminate.
Defined.

Lemma strokes_never_empty_witness : points dot <> [].
Proof.
  apply (@strokes_never_empty float _
           [Frame (frame_of [pinchHand 300 300]); Frame (frame_of [fistHand])] dot).
  vm_compute. left. reflexivity.
Defined.

Lemma strokes_append_only_witness :
  exists added,
    linesRef
      (run drawingLine
         [Frame (frame_of [fistHand]); Frame (frame_of [pinchHand 400 400]);
          Frame (twoHands 100)])
    = linesRef drawingLine ++ added /\
    (length added <= 3)%nat /\
    Forall (fun s => points s <> []) added.
Proof.
  apply (@strokes_append_only float _ drawingLine
           [Frame (frame_of [fistHand]); Frame (frame_of [pinchHand 400 400]);
            Frame (twoHands 100)]).
  repeat (constructor; [vm_compute; discriminate|]). constructor.
Defined.

Lemma only_the_menu_changes_settings_witness :
  settingsRef
    (run (num := float) initialState
       [Frame (frame_of [pinchHand 300 300]); Frame (frame_of [palmHand]); MenuClose])
  = settingsRef initialState.
Proof.
  apply (@only_the_menu_changes_settings float _ initialState).
  intros u [E|[E|[E|[]]]]; discriminate.
Defined.

Lemma stroke_takes_settings_at_finish_witness :
  linesRef
    (run drawingLine
       [MenuSelect (mkPartial (Some "#FF0055"%string) None None);
        Frame (frame_of [fistHand])])
  = [mkStroke [mkPoint (of_Z 300) (of_Z 300)] "#FF0055" (of_Z 6) pen].
Proof.
  rewrite (@stroke_takes_settings_at_finish float _ drawingLine
             (mkPartial (Some "#FF0055"%string) None None)
             (frame_of [fistHand]) fistHand).
  - vm_compute. reflexivity.
  - vm_compute. reflexivity.
  - reflexivity.
  - vm_compute. discriminate.
  - vm_compute. discriminate.
  - vm_compute. discriminate.
Defined.

Lemma dissolve_same_with_menu_open_witness :
  particlesRef
    (fst (processHands (set_isMenuOpen true twoShortLines) (frame_of [vSignHand]))) =
  particlesRef
    (fst (processHands (set_isMenuOpen false twoShortLines) (frame_of [vSignHand]))).
Proof.
  apply (@dissolve_same_with_menu_open float _ twoShortLines
           (frame_of [vSignHand]) vSignHand).
  - reflexivity.
  - vm_compute. reflexivity.
Defined.

Lemma state_particles_are_alive_witness :
  exists k, (1 <= k <= 99)%nat /\ life inFlight = lifeAfter k /\
            PrimFloat.ltb (of_Z 0) (life inFlight) = true /\
            PrimFloat.ltb (life inFlight) (of_Z 1) = true.
Proof.
  apply (@state_particles_are_alive dissolved inFlight).
  vm_compute. left. reflexivity.
Defined.

Lemma particles_gone_after_99_frames_witness :
  particlesRef (run (run initialState dissolved) (map Frame (repeat noHands 99))) = [].
Proof.
  apply (@particles_gone_after_99_frames dissolved (repeat noHands 99)).
  - apply Forall_forall. intros f I. apply repeat_spec in I. subst f.
    vm_compute. discriminate.
  - rewrite repeat_length. lia.
Defined.

Lemma selection_needs_hover_and_dwell_witness :
  (exists el, hoveredIn hoverColor el /\
              In (SelectColor "#FF0055") (callback el)) /\
  (Forall forward hoverColor ->
   (dwell <= 800 <= now (menuRun initialMenu hoverColor))%Z).
Proof.
  apply (@selection_needs_hover_and_dwell float _ hoverColor 800%Z
           (SelectColor "#FF0055")).
  vm_compute. left. reflexivity.
Defined.

Lemma one_selection_per_hover_witness :
  selected (menuRun (hitTest true (Some onColor) items initialMenu) [Elapse 800]) =
    [(800%Z, SelectColor "#FF0055")].
Proof.
  destruct (@one_selection_per_hover float _ onColor items initialMenu colorItem
              [Elapse 800]) as (S & _).
  - intros t [].
  - vm_compute. reflexivity.
  - reflexivity.
  - repeat constructor. cbn. lia.
  - rewrite S. vm_compute. reflexivity.
Defined.

Lemma one_pending_timeout_witness :
  (length (pulseTimers (menuRun initialMenu selectThenMove)) <= 1)%nat /\
  (length (pending (menuRun initialMenu selectThenMove)) <= 2)%nat.
Proof.
  destruct (@one_pending_timeout float _ selectThenMove) as (_ & F).
  destruct F as (P & _ & Q).
  - repeat constructor; cbn; lia.
  - split; [exact P | exact Q].
Defined.

(** The bound of two is reached: 100 ms after a selection, with the cursor
    on another item, that item's dwell timeout and the pulse timeout of
    the selection are both pending. *)
Example pulse_and_dwell_pending :
  map (fun t => due t) (timers (menuRun initialMenu selectThenMove)) = [1700%Z] /\
  map (fun t => due t) (pulseTimers (menuRun initialMenu selectThenMove)) = [1000%Z] /\
  selected (menuRun initialMenu selectThenMove) = [(800%Z, SelectColor "#FF0055")].
Proof. vm_compute. repeat split. Qed.

Lemma leaving_cancels_the_selection_witness :
  timers (hitTest true (Some offItems) items
            (menuRun initialMenu [Render true (Some onColor) items; Elapse 800])) = [] /\
  forall dts,
    selected
      (menuRun
         (hitTest true (Some offItems) items
            (menuRun initialMenu [Render true (Some onColor) items; Elapse 800]))
         (map Elapse dts))
    = selected (menuRun initialMenu [Render true (Some onColor) items; Elapse 800]).
Proof.
  destruct (@leaving_cancels_the_selection float _
              [Render true (Some onColor) items; Elapse 800] offItems items)
    as (L & _).
  destruct L as (L1 & _ & _ & L4); [vm_compute; reflexivity|].
  split; [exact L1 | exact L4].
Defined.

Lemma overlapping_items_starve_the_dwell_witness :
  selected
    (menuRun initialMenu
       (flat_map (fun dt => [Render true (Some onBoth) [colorItem; wideItem]; Elapse dt])
          [700; 700; 700]%Z))
  = [].
Proof.
  apply (@overlapping_items_starve_the_dwell float _ onBoth [colorItem; wideItem]
           colorItem wideItem initialMenu [700; 700; 700]%Z).
  - intros t [].
  - vm_compute. reflexivity.
  - vm_compute. discriminate.
  - repeat (constructor; [unfold dwell; lia|]). constructor.
Defined.

Lemma dwell_selection_end_to_end_witness :
  settingsRef
    (applySelections (fun _ => of_Z 6)
       (selected (menuRun (hitTest true (Some onColor) items initialMenu) [Elapse 800]))
       erasing)
  = mkSettings "#FF0055" (of_Z 6) pen.
Proof.
  destruct (@dwell_selection_end_to_end float _ (fun _ => of_Z 6) onColor items
              initialMenu colorItem [Elapse 800] erasing) as (C & _).
  - intros t [].
  - vm_compute. reflexivity.
  - reflexivity.
  - repeat constructor. cbn. lia.
  - apply Z.leb_le. vm_compute. reflexivity.
  - apply C. reflexivity.
Defined.

End MoreWitnesses.
